(** * gfw_get_feature_image: a shallow embedding of the four scripts

    The scripts are Python.  A [str] is modelled as a [string] (a sequence of
    8-bit characters, the UTF-8 text), an [int] as a [Z], a [list] as a [list],
    a [set] of strings as a [gset string], an exception as a value of
    [py_exception] carried by the [Raise] branch of [result]. *)

From Stdlib Require Import ZArith List String Ascii Bool Lia.
From Stdlib Require Strings.Byte.
From stdpp Require Import base option list gmap strings pretty.

Open Scope string_scope.
Open Scope list_scope.
Open Scope Z_scope.

(** ** Python values shared by the scripts *)

Module Py.

(** The exception classes, as far as the [except] clauses of the scripts
    tell them apart.  [requests.HTTPError] is the one class that
    [get_features.main] tells apart; the others are caught by
    [except Exception] (all of them) or [except ValueError].  [ValueError]
    stands for the class and for its subclasses ([UnicodeError],
    [json.JSONDecodeError]), which an [except ValueError] catches alike;
    [OSError] for the errors of the file system. *)
Inductive exc_class :=
  | HTTPError | RuntimeError | ValueError | TypeError | AttributeError
  | RecursionError | ConnectionError | DecodeError | OSError.

Record py_exception := PyExc { exc_type : exc_class; exc_str : string }.

Inductive result (A : Type) :=
  | Ok (a : A)
  | Raise (e : py_exception).
Arguments Ok {A} a.
Arguments Raise {A} e.

Global Instance exc_class_eq_dec : EqDecision exc_class.
Proof. solve_decision. Defined.

(** [l[:n]] for a Python list: a negative bound counts from the end. *)
Definition slice_to {A} (l : list A) (n : Z) : list A :=
  if 0 <=? n then take (Z.to_nat n) l
  else take (Z.to_nat (Z.of_nat (length l) + n)) l.

(** [sub in s] and [s.partition(sub)] for a non-empty [sub]: the text before
    and after the first occurrence. *)
Fixpoint partition (sep s : string) : option (string * string) :=
  if String.prefix sep s then
    Some ("", String.substring (String.length sep)
                (String.length s - String.length sep) s)
  else match s with
       | "" => None
       | String c s' =>
           match partition sep s' with
           | Some (before, after) => Some (String c before, after)
           | None => None
           end
       end.

Definition contains (sub s : string) : bool :=
  match partition sub s with Some _ => true | None => false end.

(** [s.rsplit(sep, 1)[-1]] for a one-character [sep]: the text after the
    last separator, the whole of [s] when there is none. *)
Fixpoint after_last (sep : ascii) (s : string) : string :=
  match s with
  | "" => ""
  | String c s' =>
      if Ascii.eqb c sep then after_last sep s'
      else
        let fix has (t : string) : bool :=
          match t with
          | "" => false
          | String d t' => Ascii.eqb d sep || has t'
          end in
        if has s' then after_last sep s' else s
  end.

(** [ch.isspace()] on the characters below 128. *)
Definition isspace (c : ascii) : bool :=
  let n := N_of_ascii c in
  ((9 <=? n) && (n <=? 13) || (28 <=? n) && (n <=? 32))%N.

Fixpoint lstrip (p : ascii -> bool) (s : string) : string :=
  match s with
  | "" => ""
  | String c s' => if p c then lstrip p s' else s
  end.

Definition rstrip (p : ascii -> bool) (s : string) : string :=
  String.rev (lstrip p (String.rev s)).

(** The characters above 127 for which [isspace] holds, by the bytes that
    hold them: U+0085 and U+00A0; U+1680, U+2000 to U+200A, U+2028, U+2029,
    U+202F, U+205F and U+3000. *)
Definition wide_space2 (c d : ascii) : bool :=
  ((N_of_ascii c =? 194) && ((N_of_ascii d =? 133) || (N_of_ascii d =? 160)))%N.

Definition wide_space3 (c d e : ascii) : bool :=
  let '(c, d, e) := (N_of_ascii c, N_of_ascii d, N_of_ascii e) in
  ((c =? 225) && (d =? 154) && (e =? 128)
   || (c =? 226) && (d =? 128)
      && ((128 <=? e) && (e <=? 138) || (e =? 168) || (e =? 169) || (e =? 175))
   || (c =? 226) && (d =? 129) && (e =? 159)
   || (c =? 227) && (d =? 128) && (e =? 128))%N.

(** [s.lstrip()]: the white space at the head of the text goes, character
    by character. *)
Fixpoint lstrip_space (s : string) : string :=
  match s with
  | "" => ""
  | String c s1 =>
      if isspace c then lstrip_space s1
      else
        match s1 with
        | String d s2 =>
            if wide_space2 c d then lstrip_space s2
            else
              match s2 with
              | String e s3 => if wide_space3 c d e then lstrip_space s3 else s
              | "" => s
              end
        | "" => s
        end
  end.

(** [s.rstrip()], on the text read from its end: a byte below 128 is a
    character, and the byte before a last byte above 127 belongs to the same
    character. *)
Fixpoint rstrip_space_rev (s : string) : string :=
  match s with
  | "" => ""
  | String e s1 =>
      if isspace e then rstrip_space_rev s1
      else
        match s1 with
        | String d s2 =>
            if wide_space2 d e then rstrip_space_rev s2
            else
              match s2 with
              | String c s3 => if wide_space3 c d e then rstrip_space_rev s3 else s
              | "" => s
              end
        | "" => s
        end
  end.

Definition strip (s : string) : string :=
  String.rev (rstrip_space_rev (String.rev (lstrip_space s))).

(** [s[:n]] for a text and an [n] that is not negative: the first [n]
    characters.  A byte between 128 and 191 continues the character that
    the byte before it belongs to. *)
Definition is_continuation (c : ascii) : bool :=
  ((128 <=? N_of_ascii c) && (N_of_ascii c <? 192))%N.

Fixpoint take_chars (n : nat) (s : string) : string :=
  match s with
  | "" => ""
  | String c s' =>
      if is_continuation c then String c (take_chars n s')
      else match n with
           | O => ""
           | S n => String c (take_chars n s')
           end
  end.

Fixpoint map_chars (f : ascii -> ascii) (s : string) : string :=
  match s with
  | "" => ""
  | String c s' => String (f c) (map_chars f s')
  end.

Fixpoint mem_char (c : ascii) (s : string) : bool :=
  match s with
  | "" => false
  | String d s' => Ascii.eqb c d || mem_char c s'
  end.

(** [s.lower()] on the characters below 128; the others are kept. *)
Definition lower_char (c : ascii) : ascii :=
  let n := N_of_ascii c in
  if ((65 <=? n) && (n <=? 90))%N then ascii_of_N (n + 32) else c.

Definition lower (s : string) : string := map_chars lower_char s.

(** [s.endswith(suffix)]: some tail of [s] is [suffix]. *)
Fixpoint endswith (suffix s : string) : bool :=
  String.eqb s suffix
  || match s with
     | "" => false
     | String _ s' => endswith suffix s'
     end.

Fixpoint all_chars (p : ascii -> bool) (s : string) : bool :=
  match s with
  | "" => true
  | String c s' => p c && all_chars p s'
  end.

Definition is_not (sep : ascii) (c : ascii) : bool := negb (Ascii.eqb c sep).

(** [s.split(sep)] for a one-character separator. *)
Fixpoint split_on (sep : ascii) (s : string) : list string :=
  match s with
  | "" => [""]
  | String c s' =>
      if Ascii.eqb c sep then "" :: split_on sep s'
      else match split_on sep s' with
           | piece :: pieces => String c piece :: pieces
           | [] => [String c ""]
           end
  end.

(** [s.split(sep, 1)]: the text before the first separator and, when there
    is one, the text after it. *)
Fixpoint split_once (sep : ascii) (s : string) : string * option string :=
  match s with
  | "" => ("", None)
  | String c s' =>
      if Ascii.eqb c sep then ("", Some s')
      else let '(before, after) := split_once sep s' in (String c before, after)
  end.

(** The values that [json.loads] and the tile decoder hand to the scripts,
    as values (no sharing).  A [float] is kept as its 64 bits: the scripts do
    no arithmetic on it. *)
#[local] Set Warnings "-register-all".
Inductive pyval :=
  | PNone
  | PBool (b : bool)
  | PInt (z : Z)
  | PFloat (bits : Z)
  | PStr (s : string)
  | PList (items : list pyval)
  | PDict (entries : list (string * pyval)).

Definition is_list (v : pyval) : bool :=
  match v with PList _ => true | _ => false end.

(** [bool(v)]: what [v or default] and [if not v] test. *)
Definition truthy (v : pyval) : bool :=
  match v with
  | PNone => false
  | PBool b => b
  | PInt z => negb (z =? 0)
  | PFloat bits => negb ((bits =? 0) || (bits =? 2 ^ 63))
  | PStr s => negb (String.eqb s "")
  | PList items => match items with [] => false | _ => true end
  | PDict entries => match entries with [] => false | _ => true end
  end.

(** [d.get(key)] on the entries of a dict: [None] when the key is absent. *)
Fixpoint dict_get (entries : list (string * pyval)) (key : string) : pyval :=
  match entries with
  | [] => PNone
  | (k, v) :: entries => if String.eqb k key then v else dict_get entries key
  end.

(** The line feed of the f-strings. *)
Definition nl : string := String (ascii_of_nat 10) "".

(** [d[key] = value] on the entries of a dict: the value of a key that is
    there is replaced in place, a new key goes to the end. *)
Fixpoint dict_set {V} (entries : list (string * V)) (key : string) (value : V)
  : list (string * V) :=
  match entries with
  | [] => [(key, value)]
  | (k, v) :: entries =>
      if String.eqb k key then (k, value) :: entries
      else (k, v) :: dict_set entries key value
  end.

End Py.
Export Py.

(** ** Facts about the string operations *)

Module PyFacts.

#[local] Arguments String.append !_ _ : simpl nomatch.

Lemma all_chars_app p s1 s2 :
  all_chars p (s1 +:+ s2) = all_chars p s1 && all_chars p s2.
Proof. induction s1 as [|c s1 IH]; simpl; [done|]. by rewrite IH, andb_assoc. Qed.

Lemma all_chars_impl (p q : ascii -> bool) s :
  (forall c, p c = true -> q c = true) -> all_chars p s = true -> all_chars q s = true.
Proof.
  intros Hpq. induction s as [|c s IH]; simpl; [done|].
  intros [Hc Hs]%andb_true_iff. by rewrite (Hpq c Hc), IH.
Qed.

Lemma map_chars_app f s1 s2 :
  map_chars f (s1 +:+ s2) = map_chars f s1 +:+ map_chars f s2.
Proof. induction s1 as [|c s1 IH]; simpl; [done|]. by rewrite IH. Qed.

Lemma app_cons_str c (s1 s2 : string) : String c s1 +:+ s2 = String c (s1 +:+ s2).
Proof. reflexivity. Qed.

Lemma app_assoc_str (s1 s2 s3 : string) : (s1 +:+ s2) +:+ s3 = s1 +:+ s2 +:+ s3.
Proof. induction s1 as [|c s1 IH]; [done|]. by rewrite !app_cons_str, IH. Qed.

Lemma app_empty_r (s : string) : s +:+ "" = s.
Proof. induction s as [|c s IH]; [done|]. by rewrite app_cons_str, IH. Qed.

Lemma split_on_free sep s : all_chars (is_not sep) s = true -> split_on sep s = [s].
Proof.
  induction s as [|c s IH]; simpl; [done|].
  unfold is_not at 1. intros [Hc Hs]%andb_true_iff.
  apply negb_true_iff in Hc. rewrite Hc. by rewrite IH.
Qed.

Lemma split_on_app sep s1 s2 :
  all_chars (is_not sep) s1 = true ->
  split_on sep (s1 +:+ String sep s2) = s1 :: split_on sep s2.
Proof.
  induction s1 as [|c s1 IH]; simpl.
  - intros _. by rewrite Ascii.eqb_refl.
  - unfold is_not at 1. intros [Hc Hs]%andb_true_iff.
    apply negb_true_iff in Hc. rewrite Hc. by rewrite IH.
Qed.

Lemma split_once_free sep s :
  all_chars (is_not sep) s = true -> split_once sep s = (s, None).
Proof.
  induction s as [|c s IH]; simpl; [done|].
  unfold is_not at 1. intros [Hc Hs]%andb_true_iff.
  apply negb_true_iff in Hc. rewrite Hc. by rewrite IH.
Qed.

Lemma split_once_prefix sep s1 s2 :
  all_chars (is_not sep) s1 = true ->
  split_once sep (s1 +:+ s2)
  = (s1 +:+ fst (split_once sep s2), snd (split_once sep s2)).
Proof.
  induction s1 as [|c s1 IH]; simpl.
  - intros _. by destruct (split_once sep s2).
  - unfold is_not at 1. intros [Hc Hs]%andb_true_iff.
    apply negb_true_iff in Hc. rewrite Hc. by rewrite IH.
Qed.

Lemma split_once_app sep s1 s2 :
  all_chars (is_not sep) s1 = true ->
  split_once sep (s1 +:+ String sep s2) = (s1, Some s2).
Proof.
  intros Hs1. rewrite split_once_prefix by done. simpl.
  rewrite Ascii.eqb_refl. simpl. by rewrite app_empty_r.
Qed.

Lemma split_once_Some sep s before after :
  split_once sep s = (before, Some after) -> s = before +:+ String sep after.
Proof.
  revert before. induction s as [|c s IH]; intros before; simpl; [done|].
  destruct (Ascii.eqb_spec c sep) as [->|Hne].
  - by intros [= <- <-].
  - destruct (split_once sep s) as [b a] eqn:Hs. intros [= <- ->].
    simpl. f_equal. by apply IH.
Qed.

Lemma split_once_fst_free sep s : all_chars (is_not sep) (fst (split_once sep s)) = true.
Proof.
  induction s as [|c s IH]; simpl; [done|].
  destruct (Ascii.eqb c sep) eqn:Hc; [done|].
  destruct (split_once sep s) as [b a]. simpl in *. unfold is_not at 1.
  by rewrite Hc, IH.
Qed.

Lemma split_once_fst_all q sep s :
  all_chars q s = true -> all_chars q (fst (split_once sep s)) = true.
Proof.
  induction s as [|c s IH]; simpl; [done|].
  intros [Hc Hs]%andb_true_iff.
  destruct (Ascii.eqb c sep); [done|].
  destruct (split_once sep s) as [b a]. simpl in *. by rewrite Hc, IH.
Qed.

Lemma split_on_pieces sep s :
  Forall (fun piece => all_chars (is_not sep) piece = true) (split_on sep s).
Proof.
  induction s as [|c s IH]; simpl; [by repeat constructor|].
  destruct (Ascii.eqb c sep) eqn:Hc; [by constructor|].
  destruct (split_on sep s) as [|piece pieces].
  - repeat constructor. simpl. unfold is_not. by rewrite Hc.
  - inversion IH as [|? ? Hpiece Hpieces]; subst. constructor; [|done].
    simpl. unfold is_not at 1. by rewrite Hc.
Qed.

Lemma endswith_app suffix s : endswith suffix (s +:+ suffix) = true.
Proof.
  induction s as [|c s IH].
  - change ("" +:+ suffix) with suffix.
    destruct suffix as [|a t]; cbn [endswith]; by rewrite String.eqb_refl.
  - rewrite app_cons_str. cbn [endswith]. rewrite IH. apply orb_true_r.
Qed.

End PyFacts.
Export PyFacts.

(** ** The interface of [urllib.parse]

    [urllib.parse] is a library, not part of the scripts: the scripts are
    embedded over its interface.  [parse_qsl] stands for
    [parse_qsl(qs, keep_blank_values=True)] and [urlencode] for
    [urlencode(items, doseq=True)], the only ways the scripts call them.
    [urlsplit] raises on a URL whose host it refuses, and [urlencode] on a
    text that has no UTF-8 encoding; [urlunsplit], [parse_qsl] and [unquote]
    return on every text. *)

Module Urllib.

Record SplitResult := mkSplit {
  scheme : string;
  netloc : string;
  path : string;
  query : string;
  fragment : string
}.

Definition with_query (p : SplitResult) (q : string) : SplitResult :=
  mkSplit (scheme p) (netloc p) (path p) q (fragment p).

Class UrlLib := {
  urlsplit : string -> result SplitResult;
  urlunsplit : SplitResult -> string;
  parse_qsl : string -> list (string * string);
  urlencode : list (string * string) -> result string;
  unquote : string -> string
}.

(** What the scripts rely on: an encoded query parses back to its items, and
    a URL rebuilt around an encoded query splits back to that query. *)
Class UrlLibLaws (U : UrlLib) := {
  parse_qsl_urlencode :
    forall items q, urlencode items = Ok q -> parse_qsl q = items;
  urlsplit_urlunsplit_query :
    forall url parts items q parts',
      urlsplit url = Ok parts ->
      urlencode items = Ok q ->
      urlsplit (urlunsplit (with_query parts q)) = Ok parts' ->
      query parts' = q
}.

End Urllib.
Export Urllib.

(** ** A reference implementation of the [urllib.parse] interface

    After CPython's [urllib/parse.py].  It shows that the laws of
    [UrlLibLaws] hold of the functions the scripts call, and it is the
    instance at which the closed examples below are evaluated.

    A [str] is held as the bytes of its UTF-8 encoding; a character that has
    no encoding (a lone surrogate [U+DC80]..[U+DCFF], which is how the
    command line hands over a byte that does not decode) is held as that
    byte.

    Of the checks of [urlsplit] on the host, the one on brackets that do not
    match is CPython's.  The two that need [ipaddress] and [unicodedata] are
    not modelled: a host in brackets and a host with a character above 127
    are refused here, which CPython does for some of them only. *)

Module UrllibRef.

Definition hex_digit (n : N) : ascii :=
  ascii_of_N (if (n <? 10)%N then 48 + n else 55 + n).

Definition hex_value (c : ascii) : option N :=
  let n := N_of_ascii c in
  if ((48 <=? n) && (n <=? 57))%N then Some (n - 48)%N
  else if ((65 <=? n) && (n <=? 70))%N then Some (n - 55)%N
  else if ((97 <=? n) && (n <=? 102))%N then Some (n - 87)%N
  else None.

(** [_ALWAYS_SAFE]: letters, digits and [_.-~]. *)
Definition always_safe (c : ascii) : bool :=
  let n := N_of_ascii c in
  ((65 <=? n) && (n <=? 90) || (97 <=? n) && (n <=? 122)
   || (48 <=? n) && (n <=? 57))%N
  || mem_char c "_.-~".

(** [quote_plus] on the bytes of an encoded text. *)
Definition quote_plus_char (c : ascii) : string :=
  if always_safe c then String c ""
  else if Ascii.eqb c " " then "+"
  else let n := N_of_ascii c in
       String "%" (String (hex_digit (n / 16)) (String (hex_digit (n mod 16)) "")).

Fixpoint quote_plus (s : string) : string :=
  match s with
  | "" => ""
  | String c s' => quote_plus_char c +:+ quote_plus s'
  end.

(** *** The UTF-8 codec

    [utf8_pieces] cuts a sequence of bytes into the sequences that encode a
    character and, between them, the longest sequences that start one and
    cannot be continued, as CPython's decoder does.  [pending] holds the
    bytes of the character that is being read, which still needs [need]
    bytes, the next of them between [lo] and [hi]. *)

Inductive piece :=
  | Char (bytes : string)
  | Bad (bytes : string).

Definition piece_bytes (p : piece) : string :=
  match p with Char bytes | Bad bytes => bytes end.

Definition is_char (p : piece) : bool :=
  match p with Char _ => true | Bad _ => false end.

Definition is_ascii (c : ascii) : bool := (N_of_ascii c <? 128)%N.

(** What a first byte announces: how many bytes follow it, and the range of
    the first of them. *)
Definition utf8_lead (c : ascii) : option (nat * N * N) :=
  let n := N_of_ascii c in
  if (n <? 128)%N then Some (0%nat, 0%N, 0%N)
  else if (n <? 194)%N then None
  else if (n <? 224)%N then Some (1%nat, 128%N, 191%N)
  else if (n =? 224)%N then Some (2%nat, 160%N, 191%N)
  else if (n =? 237)%N then Some (2%nat, 128%N, 159%N)
  else if (n <? 240)%N then Some (2%nat, 128%N, 191%N)
  else if (n =? 240)%N then Some (3%nat, 144%N, 191%N)
  else if (n <? 244)%N then Some (3%nat, 128%N, 191%N)
  else if (n =? 244)%N then Some (3%nat, 128%N, 143%N)
  else None.

Fixpoint utf8_pieces (pending : string) (need : nat) (lo hi : N) (s : string)
  : list piece :=
  match s with
  | "" => if String.eqb pending "" then [] else [Bad pending]
  | String c s' =>
      let start :=
        match utf8_lead c with
        | None => Bad (String c "") :: utf8_pieces "" 0 0 0 s'
        | Some (O, _, _) => Char (String c "") :: utf8_pieces "" 0 0 0 s'
        | Some (need, lo, hi) => utf8_pieces (String c "") need lo hi s'
        end in
      match need with
      | O => start
      | S need' =>
          if ((lo <=? N_of_ascii c) && (N_of_ascii c <=? hi))%N then
            match need' with
            | O => Char (pending +:+ String c "") :: utf8_pieces "" 0 0 0 s'
            | S _ => utf8_pieces (pending +:+ String c "") need' 128 191 s'
            end
          else Bad pending :: start
      end
  end.

Definition utf8_decode (s : string) : list piece := utf8_pieces "" 0 0 0 s.

(** The encoding of [U+FFFD]. *)
Definition replacement : string := String "239" (String "191" (String "189" "")).

(** [bytes.decode('utf-8', 'replace')], the result held as its encoding. *)
Definition utf8_replace (s : string) : string :=
  fold_right
    (fun p out => match p with Char bytes => bytes +:+ out | Bad _ => replacement +:+ out end)
    "" (utf8_decode s).

(** [str.encode('utf-8')] raises on a text that has characters without an
    encoding: its message tells the first run of them. *)
Fixpoint bad_run (pieces : list piece) : string :=
  match pieces with
  | Bad bytes :: pieces => bytes +:+ bad_run pieces
  | _ => ""
  end.

Fixpoint first_bad (position : nat) (pieces : list piece) : option (nat * string) :=
  match pieces with
  | [] => None
  | Char _ :: pieces => first_bad (S position) pieces
  | Bad _ :: _ => Some (position, bad_run pieces)
  end.

Definition lower_hex_digit (n : N) : ascii :=
  ascii_of_N (if (n <? 10)%N then 48 + n else 87 + n).

Definition encode_error (s : string) : option string :=
  match first_bad 0 (utf8_decode s) with
  | None => None
  | Some (position, run) =>
      let which :=
        match run with
        | String c "" =>
            let n := N_of_ascii c in
            " '\udc" +:+ String (lower_hex_digit (n / 16))
                          (String (lower_hex_digit (n mod 16)) "")
            +:+ "' in position " +:+ pretty position
        | _ =>
            "s in position " +:+ pretty position +:+ "-"
            +:+ pretty (position + String.length run - 1)%nat
        end in
      Some ("'utf-8' codec can't encode character" +:+ which
            +:+ ": surrogates not allowed")
  end.

(** [quote_plus] of a [str]: the text is encoded, then quoted. *)
Definition quote_plus_str (s : string) : result string :=
  match encode_error s with
  | Some msg => Raise (PyExc ValueError msg)
  | None => Ok (quote_plus s)
  end.

(** [_unquote_impl]: the bytes that an ASCII text with escapes stands for. *)
Fixpoint unquote_to_bytes (s : string) : string :=
  match s with
  | "" => ""
  | String c tail =>
      if Ascii.eqb c "%" then
        match tail with
        | String a (String b rest) =>
            match hex_value a, hex_value b with
            | Some x, Some y => String (ascii_of_N (16 * x + y)) (unquote_to_bytes rest)
            | _, _ => String c (unquote_to_bytes tail)
            end
        | _ => String c (unquote_to_bytes tail)
        end
      else String c (unquote_to_bytes tail)
  end.

(** [unquote(string)], with its defaults [encoding='utf-8'] and
    [errors='replace']: each run of characters below 128 is unquoted to
    bytes and decoded; the characters between the runs are kept.  [run] is
    the run that is being read. *)
Definition decode_run (run : string) : string := utf8_replace (unquote_to_bytes run).

Fixpoint unquote_from (run : string) (s : string) : string :=
  match s with
  | "" => decode_run run
  | String c s' =>
      if is_ascii c then unquote_from (run +:+ String c "") s'
      else decode_run run +:+ String c (unquote_from "" s')
  end.

Definition unquote (s : string) : string := unquote_from "" s.

Definition plus_to_space (s : string) : string :=
  map_chars (fun c => if Ascii.eqb c "+" then " "%char else c) s.

Definition parse_qsl (qs : string) : list (string * string) :=
  flat_map
    (fun name_value =>
       if String.eqb name_value "" then []
       else
         let '(name, value) := split_once "=" name_value in
         let value := match value with Some v => v | None => "" end in
         [(unquote (plus_to_space name), unquote (plus_to_space value))])
    (split_on "&" qs).

Fixpoint join (sep : string) (pieces : list string) : string :=
  match pieces with
  | [] => ""
  | [piece] => piece
  | piece :: pieces => piece +:+ sep +:+ join sep pieces
  end.

Definition encode_pair (kv : string * string) : result string :=
  match quote_plus_str (fst kv) with
  | Raise e => Raise e
  | Ok k =>
      match quote_plus_str (snd kv) with
      | Raise e => Raise e
      | Ok v => Ok (k +:+ "=" +:+ v)
      end
  end.

Fixpoint encode_pairs (items : list (string * string)) : result (list string) :=
  match items with
  | [] => Ok []
  | kv :: items =>
      match encode_pair kv with
      | Raise e => Raise e
      | Ok encoded =>
          match encode_pairs items with
          | Raise e => Raise e
          | Ok rest => Ok (encoded :: rest)
          end
      end
  end.

Definition urlencode (items : list (string * string)) : result string :=
  match encode_pairs items with
  | Raise e => Raise e
  | Ok pairs => Ok (join "&" pairs)
  end.

(** [_WHATWG_C0_CONTROL_OR_SPACE] and [_UNSAFE_URL_BYTES_TO_REMOVE]. *)
Definition c0_control_or_space (c : ascii) : bool := (N_of_ascii c <=? 32)%N.

Definition unsafe_url_byte (c : ascii) : bool := mem_char c (String "009" (String "013" (String "010" ""))).

Fixpoint remove_chars (p : ascii -> bool) (s : string) : string :=
  match s with
  | "" => ""
  | String c s' => if p c then remove_chars p s' else String c (remove_chars p s')
  end.

Definition scheme_char (c : ascii) : bool :=
  let n := N_of_ascii c in
  ((65 <=? n) && (n <=? 90) || (97 <=? n) && (n <=? 122)
   || (48 <=? n) && (n <=? 57))%N
  || mem_char c "+-.".

Definition is_alpha (c : ascii) : bool :=
  let n := N_of_ascii c in
  ((65 <=? n) && (n <=? 90) || (97 <=? n) && (n <=? 122))%N.

(** The text up to the first character that satisfies [p], and the rest
    (which starts with that character, or is empty). *)
Fixpoint break_at (p : ascii -> bool) (s : string) : string * string :=
  match s with
  | "" => ("", "")
  | String c s' =>
      if p c then ("", s)
      else let '(before, rest) := break_at p s' in (String c before, rest)
  end.

Definition split_scheme (url : string) : string * string :=
  match split_once ":" url with
  | (String c0 before, Some after) =>
      if is_alpha c0 && all_chars scheme_char (String c0 before)
      then (lower (String c0 before), after)
      else ("", url)
  | _ => ("", url)
  end.

Definition split_netloc (url : string) : string * string :=
  match url with
  | String "/" (String "/" rest) => break_at (fun c => mem_char c "/?#") rest
  | _ => ("", url)
  end.

Definition or_empty (o : option string) : string :=
  match o with Some s => s | None => "" end.

(** The five parts that [urlsplit] cuts a URL into. *)
Definition split (url : string) : SplitResult :=
  let url := lstrip c0_control_or_space url in
  let url := remove_chars unsafe_url_byte url in
  let '(scheme, url) := split_scheme url in
  let '(netloc, url) := split_netloc url in
  let '(url, fragment) := split_once "#" url in
  let '(url, query) := split_once "?" url in
  mkSplit scheme netloc url (or_empty query) (or_empty fragment).

(** The host that [urlsplit] refuses, with the message of its [ValueError]. *)
Definition refused_netloc (netloc : string) : option string :=
  if mem_char "[" netloc || mem_char "]" netloc then Some "Invalid IPv6 URL"
  else if all_chars is_ascii netloc then None
  else Some ("netloc '" +:+ netloc
             +:+ "' contains invalid characters under NFKC normalization").

Definition urlsplit (url : string) : result SplitResult :=
  let parts := split url in
  match refused_netloc (netloc parts) with
  | Some msg => Raise (PyExc ValueError msg)
  | None => Ok parts
  end.

Definition uses_netloc : list string :=
  [""; "ftp"; "http"; "gopher"; "nntp"; "telnet"; "imap"; "wais"; "file";
   "mms"; "https"; "shttp"; "snews"; "prospero"; "rtsp"; "rtsps"; "rtspu";
   "rsync"; "svn"; "svn+ssh"; "sftp"; "nfs"; "git"; "git+ssh"; "ws"; "wss";
   "itms-services"].

Definition urlunsplit (p : SplitResult) : string :=
  let url := path p in
  let url :=
    if negb (String.eqb (netloc p) "")
       || (negb (String.eqb (scheme p) "")
           && bool_decide (scheme p ∈ uses_netloc)
           && negb (String.prefix "//" url))
    then
      let url :=
        if negb (String.eqb url "") && negb (String.prefix "/" url)
        then "/" +:+ url else url in
      "//" +:+ netloc p +:+ url
    else url in
  let url := if String.eqb (scheme p) "" then url else scheme p +:+ ":" +:+ url in
  let url := if String.eqb (query p) "" then url else url +:+ "?" +:+ query p in
  let url := if String.eqb (fragment p) "" then url else url +:+ "#" +:+ fragment p in
  url.

(** *** The laws, for the reference implementation *)

#[local] Arguments String.append !_ _ : simpl nomatch.

Ltac each_ascii c :=
  destruct c as [[] [] [] [] [] [] [] []]; try reflexivity; try discriminate.

(** What an encoded name or value is made of. *)
Definition encoded_char (c : ascii) : bool := always_safe c || mem_char c "+%".

Lemma quote_plus_char_encoded c : all_chars encoded_char (quote_plus_char c) = true.
Proof. each_ascii c. Qed.

Lemma quote_plus_encoded s : all_chars encoded_char (quote_plus s) = true.
Proof.
  induction s as [|c s IH]; simpl; [done|].
  by rewrite all_chars_app, quote_plus_char_encoded, IH.
Qed.

Lemma unquote_quote_plus_char c rest :
  unquote_to_bytes (plus_to_space (quote_plus_char c) +:+ rest)
  = String c (unquote_to_bytes rest).
Proof. each_ascii c. Qed.

Lemma unquote_to_bytes_quote_plus s : unquote_to_bytes (plus_to_space (quote_plus s)) = s.
Proof.
  induction s as [|c s IH]; simpl; [done|].
  unfold plus_to_space in *. rewrite map_chars_app.
  change (map_chars _ (quote_plus_char c)) with (plus_to_space (quote_plus_char c)).
  by rewrite unquote_quote_plus_char, IH.
Qed.

(** The pieces of a text are its bytes, in order. *)
Lemma utf8_pieces_bytes pending need lo hi s :
  (need = 0%nat -> pending = "") ->
  fold_right (fun p out => piece_bytes p +:+ out) "" (utf8_pieces pending need lo hi s)
  = pending +:+ s.
Proof.
  revert pending need lo hi. induction s as [|c s IH]; intros pending need lo hi Hneed.
  - cbn [utf8_pieces]. destruct (String.eqb_spec pending "") as [->|_]; [done|].
    cbn. by rewrite !app_empty_r.
  - assert (fold_right (fun p out => piece_bytes p +:+ out) ""
              match utf8_lead c with
              | None => Bad (String c "") :: utf8_pieces "" 0 0 0 s
              | Some (O, _, _) => Char (String c "") :: utf8_pieces "" 0 0 0 s
              | Some (S n as need, lo, hi) => utf8_pieces (String c "") need lo hi s
              end = String c s) as Hstart.
    { destruct (utf8_lead c) as [[[[|n] lo'] hi']|]; cbn [fold_right piece_bytes];
        rewrite IH by done; done. }
    cbn [utf8_pieces]. destruct need as [|need].
    + by rewrite Hneed.
    + destruct ((lo <=? N_of_ascii c)%N && (N_of_ascii c <=? hi)%N).
      * destruct need as [|need]; cbn [fold_right piece_bytes]; rewrite IH by done;
          by rewrite ?app_assoc_str.
      * cbn [fold_right piece_bytes]. by rewrite Hstart.
Qed.

(** A text that is well-formed UTF-8 decodes to itself. *)
Definition utf8_valid (s : string) : bool := forallb is_char (utf8_decode s).

Lemma utf8_replace_valid s : utf8_valid s = true -> utf8_replace s = s.
Proof.
  unfold utf8_valid, utf8_replace. intros Hvalid.
  rewrite <- (utf8_pieces_bytes "" 0 0 0 s) at 2 by done. fold (utf8_decode s).
  induction (utf8_decode s) as [|[bytes|bytes] pieces IH]; [done| |done].
  cbn [forallb is_char andb] in Hvalid. cbn [fold_right piece_bytes]. by rewrite IH.
Qed.

Lemma first_bad_None position pieces :
  first_bad position pieces = None -> forallb is_char pieces = true.
Proof.
  revert position. induction pieces as [|[bytes|bytes] pieces IH]; intros position;
    [done| |done].
  cbn [first_bad forallb is_char andb]. apply IH.
Qed.

Lemma quote_plus_str_Ok s quoted :
  quote_plus_str s = Ok quoted -> quoted = quote_plus s ∧ utf8_valid s = true.
Proof.
  unfold quote_plus_str, encode_error.
  destruct (first_bad 0 (utf8_decode s)) as [[position run]|] eqn:Hbad; [done|].
  intros [= <-]. split; [done|]. by eapply first_bad_None.
Qed.

Lemma utf8_decode_ascii s :
  all_chars is_ascii s = true ->
  utf8_decode s = map (fun c => Char (String c "")) (list_ascii_of_string s).
Proof.
  unfold utf8_decode. induction s as [|c s IH]; [done|].
  cbn [all_chars]. intros [Hc Hs]%andb_true_iff.
  cbn [utf8_pieces list_ascii_of_string map]. unfold utf8_lead.
  unfold is_ascii in Hc. rewrite Hc. by rewrite IH.
Qed.

Lemma utf8_valid_ascii s : all_chars is_ascii s = true -> utf8_valid s = true.
Proof.
  intros Hs. unfold utf8_valid. rewrite utf8_decode_ascii by done.
  by induction (list_ascii_of_string s).
Qed.

(** A text without a character above 127 is one run. *)
Lemma unquote_from_ascii run s :
  all_chars is_ascii s = true -> unquote_from run s = decode_run (run +:+ s).
Proof.
  revert run. induction s as [|c s IH]; intros run; cbn [all_chars unquote_from].
  - intros _. by rewrite app_empty_r.
  - intros [Hc Hs]%andb_true_iff. rewrite Hc, IH by done.
    by rewrite app_assoc_str.
Qed.

Lemma encoded_is_ascii c : encoded_char c = true -> is_ascii c = true.
Proof. each_ascii c. Qed.

Lemma plus_to_space_ascii s :
  all_chars is_ascii s = true -> all_chars is_ascii (plus_to_space s) = true.
Proof.
  unfold plus_to_space. induction s as [|c s IH]; [done|].
  cbn [all_chars map_chars]. intros [Hc Hs]%andb_true_iff. rewrite IH by done.
  rewrite andb_true_r. destruct (Ascii.eqb c "+"); [done|exact Hc].
Qed.

Lemma unquote_quote_plus s :
  utf8_valid s = true -> unquote (plus_to_space (quote_plus s)) = s.
Proof.
  intros Hs. unfold unquote. rewrite unquote_from_ascii.
  - unfold decode_run. cbn [String.append].
    by rewrite unquote_to_bytes_quote_plus, utf8_replace_valid.
  - apply plus_to_space_ascii.
    eapply all_chars_impl; [|apply quote_plus_encoded]. apply encoded_is_ascii.
Qed.

Lemma encoded_is_not c :
  encoded_char c = true ->
  is_not "&" c = true ∧ is_not "=" c = true ∧ is_not "#" c = true
  ∧ unsafe_url_byte c = false.
Proof. each_ascii c. all: by intros _. Qed.

(** What an encoded query is made of. *)
Definition query_char (c : ascii) : bool := encoded_char c || mem_char c "&=".

(** The query that [urlencode] makes of items whose texts have an encoding. *)
Definition quoted_pair (kv : string * string) : string :=
  quote_plus (fst kv) +:+ "=" +:+ quote_plus (snd kv).

Definition quoted_query (items : list (string * string)) : string :=
  join "&" (map quoted_pair items).

Definition valid_pair (kv : string * string) : Prop :=
  utf8_valid (fst kv) = true ∧ utf8_valid (snd kv) = true.

Lemma encode_pairs_Ok items pairs :
  encode_pairs items = Ok pairs ->
  pairs = map quoted_pair items ∧ Forall valid_pair items.
Proof.
  revert pairs. induction items as [|kv items IH]; intros pairs; cbn [encode_pairs].
  - by intros [= <-].
  - unfold encode_pair.
    destruct (quote_plus_str (fst kv)) as [k|] eqn:Hk; [|done].
    destruct (quote_plus_str (snd kv)) as [v|] eqn:Hv; [|done].
    destruct (encode_pairs items) as [rest|]; [|done]. intros [= <-].
    apply quote_plus_str_Ok in Hk as [-> Hk]. apply quote_plus_str_Ok in Hv as [-> Hv].
    destruct (IH rest eq_refl) as [-> Hrest]. split; [done|]. by constructor.
Qed.

Lemma urlencode_Ok items q :
  urlencode items = Ok q -> q = quoted_query items ∧ Forall valid_pair items.
Proof.
  unfold urlencode. destruct (encode_pairs items) as [pairs|] eqn:Hpairs; [|done].
  intros [= <-]. by apply encode_pairs_Ok in Hpairs as [-> ?].
Qed.

Lemma encode_pair_query_chars kv : all_chars query_char (quoted_pair kv) = true.
Proof.
  unfold quoted_pair. rewrite !all_chars_app. cbn [all_chars].
  rewrite !(all_chars_impl encoded_char query_char) by
    (try apply quote_plus_encoded; unfold query_char; by intros c ->).
  done.
Qed.

Lemma join_cons sep piece next pieces :
  join sep (piece :: next :: pieces) = piece +:+ sep +:+ join sep (next :: pieces).
Proof. reflexivity. Qed.

Lemma urlencode_query_chars items : all_chars query_char (quoted_query items) = true.
Proof.
  unfold quoted_query. induction items as [|kv items IH]; [done|].
  destruct items as [|kv' items]; [apply encode_pair_query_chars|].
  rewrite !map_cons, join_cons, <- map_cons.
  rewrite all_chars_app, encode_pair_query_chars. rewrite all_chars_app. exact IH.
Qed.

Definition parse_pair (name_value : string) : list (string * string) :=
  if String.eqb name_value "" then []
  else
    let '(name, value) := split_once "=" name_value in
    let value := match value with Some v => v | None => "" end in
    [(unquote (plus_to_space name), unquote (plus_to_space value))].

Lemma parse_qsl_pairs qs : parse_qsl qs = flat_map parse_pair (split_on "&" qs).
Proof. reflexivity. Qed.

Lemma parse_pair_encoded kv : valid_pair kv -> parse_pair (quoted_pair kv) = [kv].
Proof.
  destruct kv as [k v]. intros [Hvalid_k Hvalid_v]. unfold quoted_pair.
  cbn [fst snd] in *.
  change ("=" +:+ quote_plus v) with (String "=" (quote_plus v)).
  assert (Hk : all_chars (is_not "=") (quote_plus k) = true).
  { eapply all_chars_impl; [|apply quote_plus_encoded].
    intros c Hc. by apply encoded_is_not in Hc as (_ & ? & _). }
  unfold parse_pair.
  assert ((quote_plus k +:+ String "=" (quote_plus v) =? "")%string = false) as ->
    by (by destruct (quote_plus k)).
  rewrite split_once_app by done. by rewrite !unquote_quote_plus.
Qed.

Lemma encode_pair_no_amp kv : all_chars (is_not "&") (quoted_pair kv) = true.
Proof.
  unfold quoted_pair. rewrite !all_chars_app. cbn [all_chars].
  rewrite !(all_chars_impl encoded_char (is_not "&")); try done;
    try apply quote_plus_encoded;
    intros c Hc; by apply encoded_is_not in Hc as (? & _).
Qed.

Lemma parse_qsl_quoted_query items :
  Forall valid_pair items -> parse_qsl (quoted_query items) = items.
Proof.
  rewrite parse_qsl_pairs. unfold quoted_query.
  induction 1 as [|kv items Hkv Hitems IH]; [done|].
  destruct items as [|kv' items].
  - cbn [map join].
    rewrite split_on_free by apply encode_pair_no_amp.
    cbn [flat_map]. by rewrite parse_pair_encoded.
  - rewrite !map_cons, join_cons, <- map_cons.
    set (rest := join "&" _) in *.
    change ("&" +:+ rest) with (String "&" rest).
    rewrite split_on_app by apply encode_pair_no_amp.
    cbn [flat_map]. rewrite parse_pair_encoded, IH by done. done.
Qed.

Lemma parse_qsl_urlencode items q : urlencode items = Ok q -> parse_qsl q = items.
Proof. intros [-> Hvalid]%urlencode_Ok. by apply parse_qsl_quoted_query. Qed.

(** The second law.  [query_of] is what [split] does once the scheme and
    the host are taken off; both are taken off before any [?] or [#]. *)
Definition not_qh (c : ascii) : bool := negb (mem_char c "?#").

Definition clean (url : string) : string :=
  remove_chars unsafe_url_byte (lstrip c0_control_or_space url).

Definition query_of (s : string) : string :=
  or_empty (snd (split_once "?" (fst (split_once "#" s)))).

Lemma not_qh_is_not c : not_qh c = true -> is_not "?" c = true ∧ is_not "#" c = true.
Proof. each_ascii c. all: by intros _. Qed.

Lemma not_qh_no (sep : ascii) s :
  sep = "?"%char ∨ sep = "#"%char ->
  all_chars not_qh s = true -> all_chars (is_not sep) s = true.
Proof.
  intros Hsep. apply all_chars_impl. intros c Hc.
  apply not_qh_is_not in Hc as [? ?]. by destruct Hsep as [-> | ->].
Qed.

Lemma break_at_shape p s :
  s = fst (break_at p s) +:+ snd (break_at p s)
  ∧ all_chars (fun c => negb (p c)) (fst (break_at p s)) = true.
Proof.
  induction s as [|c s [IH1 IH2]]; simpl; [done|].
  destruct (p c) eqn:Hc; [done|].
  destruct (break_at p s) as [b r]. simpl in *. rewrite Hc, IH2.
  split; [by f_equal|done].
Qed.

Lemma query_of_prefix p s :
  all_chars not_qh p = true -> query_of (p +:+ s) = query_of s.
Proof.
  intros Hp. unfold query_of.
  rewrite (split_once_prefix "#") by (apply not_qh_no; auto). cbn [fst].
  rewrite (split_once_prefix "?") by (apply not_qh_no; auto). done.
Qed.

Lemma scheme_char_lower c : scheme_char c = true -> not_qh (lower_char c) = true.
Proof. each_ascii c. all: by intros _. Qed.

Lemma scheme_char_not_qh c : scheme_char c = true -> not_qh c = true.
Proof. each_ascii c. all: by intros _. Qed.

Lemma lower_not_qh s : all_chars scheme_char s = true -> all_chars not_qh (lower s) = true.
Proof.
  unfold lower. induction s as [|c s IH]; simpl; [done|].
  intros [Hc Hs]%andb_true_iff. by rewrite scheme_char_lower, IH.
Qed.

Lemma split_scheme_shape url :
  exists p, url = p +:+ snd (split_scheme url)
            ∧ all_chars not_qh p = true
            ∧ all_chars not_qh (fst (split_scheme url)) = true.
Proof.
  unfold split_scheme.
  destruct (split_once ":" url) as [[|c0 before] [after|]] eqn:Hsplit;
    try (by exists ""). 
  destruct (is_alpha c0 && all_chars scheme_char (String c0 before)) eqn:Hok;
    [|by exists ""].
  apply andb_true_iff in Hok as [_ Hchars].
  exists (String c0 before +:+ ":"). cbn [fst snd]. split; [|split].
  - rewrite app_assoc_str. by apply split_once_Some.
  - rewrite all_chars_app, (all_chars_impl scheme_char not_qh); try done.
    apply scheme_char_not_qh.
  - by apply lower_not_qh.
Qed.

Lemma slash_qh_not_qh c : negb (mem_char c "/?#") = true -> not_qh c = true.
Proof. each_ascii c. all: by intros _. Qed.

Lemma split_netloc_shape url :
  exists p, url = p +:+ snd (split_netloc url)
            ∧ all_chars not_qh p = true
            ∧ all_chars not_qh (fst (split_netloc url)) = true.
Proof.
  unfold split_netloc.
  destruct url as [|c1 url]; [by exists ""|].
  destruct (Ascii.eqb_spec c1 "/") as [->|Hne1].
  2:{ exists "". by each_ascii c1. }
  destruct url as [|c2 rest]; [by exists ""|].
  destruct (Ascii.eqb_spec c2 "/") as [->|Hne2].
  2:{ exists "". by each_ascii c2. }
  destruct (break_at_shape (fun c => mem_char c "/?#") rest) as [Heq Hfree].
  assert (all_chars not_qh (fst (break_at (fun c => mem_char c "/?#") rest)) = true) as Hnet.
  { eapply all_chars_impl; [|exact Hfree]. apply slash_qh_not_qh. }
  exists ("//" +:+ fst (break_at (fun c => mem_char c "/?#") rest)).
  split; [|split; [|exact Hnet]].
  - rewrite app_assoc_str, !app_cons_str. do 2 f_equal. exact Heq.
  - by rewrite all_chars_app, Hnet.
Qed.

Lemma split_query url : query (split url) = query_of (clean url).
Proof.
  unfold split. fold (clean url).
  destruct (split_scheme_shape (clean url)) as (p1 & H1 & Hp1 & _).
  destruct (split_scheme (clean url)) as [sch url2]. cbn [snd] in H1.
  destruct (split_netloc_shape url2) as (p2 & H2 & Hp2 & _).
  destruct (split_netloc url2) as [net url3]. cbn [snd] in H2.
  rewrite H1, H2, !query_of_prefix by done.
  unfold query_of.
  destruct (split_once "#" url3) as [u frag]. cbn [fst].
  by destruct (split_once "?" u) as [pa qu].
Qed.

Lemma split_parts url :
  all_chars not_qh (scheme (split url)) = true
  ∧ all_chars not_qh (netloc (split url)) = true
  ∧ all_chars not_qh (path (split url)) = true.
Proof.
  unfold split. fold (clean url).
  destruct (split_scheme_shape (clean url)) as (p1 & _ & _ & Hs).
  destruct (split_scheme (clean url)) as [sch url2]. cbn [fst] in Hs.
  destruct (split_netloc_shape url2) as (p2 & _ & _ & Hn).
  destruct (split_netloc url2) as [net url3]. cbn [fst] in Hn.
  pose proof (split_once_fst_free "#" url3) as Hu.
  destruct (split_once "#" url3) as [u frag]. cbn [fst] in Hu.
  pose proof (split_once_fst_free "?" u) as Hp.
  pose proof (split_once_fst_all (is_not "#") "?" u Hu) as Hp'.
  destruct (split_once "?" u) as [pa qu]. cbn [fst] in Hp, Hp'. simpl.
  split; [done|]. split; [done|].
  clear -Hp Hp'. induction pa as [|c pa IH]; simpl in *; [done|].
  apply andb_true_iff in Hp as [Hc Hp]. apply andb_true_iff in Hp' as [Hc' Hp'].
  rewrite IH by done. rewrite andb_true_r.
  revert Hc Hc'. clear. each_ascii c.
Qed.

Lemma lstrip_app_stop p s c rest :
  p c = false -> lstrip p (s +:+ String c rest) = lstrip p s +:+ String c rest.
Proof.
  intros Hc. induction s as [|d s IH]; simpl; [by rewrite Hc|].
  by destruct (p d).
Qed.

Lemma lstrip_all q p s : all_chars q s = true -> all_chars q (lstrip p s) = true.
Proof.
  induction s as [|c s IH]; simpl; [done|].
  intros Hcs. destruct (p c); [|done].
  apply andb_true_iff in Hcs as [_ Hs]. by apply IH.
Qed.

Lemma remove_chars_app p s1 s2 :
  remove_chars p (s1 +:+ s2) = remove_chars p s1 +:+ remove_chars p s2.
Proof.
  induction s1 as [|c s1 IH]; simpl; [done|]. rewrite IH. by destruct (p c).
Qed.

Lemma remove_chars_all q p s :
  all_chars q s = true -> all_chars q (remove_chars p s) = true.
Proof.
  induction s as [|c s IH]; simpl; [done|].
  intros [Hc Hs]%andb_true_iff. destruct (p c); simpl; [by apply IH|].
  by rewrite Hc, IH.
Qed.

Lemma remove_chars_id p s :
  all_chars (fun c => negb (p c)) s = true -> remove_chars p s = s.
Proof.
  induction s as [|c s IH]; simpl; [done|].
  intros [Hc Hs]%andb_true_iff. apply negb_true_iff in Hc. by rewrite Hc, IH.
Qed.

(** A cleaned URL keeps its first [?] or [#] and what stands before it stays
    free of both. *)
Lemma clean_app_stop prefix c rest :
  all_chars not_qh prefix = true ->
  c0_control_or_space c = false -> unsafe_url_byte c = false ->
  exists prefix',
    all_chars not_qh prefix' = true
    ∧ clean (prefix +:+ String c rest)
      = prefix' +:+ String c (remove_chars unsafe_url_byte rest).
Proof.
  intros Hprefix Hc0 Hunsafe. unfold clean.
  rewrite lstrip_app_stop by done. rewrite remove_chars_app. simpl.
  rewrite Hunsafe. eexists. split; [|reflexivity].
  by apply remove_chars_all, lstrip_all.
Qed.

Lemma clean_all prefix : all_chars not_qh prefix = true -> all_chars not_qh (clean prefix) = true.
Proof. intros Hprefix. by apply remove_chars_all, lstrip_all. Qed.

Lemma query_char_plain c :
  query_char c = true -> is_not "#" c = true ∧ unsafe_url_byte c = false.
Proof. each_ascii c. all: by intros _. Qed.

Lemma query_of_free s : all_chars not_qh s = true -> query_of s = "".
Proof.
  intros Hs. unfold query_of.
  rewrite (split_once_free "#") by (apply not_qh_no; auto). cbn [fst].
  by rewrite (split_once_free "?") by (apply not_qh_no; auto).
Qed.

Lemma query_of_marked q tail :
  all_chars (is_not "#") q = true ->
  tail = "" ∨ (exists frag, tail = String "#" frag) ->
  query_of (String "?" (q +:+ tail)) = q.
Proof.
  intros Hq Htail. unfold query_of.
  destruct Htail as [->|[frag ->]].
  - rewrite app_empty_r.
    rewrite (split_once_free "#") by (simpl; by rewrite Hq). by cbn.
  - rewrite <- app_cons_str.
    rewrite (split_once_app "#") by (simpl; by rewrite Hq). by cbn.
Qed.

(** The text that [urlunsplit] puts before the query. *)
Definition unsplit_prefix (p : SplitResult) : string :=
  let url := path p in
  let url :=
    if negb (String.eqb (netloc p) "")
       || (negb (String.eqb (scheme p) "")
           && bool_decide (scheme p ∈ uses_netloc)
           && negb (String.prefix "//" url))
    then
      let url :=
        if negb (String.eqb url "") && negb (String.prefix "/" url)
        then "/" +:+ url else url in
      "//" +:+ netloc p +:+ url
    else url in
  if String.eqb (scheme p) "" then url else scheme p +:+ ":" +:+ url.

Lemma urlunsplit_shape p :
  urlunsplit p
  = (let url := unsplit_prefix p in
     let url := if String.eqb (query p) "" then url else url +:+ "?" +:+ query p in
     if String.eqb (fragment p) "" then url else url +:+ "#" +:+ fragment p).
Proof. reflexivity. Qed.

Lemma unsplit_prefix_free p :
  all_chars not_qh (scheme p) = true -> all_chars not_qh (netloc p) = true ->
  all_chars not_qh (path p) = true ->
  all_chars not_qh (unsplit_prefix p) = true.
Proof.
  intros Hs Hn Hp. unfold unsplit_prefix.
  repeat match goal with
         | |- context [if ?b then _ else _] => destruct b
         end;
    rewrite ?all_chars_app, ?Hs, ?Hn, ?Hp; try done;
    cbn [all_chars]; rewrite ?all_chars_app, ?Hs, ?Hn, ?Hp; done.
Qed.

Lemma split_urlunsplit_query url items :
  query (split (urlunsplit (with_query (split url) (quoted_query items))))
  = quoted_query items.
Proof.
  destruct (split_parts url) as (Hs & Hn & Hp).
  set (parts := with_query (split url) (quoted_query items)).
  pose proof (unsplit_prefix_free parts Hs Hn Hp) as Hprefix.
  rewrite split_query, urlunsplit_shape. cbn zeta.
  change (query parts) with (quoted_query items).
  set (q := quoted_query items) in *. set (prefix := unsplit_prefix parts) in *.
  assert (Hq : all_chars (is_not "#") q = true ∧ remove_chars unsafe_url_byte q = q).
  { pose proof (urlencode_query_chars items) as Hchars. fold q in Hchars. split.
    - eapply all_chars_impl; [|exact Hchars]. intros c Hc.
      by apply query_char_plain in Hc as [? _].
    - apply remove_chars_id. eapply all_chars_impl; [|exact Hchars].
      intros c Hc. apply query_char_plain in Hc as [_ ->]. done. }
  destruct Hq as [Hq1 Hq2].
  destruct (String.eqb_spec q "") as [Hqe|Hqne];
    destruct (String.eqb_spec (fragment parts) "") as [Hfe|Hfne].
  - rewrite Hqe. by apply query_of_free, clean_all.
  - rewrite Hqe. change ("#" +:+ fragment parts) with (String "#" (fragment parts)).
    destruct (clean_app_stop prefix "#" (fragment parts)) as (prefix' & Hfree & ->);
      try done.
    rewrite query_of_prefix by done. reflexivity.
  - change ("?" +:+ q) with (String "?" q).
    destruct (clean_app_stop prefix "?" q) as (prefix' & Hfree & ->); try done.
    rewrite query_of_prefix, Hq2 by done.
    rewrite <- (app_empty_r q) at 1. apply query_of_marked; auto.
  - rewrite app_assoc_str.
    change ("?" +:+ q) with (String "?" q). rewrite app_cons_str.
    destruct (clean_app_stop prefix "?" (q +:+ "#" +:+ fragment parts))
      as (prefix' & Hfree & ->); try done.
    rewrite query_of_prefix, remove_chars_app, Hq2 by done.
    apply query_of_marked; [done|]. right. eexists. reflexivity.
Qed.

Lemma urlsplit_Ok url parts : urlsplit url = Ok parts -> parts = split url.
Proof.
  unfold urlsplit. destruct (refused_netloc (netloc (split url))); [done|].
  by intros [= <-].
Qed.

Lemma urlsplit_urlunsplit_query url parts items q parts' :
  urlsplit url = Ok parts ->
  urlencode items = Ok q ->
  urlsplit (urlunsplit (with_query parts q)) = Ok parts' ->
  query parts' = q.
Proof.
  intros ->%urlsplit_Ok [-> _]%urlencode_Ok ->%urlsplit_Ok.
  apply split_urlunsplit_query.
Qed.

#[export] Instance reference : UrlLib := {|
  Urllib.urlsplit := urlsplit;
  Urllib.urlunsplit := urlunsplit;
  Urllib.parse_qsl := parse_qsl;
  Urllib.urlencode := urlencode;
  Urllib.unquote := unquote
|}.

#[export] Instance reference_laws : UrlLibLaws reference := {|
  Urllib.parse_qsl_urlencode := parse_qsl_urlencode;
  Urllib.urlsplit_urlunsplit_query := urlsplit_urlunsplit_query
|}.

End UrllibRef.

(** ** get_images_raw.py *)

Module ImagesRaw.

Definition feature_id_from_url `{UrlLib} (url : string) : result string :=
  match urlsplit url with
  | Raise e => Raise e
  | Ok parsed =>
      let path := path parsed in
      let marker := "/thumbnail/" in
      let feature_id :=
        match Py.partition marker path with
        | Some (_, tail) => tail
        | None => after_last "/" path
        end in
      Ok (unquote feature_id)
  end.

Definition safe_filename (name : string) : string :=
  let forbidden := "<>:" +:+ String (ascii_of_nat 34) "/\|?*" in
  let cleaned :=
    map_chars (fun ch => if mem_char ch forbidden then "_"%char else ch) name in
  let cleaned := rstrip (fun c => Ascii.eqb c ".") (strip cleaned) in
  if String.eqb cleaned "" then "image" else cleaned.

Definition extension_from_content_type (content_type : option string) : string :=
  match content_type with
  | None => ".bin"
  | Some ct =>
      if String.eqb ct "" then ".bin"
      else if contains "png" ct then ".png"
      else if contains "jpeg" ct || contains "jpg" ct then ".jpg"
      else if contains "webp" ct then ".webp"
      else ".bin"
  end.

(** What [session.get] hands back with [stream=True]: the status and the
    headers of a response, whose body comes when it is read.  [text] is what
    [resp.text] gives: the whole body as text, or the exception that breaks
    the reading of it.  [received] is what [iter_content] yields, chunk
    after chunk, before it ends; [broken] is the exception with which it
    ends when the stream breaks before the end of the body. *)
Record response := mkResponse {
  status_code : Z;
  content_type : option string;
  text : result string;
  received : string;
  broken : option py_exception
}.

(** The server, seen from the script: the outcome of a request (a response,
    or an exception of the transport: time-out, refused connection) may
    depend on the requests made before it. *)
Definition network := list string -> string -> result response.

(** The part of the world the download loop acts on. *)
Record world := mkWorld {
  requested : list string;          (* URLs passed to session.get, in order *)
  stdout : list string;
  stderr : list string;
  files : list (string * string)    (* (path, content) written, in order *)
}.

(** The file system, seen from the script, in the world as it is: the
    exception that [output_dir.mkdir(parents=True, exist_ok=True)] raises and
    the one that [out_path.open("wb")] raises, when they raise (no file is
    made then); and, when the writing of the chunks breaks, what the file
    is left with and the exception. *)
Record filesystem := mkFs {
  mkdir : world -> string -> option py_exception;
  open_wb : world -> string -> option py_exception;
  write : world -> string -> string -> option (string * py_exception)
}.

Definition empty_world : world := mkWorld [] [] [] [].

Definition print (line : string) (w : world) : world :=
  mkWorld (requested w) (stdout w ++ [line]) (stderr w) (files w).

Definition eprint (line : string) (w : world) : world :=
  mkWorld (requested w) (stdout w) (stderr w ++ [line]) (files w).

Definition session_get (net : network) (url : string) (w : world)
  : world * result response :=
  (mkWorld (requested w ++ [url]) (stdout w) (stderr w) (files w),
   net (requested w) url).

Definition write_file (path content : string) (w : world) : world :=
  mkWorld (requested w) (stdout w) (stderr w) (files w ++ [(path, content)]).

(** [resp.raise_for_status()] raises for the statuses 400..599. *)
Definition is_http_error (status : Z) : bool := (400 <=? status) && (status <? 600).

Definition download_image `{UrlLib} (net : network) (fs : filesystem)
    (url output_dir : string) (w : world) : world * result (string * Z) :=
  match session_get net url w with
  | (w, Raise e) => (w, Raise e)
  | (w, Ok resp) =>
      if is_http_error (status_code resp) then
        match text resp with
        | Raise e => (w, Raise e)
        | Ok text =>
            let body_preview := take_chars 500 text in
            (w, Raise (PyExc RuntimeError
                         ("HTTP " +:+ pretty (status_code resp) +:+ " for " +:+ url
                          +:+ ": " +:+ body_preview)))
        end
      else
        match feature_id_from_url url with
        | Raise e => (w, Raise e)
        | Ok feature_id =>
            let ext := extension_from_content_type (content_type resp) in
            let filename := safe_filename feature_id +:+ ext in
            match mkdir fs w output_dir with
            | Some e => (w, Raise e)
            | None =>
                let out_path := output_dir +:+ "/" +:+ filename in
                match open_wb fs w out_path with
                | Some e => (w, Raise e)
                | None =>
                    match write fs w out_path (received resp) with
                    | Some (kept, e) => (write_file out_path kept w, Raise e)
                    | None =>
                        let w := write_file out_path (received resp) w in
                        match broken resp with
                        | Some e => (w, Raise e)
                        | None => (w, Ok (out_path, status_code resp))
                        end
                    end
                end
            end
        end
  end.

(** The generator: [seen] is its local set. *)
Fixpoint iterate_urls_from (seen : gset string) (urls : list string) : list string :=
  match urls with
  | [] => []
  | url :: rest =>
      if decide (url ∈ seen) then iterate_urls_from seen rest
      else url :: iterate_urls_from ({[url]} ∪ seen) rest
  end.

Definition iterate_urls (urls : list string) : list string :=
  iterate_urls_from ∅ urls.

(** The loop of [main]: its local variables are [successes] and [failures]. *)
Record loop_state := mkLoop {
  successes : nat;
  failures : list string;
  the_world : world
}.

Definition loop_body `{UrlLib} (net : network) (fs : filesystem) (output_dir : string)
    (st : loop_state) (idx : nat) (url : string) : loop_state :=
  match download_image net fs url output_dir (the_world st) with
  | (w, Ok (out_path, status)) =>
      mkLoop (S (successes st)) (failures st)
        (print ("[" +:+ pretty idx +:+ "] HTTP " +:+ pretty status +:+ " -> "
                +:+ out_path) w)
  | (w, Raise exc) =>
      mkLoop (successes st) (failures st ++ [url])
        (eprint ("[" +:+ pretty idx +:+ "] Failed: " +:+ url +:+ nl
                 +:+ "  Reason: " +:+ exc_str exc) w)
  end.

Fixpoint download_loop `{UrlLib} (net : network) (fs : filesystem)
    (output_dir : string) (st : loop_state) (idx : nat) (urls : list string)
  : loop_state :=
  match urls with
  | [] => st
  | url :: rest =>
      download_loop net fs output_dir (loop_body net fs output_dir st idx url)
        (S idx) rest
  end.

(** [main] from the point where [load_urls] has returned [urls]. *)
Definition main `{UrlLib} (net : network) (fs : filesystem) (urls : list string)
    (limit : option Z) (output_dir : string) : loop_state :=
  let urls := match limit with Some n => slice_to urls n | None => urls end in
  let st :=
    download_loop net fs output_dir (mkLoop 0 [] empty_world) 1 (iterate_urls urls) in
  let w :=
    print (nl +:+ "Done. Success: " +:+ pretty (successes st) +:+ " | Failed: "
           +:+ pretty (length (failures st)) +:+ " | Output dir: " +:+ output_dir)
      (the_world st) in
  let w :=
    match failures st with
    | [] => w
    | _ =>
        fold_left (fun w url => eprint ("  " +:+ url) w) (failures st)
          (eprint "Failed URLs (not downloaded):" w)
    end in
  mkLoop (successes st) (failures st) w.

(** *** Properties of the generator and of the download loop *)

Lemma iterate_urls_from_app (seen : gset string) (l1 l2 : list string) :
  iterate_urls_from seen (l1 ++ l2)
  = iterate_urls_from seen l1 ++ iterate_urls_from (list_to_set l1 ∪ seen) l2.
Proof.
  revert seen. induction l1 as [|u l1 IH]; intros seen; simpl.
  - f_equal. set_solver.
  - destruct (decide (u ∈ seen)) as [Hin|Hout].
    + rewrite IH. do 2 f_equal. set_solver.
    + simpl. rewrite IH. do 3 f_equal. set_solver.
Qed.

Lemma iterate_urls_from_elem (seen : gset string) (urls : list string) (u : string) :
  u ∈ iterate_urls_from seen urls ↔ u ∈ urls ∧ u ∉ seen.
Proof.
  revert seen. induction urls as [|v urls IH]; intros seen; simpl.
  - set_solver.
  - destruct (decide (v ∈ seen)) as [Hin|Hout].
    + rewrite IH. set_solver.
    + rewrite elem_of_cons, IH. destruct (decide (u = v)); set_solver.
Qed.

Lemma iterate_urls_from_NoDup (seen : gset string) (urls : list string) :
  NoDup (iterate_urls_from seen urls).
Proof.
  revert seen. induction urls as [|v urls IH]; intros seen; simpl.
  - constructor.
  - destruct (decide (v ∈ seen)); [apply IH|].
    constructor; [|apply IH].
    rewrite iterate_urls_from_elem. set_solver.
Qed.

(** [download_image] makes one request, for its URL, whatever comes of it. *)
Lemma download_image_requested `{UrlLib} net fs url out w :
  requested (fst (download_image net fs url out w)) = requested w ++ [url].
Proof.
  unfold download_image, session_get.
  repeat match goal with
         | |- context [match ?x with _ => _ end] => destruct x
         end; reflexivity.
Qed.

(** Each pass of the loop makes exactly one request, for its own URL. *)
Lemma loop_body_requested `{UrlLib} net fs out st idx url :
  requested (the_world (loop_body net fs out st idx url))
  = requested (the_world st) ++ [url].
Proof.
  unfold loop_body.
  pose proof (download_image_requested net fs url out (the_world st)) as Hreq.
  destruct (download_image net fs url out (the_world st)) as [w [[path status]|e]];
    exact Hreq.
Qed.

Lemma download_loop_requested `{UrlLib} net fs out st idx urls :
  requested (the_world (download_loop net fs out st idx urls))
  = requested (the_world st) ++ urls.
Proof.
  revert st idx. induction urls as [|u urls IH]; intros st idx; simpl.
  - by rewrite app_nil_r.
  - rewrite IH, loop_body_requested. by rewrite <- app_assoc.
Qed.

Lemma fold_eprint_requested (lines : list string) (w : world) :
  requested (fold_left (fun w url => eprint ("  " +:+ url) w) lines w) = requested w.
Proof. revert w. induction lines as [|l lines IH]; intros w; simpl; [done|]. by rewrite IH. Qed.

Lemma main_requested `{UrlLib} net fs urls limit out :
  requested (the_world (main net fs urls limit out))
  = iterate_urls (match limit with Some n => slice_to urls n | None => urls end).
Proof.
  unfold main. simpl.
  set (st := download_loop _ _ _ _ _ _).
  assert (requested (the_world st) = iterate_urls
            (match limit with Some n => slice_to urls n | None => urls end)) as Hst
    by (unfold st; by rewrite download_loop_requested).
  destruct (failures st); simpl; [done|].
  by rewrite fold_eprint_requested.
Qed.

(** C9: [iterate_urls] yields every URL of the list, none twice, and each at
    its first occurrence (when [u] first occurs after [l1], it is yielded
    right after the URLs that [l1] alone yields); hence the URLs that [main]
    requests are pairwise distinct. *)
Theorem iterate_urls_first_occurrence `{UrlLib} (urls : list string) :
  NoDup (iterate_urls urls)
  ∧ (∀ u, u ∈ iterate_urls urls ↔ u ∈ urls)
  ∧ (∀ l1 u l2, urls = l1 ++ u :: l2 → u ∉ l1 →
       ∃ rest, iterate_urls urls = iterate_urls l1 ++ u :: rest)
  ∧ (∀ net fs limit out, NoDup (requested (the_world (main net fs urls limit out)))).
Proof.
  split; [apply iterate_urls_from_NoDup|].
  split; [intros u; unfold iterate_urls; rewrite iterate_urls_from_elem; set_solver|].
  split.
  - intros l1 u l2 -> Hu. unfold iterate_urls.
    rewrite iterate_urls_from_app. simpl.
    destruct (decide (u ∈ list_to_set l1 ∪ (∅ : gset string))) as [Hin|Hout].
    + exfalso. apply Hu. set_solver.
    + eauto.
  - intros net fs limit out. rewrite main_requested. apply iterate_urls_from_NoDup.
Qed.

(** How many times [url] was passed to [session.get]. *)
Definition attempts (st : loop_state) (url : string) : nat :=
  length (filter (fun u => u = url) (requested (the_world st))).

(** What one pass of the loop does to its two counters: a download that
    returns is one more success, a download that raises puts its URL at the
    end of the failures. *)
Lemma loop_body_counters `{UrlLib} net fs out st idx url :
  match snd (download_image net fs url out (the_world st)) with
  | Ok _ =>
      successes (loop_body net fs out st idx url) = S (successes st)
      ∧ failures (loop_body net fs out st idx url) = failures st
  | Raise _ =>
      successes (loop_body net fs out st idx url) = successes st
      ∧ failures (loop_body net fs out st idx url) = failures st ++ [url]
  end.
Proof.
  unfold loop_body.
  by destruct (download_image net fs url out (the_world st)) as [w [[path status]|e]].
Qed.

Lemma loop_body_accounted `{UrlLib} net fs out st idx url :
  (successes (loop_body net fs out st idx url)
   + length (failures (loop_body net fs out st idx url)))%nat
  = S (successes st + length (failures st)).
Proof.
  pose proof (loop_body_counters net fs out st idx url) as Hcount.
  destruct (snd (download_image net fs url out (the_world st)));
    destruct Hcount as [-> ->]; [done|].
  rewrite length_app. simpl. lia.
Qed.

(** The failures of the loop: those it started with, then some of its URLs,
    in their order. *)
Lemma download_loop_failures `{UrlLib} net fs out st idx urls :
  exists new,
    failures (download_loop net fs out st idx urls) = failures st ++ new
    ∧ new `sublist_of` urls.
Proof.
  revert st idx. induction urls as [|url urls IH]; intros st idx; cbn [download_loop].
  - exists []. by rewrite app_nil_r.
  - destruct (IH (loop_body net fs out st idx url) (S idx)) as (new & -> & Hnew).
    pose proof (loop_body_counters net fs out st idx url) as Hcount.
    destruct (snd (download_image net fs url out (the_world st)));
      destruct Hcount as [_ ->].
    + exists new. split; [done|]. by apply sublist_cons.
    + exists (url :: new). split; [by rewrite <- app_assoc|]. by apply sublist_skip.
Qed.

Lemma download_loop_accounted `{UrlLib} net fs out st idx urls :
  (successes (download_loop net fs out st idx urls)
   + length (failures (download_loop net fs out st idx urls)))%nat
  = (successes st + length (failures st) + length urls)%nat.
Proof.
  revert st idx. induction urls as [|url urls IH]; intros st idx; simpl; [lia|].
  rewrite IH, loop_body_accounted. lia.
Qed.

Lemma download_loop_app `{UrlLib} net fs out st idx l1 l2 :
  download_loop net fs out st idx (l1 ++ l2)
  = download_loop net fs out (download_loop net fs out st idx l1)
      (idx + length l1) l2.
Proof.
  revert st idx. induction l1 as [|url l1 IH]; intros st idx; cbn [app download_loop length].
  - by rewrite Nat.add_0_r.
  - rewrite IH. f_equal. lia.
Qed.

Lemma filter_eq_absent (l : list string) (u : string) :
  u ∉ l -> filter (fun v => v = u) l = [].
Proof.
  induction l as [|v l IH]; [done|].
  intros Hu. rewrite filter_cons. destruct (decide (v = u)) as [->|]; [set_solver|].
  apply IH. set_solver.
Qed.

Lemma NoDup_filter_eq (l : list string) (u : string) :
  NoDup l -> u ∈ l -> length (filter (fun v => v = u) l) = 1%nat.
Proof.
  induction 1 as [|v l Hv Hl IH]; [by intros ?%elem_of_nil|].
  rewrite filter_cons. intros [Heq|Hu]%elem_of_cons.
  - subst v. destruct (decide (u = u)); [|done]. simpl.
    by rewrite filter_eq_absent.
  - destruct (decide (v = u)) as [->|]; [done|]. by apply IH.
Qed.

(** The URL that the loop is at decides alone whether it ends among the
    failures: it does when its download raises, and only then. *)
Lemma download_loop_records `{UrlLib} net fs out st idx before url after :
  NoDup (before ++ url :: after) ->
  failures st = [] ->
  let st0 := download_loop net fs out st idx before in
  url ∈ failures (download_loop net fs out st idx (before ++ url :: after))
  <-> exists exc, snd (download_image net fs url out (the_world st0)) = Raise exc.
Proof.
  intros Hnodup Hnone. cbn zeta.
  rewrite download_loop_app. cbn [download_loop].
  set (st0 := download_loop net fs out st idx before).
  destruct (download_loop_failures net fs out st idx before) as (new0 & Hfail0 & Hsub0).
  fold st0 in Hfail0. rewrite Hnone in Hfail0. cbn [app] in Hfail0.
  destruct (download_loop_failures net fs out
              (loop_body net fs out st0 (idx + length before) url)
              (S (idx + length before)) after) as (new & -> & Hsub).
  apply NoDup_app in Hnodup as (_ & Hbefore & [Hafter _]%NoDup_cons).
  assert (url ∉ new0) as Hnew0.
  { intros Hin. apply (Hbefore url); [|left]. by eapply elem_of_sublist. }
  assert (url ∉ new) as Hnew.
  { intros Hin. apply Hafter. by eapply elem_of_sublist. }
  pose proof (loop_body_counters net fs out st0 (idx + length before) url) as Hcount.
  destruct (snd (download_image net fs url out (the_world st0))) as [[path status]|exc];
    destruct Hcount as [_ ->]; rewrite Hfail0.
  - split; [|by intros [? ?]]. intros [?|?]%elem_of_app; done.
  - split; [by eexists|]. intros _. apply elem_of_app. left.
    apply elem_of_app. right. by apply list_elem_of_singleton.
Qed.

(** The claim of C4, for one run of the script: every URL recorded as failed
    was requested at least twice. *)
Definition retries_failed_downloads (st : loop_state) : Prop :=
  forall url, url ∈ failures st -> (2 <= attempts st url)%nat.

(** A server that refuses every connection, and a file system that refuses
    nothing. *)
Definition unreachable : network :=
  fun _ _ => Raise (PyExc ConnectionError "connection refused").

Definition willing : filesystem :=
  mkFs (fun _ _ => None) (fun _ _ => None) (fun _ _ _ => None).



End ImagesRaw.

(** ** convert_bins_to_png.py *)

Module ConvertBins.

(** [Path(name).name] for a POSIX path: the last component of [name], the
    empty components and the [.] components left out; empty when there is
    none. *)
Definition is_part (x : string) : bool :=
  negb (String.eqb x "") && negb (String.eqb x ".").

Definition path_name (name : string) : string :=
  default "" (last (List.filter is_part (split_on "/" name))).

(** [output_dir / filename]: an absolute [filename] replaces the directory. *)
Definition is_absolute (filename : string) : bool :=
  match filename with
  | String c _ => Ascii.eqb c "/"
  | "" => false
  end.

Definition path_join (output_dir filename : string) : string :=
  if is_absolute filename then filename
  else output_dir +:+ "/" +:+ filename.

Definition has_comma_item (items : list pyval) : bool :=
  existsb (fun v => match v with PStr s => String.eqb s "," | _ => false end) items.

Definition has_comma_key (entries : list (string * pyval)) : bool :=
  existsb (fun kv => String.eqb (fst kv) ",") entries.

Section Script.
(** [base64.b64decode], of the standard library: the bytes, or the
    exception it raises. *)
Variable b64decode : string -> result string.

Definition decode_entry (entry : list (string * pyval)) : result (string * string) :=
  let name := dict_get entry "name" in
  let name := if truthy name then name else PStr "image.png" in
  match name with
  | PStr name =>
      let name := path_name name in
      let name :=
        if negb (endswith ".png" (lower name)) then name +:+ ".png" else name in
      let data_field := dict_get entry "data" in
      let data_field := if truthy data_field then data_field else PStr "" in
      let failed exc :=
        Raise (PyExc ValueError
                 ("Failed to decode base64 for " +:+ name +:+ ": " +:+ exc)) in
      match data_field with
      | PStr data =>
          let b64_data :=
            match Py.partition "," data with
            | Some (_, after) => after
            | None => data
            end in
          match b64decode b64_data with
          | Ok decoded => Ok (name, decoded)
          | Raise exc => failed (exc_str exc)
          end
      | PList items =>
          if has_comma_item items
          then Raise (PyExc AttributeError "'list' object has no attribute 'partition'")
          else failed "argument should be a bytes-like object or ASCII string"
      | PDict entries =>
          if has_comma_key entries
          then Raise (PyExc AttributeError "'dict' object has no attribute 'partition'")
          else failed "argument should be a bytes-like object or ASCII string"
      | _ => Raise (PyExc TypeError "argument is not iterable")
      end
  | _ => Raise (PyExc TypeError "expected str, bytes or os.PathLike object")
  end.

(** What [convert_file] acts on: the console and the files it writes. *)
Record world := mkWorld {
  stdout : list string;
  files : list (string * string)    (* (path, content) written, in order *)
}.

(** The file system, seen from the script, in the world as it is: the
    exception that [output_dir.mkdir(parents=True, exist_ok=True)] raises,
    when it raises; and, when [out_path.write_bytes(decoded)] raises, what
    the file is left with (nothing, when no file is made) and the
    exception. *)
Record filesystem := mkFs {
  mkdir : world -> string -> option py_exception;
  write_bytes : world -> string -> string -> option (option string * py_exception)
}.

Variable fs : filesystem.

(** The loop of [convert_file].  The [try] is around [decode_entry] alone:
    what [mkdir] and [write_bytes] raise goes out of [convert_file], a
    [ValueError] like the others. *)
Fixpoint convert_entries (content : list pyval) (output_dir : string)
    (output_paths : list string) (w : world) : world * result (list string) :=
  match content with
  | [] => (w, Ok output_paths)
  | entry :: content =>
      match entry with
      | PDict entry =>
          match decode_entry entry with
          | Ok (filename, decoded) =>
              match mkdir fs w output_dir with
              | Some exc => (w, Raise exc)
              | None =>
                  let out_path := path_join output_dir filename in
                  match write_bytes fs w out_path decoded with
                  | Some (Some kept, exc) =>
                      (mkWorld (stdout w) (files w ++ [(out_path, kept)]), Raise exc)
                  | Some (None, exc) => (w, Raise exc)
                  | None =>
                      convert_entries content output_dir (output_paths ++ [out_path])
                        (mkWorld (stdout w) (files w ++ [(out_path, decoded)]))
                  end
              end
          | Raise exc =>
              if decide (exc_type exc = ValueError) then
                convert_entries content output_dir output_paths
                  (mkWorld (stdout w ++ [exc_str exc]) (files w))
              else (w, Raise exc)
          end
      | _ => convert_entries content output_dir output_paths w
      end
  end.

(** [convert_file], from the point where [json.loads] has returned
    [content]. *)
Definition convert_file (bin_path : string) (content : pyval)
    (output_dir : string) (w : world) : world * result (list string) :=
  match content with
  | PList content => convert_entries content output_dir [] w
  | _ => (w, Raise (PyExc ValueError (bin_path +:+ " does not contain a JSON array")))
  end.

End Script.

(** *** A reference [b64decode]

    After CPython's [binascii.a2b_base64] as [base64.b64decode] calls it (no
    validation): characters outside of the alphabet are skipped, a full pad
    ends the data, and an incomplete last group is an error. *)

Definition b64_value (c : ascii) : option N :=
  let n := N_of_ascii c in
  if ((65 <=? n) && (n <=? 90))%N then Some (n - 65)%N
  else if ((97 <=? n) && (n <=? 122))%N then Some (n - 71)%N
  else if ((48 <=? n) && (n <=? 57))%N then Some (n + 4)%N
  else if Ascii.eqb c "+" then Some 62%N
  else if Ascii.eqb c "/" then Some 63%N
  else None.

Fixpoint a2b_base64 (s : string) (quad_pos : nat) (leftchar : N) (pads : nat)
  : result string :=
  match s with
  | "" =>
      if Nat.eqb quad_pos 0 then Ok ""
      else if Nat.eqb quad_pos 1
      then Raise (PyExc ValueError "Invalid base64-encoded string")
      else Raise (PyExc ValueError "Incorrect padding")
  | String c s' =>
      if Ascii.eqb c "=" then
        if Nat.leb 2 quad_pos then
          if Nat.leb 4 (quad_pos + S pads) then Ok ""
          else a2b_base64 s' quad_pos leftchar (S pads)
        else a2b_base64 s' quad_pos leftchar pads
      else
        match b64_value c with
        | None => a2b_base64 s' quad_pos leftchar pads
        | Some v =>
            let emit (byte : N) (rest : result string) :=
              match rest with
              | Ok out => Ok (String (ascii_of_N (byte mod 256)) out)
              | Raise e => Raise e
              end in
            match quad_pos with
            | 0%nat => a2b_base64 s' 1 v 0
            | 1%nat =>
                emit (N.lor (N.shiftl leftchar 2) (N.shiftr v 4))
                  (a2b_base64 s' 2 (N.land v 15) 0)
            | 2%nat =>
                emit (N.lor (N.shiftl leftchar 4) (N.shiftr v 2))
                  (a2b_base64 s' 3 (N.land v 3) 0)
            | _ =>
                emit (N.lor (N.shiftl leftchar 6) v) (a2b_base64 s' 0 0 0)
            end
        end
  end.

Definition b64decode_ref (s : string) : result string :=
  if all_chars (fun c => (N_of_ascii c <? 128)%N) s then a2b_base64 s 0 0 0
  else Raise (PyExc ValueError "string argument should contain only ASCII characters").

Example b64decode_ref_hello : b64decode_ref "aGVsbG8=" = Ok "hello".
Proof. reflexivity. Qed.

(** *** The output filename *)

Definition png_name (name : string) : Prop :=
  endswith ".png" (lower name) = true ∧ all_chars (is_not "/") name = true.

Lemma path_name_no_slash name : all_chars (is_not "/") (path_name name) = true.
Proof.
  unfold path_name.
  destruct (last (List.filter is_part (split_on "/" name))) as [part|] eqn:Hlast;
    [|done].
  apply last_Some_elem_of, list_elem_of_In, filter_In in Hlast as [Hin _].
  pose proof (split_on_pieces "/" name) as Hpieces.
  rewrite Forall_forall in Hpieces. by apply Hpieces, list_elem_of_In.
Qed.

Lemma png_suffix_name (part : string) :
  all_chars (is_not "/") part = true ->
  png_name (if negb (endswith ".png" (lower part)) then part +:+ ".png" else part).
Proof.
  intros Hpart. destruct (endswith ".png" (lower part)) eqn:Hends; [done|].
  cbn [negb]. split.
  - unfold lower. rewrite map_chars_app. apply endswith_app.
  - by rewrite all_chars_app, Hpart.
Qed.

Lemma path_join_relative output_dir name :
  all_chars (is_not "/") name = true ->
  path_join output_dir name = output_dir +:+ "/" +:+ name.
Proof.
  unfold path_join, is_absolute. destruct name as [|c name]; [done|].
  cbn [all_chars]. unfold is_not at 1.
  by destruct (Ascii.eqb c "/").
Qed.

Lemma decode_entry_png b64decode entry name decoded :
  decode_entry b64decode entry = Ok (name, decoded) -> png_name name.
Proof.
  unfold decode_entry.
  destruct (if truthy (dict_get entry "name") then dict_get entry "name"
            else PStr "image.png") as [| | | |given| |]; try done.
  pose proof (png_suffix_name (path_name given) (path_name_no_slash given)) as Hpng.
  set (filename := if negb _ then _ else _) in *.
  destruct (if truthy (dict_get entry "data") then dict_get entry "data"
            else PStr "") as [| | | |data|items|entries]; try done.
  - destruct (b64decode _); [|done]. by intros [= <- _].
  - by destruct (has_comma_item items).
  - by destruct (has_comma_key entries).
Qed.

(** Every file that [convert_file] writes lies in the output directory under
    a [.png] name. *)
Definition written_inside (output_dir : string) (file : string * string) : Prop :=
  exists name, fst file = output_dir +:+ "/" +:+ name ∧ png_name name.

Lemma convert_entries_writes b64decode fs content output_dir paths w :
  exists new,
    files (fst (convert_entries b64decode fs content output_dir paths w))
    = files w ++ new
    ∧ Forall (written_inside output_dir) new.
Proof.
  revert paths w. induction content as [|entry content IH]; intros paths w.
  - exists []. by rewrite app_nil_r.
  - cbn [convert_entries].
    destruct entry as [| | | | | |entry]; try apply IH.
    destruct (decode_entry b64decode entry) as [[filename decoded]|exc] eqn:Hentry.
    + apply decode_entry_png in Hentry as Hpng.
      assert (written_inside output_dir (path_join output_dir filename, decoded)
              ∧ forall kept,
                  written_inside output_dir (path_join output_dir filename, kept))
        as [Hwhole Hpart].
      { split; [|intros kept]; exists filename; (split; [|done]);
          apply path_join_relative, Hpng. }
      destruct (mkdir fs w output_dir); [exists []; by rewrite app_nil_r|].
      destruct (write_bytes fs w (path_join output_dir filename) decoded)
        as [[[kept|] exc]|].
      * exists [(path_join output_dir filename, kept)]. split; [done|].
        constructor; [apply Hpart|done].
      * exists []. by rewrite app_nil_r.
      * edestruct IH as (new & -> & Hnew). cbn [files].
        exists ((path_join output_dir filename, decoded) :: new).
        split; [by rewrite <- app_assoc|]. by constructor.
    + destruct (decide (exc_type exc = ValueError)).
      * edestruct IH as (new & -> & Hnew). by exists new.
      * exists []. by rewrite app_nil_r.
Qed.

(** C10: when [decode_entry] succeeds, the filename ends with [.png] (letter
    case apart) and has no directory component, so that [convert_file] writes
    it directly inside the output directory. *)
Theorem decode_entry_filename (b64decode : string -> result string)
    (entry : list (string * pyval)) (name decoded : string) :
  decode_entry b64decode entry = Ok (name, decoded) ->
  endswith ".png" (lower name) = true
  ∧ all_chars (is_not "/") name = true
  ∧ (forall output_dir, path_join output_dir name = output_dir +:+ "/" +:+ name)
  ∧ (forall fs bin_path content output_dir w,
       exists new,
         files (fst (convert_file b64decode fs bin_path content output_dir w))
         = files w ++ new
         ∧ Forall (written_inside output_dir) new).
Proof.
  intros [Hends Hslash]%decode_entry_png.
  split; [done|]. split; [done|]. split.
  - intros output_dir. by apply path_join_relative.
  - intros fs bin_path content output_dir w. unfold convert_file.
    destruct content as [| | | | |content|];
      try (exists []; by rewrite app_nil_r).
    apply convert_entries_writes.
Qed.

Definition sample_entry : list (string * pyval) :=
  [("name", PStr "tiles/2025/Thumb.PNG"); ("data", PStr "image/png;base64,aGVsbG8=")].

Lemma decode_entry_filename_witness :
  decode_entry b64decode_ref sample_entry = Ok ("Thumb.PNG", "hello")
  ∧ endswith ".png" (lower "Thumb.PNG") = true
  ∧ all_chars (is_not "/") "Thumb.PNG" = true.
Proof.
  split; [reflexivity|].
  destruct (decode_entry_filename b64decode_ref sample_entry "Thumb.PNG" "hello")
    as (Hends & Hslash & _); [reflexivity|].
  split; [exact Hends|exact Hslash].
Defined.

End ConvertBins.

(** ** The wire format of a tile

    [decode_tile] hands the buffer to [mapbox_vector_tile.decode], which is
    not part of the scripts.  What it reads is described by the
    specification (sections 3, 4.1, 4.4, 4.5 and 7); this module follows
    that description.  A byte is a [byte], an unsigned 64-bit integer a [Z]
    reduced modulo [2^64]. *)

Module Wire.

Abbreviation byte := Byte.byte.

Definition byte_val (b : byte) : Z := Z.of_N (Byte.to_N b).

Definition byte_of (n : Z) : byte :=
  default Byte.x00 (Byte.of_N (Z.to_N (n mod 256))).

(** Modelled from the spec: the error kinds of section 7. *)
Inductive error_kind :=
  | TruncatedInput | VarintOverflow | UnknownWireType | MalformedString
  | MalformedLayer | MalformedFeature | MalformedGeometry.

(** Modelled from the spec: the structured error of section 6 (kind,
    human-readable message, byte offset). *)
Record decode_error := mkError {
  kind : error_kind;
  message : string;
  offset : nat
}.

Inductive outcome (A : Type) :=
  | Done (a : A)
  | Fail (e : decode_error).
Arguments Done {A} a.
Arguments Fail {A} e.

Definition kind_message (k : error_kind) : string :=
  match k with
  | TruncatedInput => "truncated input"
  | VarintOverflow => "varint is longer than 10 bytes"
  | UnknownWireType => "unknown wire type"
  | MalformedString => "string is not valid text"
  | MalformedLayer => "layer has no name"
  | MalformedFeature => "malformed feature"
  | MalformedGeometry => "malformed geometry"
  end.

Definition fail {A} (k : error_kind) (at_offset : nat) : outcome A :=
  Fail (mkError k (kind_message k) at_offset).

(** Modelled from the spec: the WireReader of section 4.1, a buffer and a
    cursor.  The cursor is kept as the bytes still to read and the offset of
    the first of them in the tile buffer. *)
Record reader := mkReader {
  position : nat;
  remaining : list byte
}.

Definition open_reader (buffer : list byte) : reader := mkReader 0 buffer.

Inductive wire_type := Varint | Fixed64 | LengthDelimited | Fixed32.

(** Modelled from the spec: [read_varint] reads 1 to 10 bytes, seven bits
    each, least significant group first; the high bit of a byte says that
    another byte follows. *)
Fixpoint read_varint_from (fuel : nat) (start : nat) (shift : Z) (acc : Z)
    (r : reader) : outcome (Z * reader) :=
  match fuel with
  | O => fail VarintOverflow start
  | S fuel =>
      match remaining r with
      | [] => fail TruncatedInput start
      | b :: rest =>
          let acc := Z.lor acc (Z.shiftl (Z.land (byte_val b) 127) shift) in
          let r := mkReader (S (position r)) rest in
          if Z.testbit (byte_val b) 7
          then read_varint_from fuel start (shift + 7) acc r
          else Done (acc mod 2 ^ 64, r)
      end
  end.

Definition read_varint (r : reader) : outcome (Z * reader) :=
  read_varint_from 10 (position r) 0 0 r.

(** The encoding that [read_varint] reads back (the specification names it
    [encode]): seven bits per byte, least significant group first, the high
    bit set on every byte but the last. *)
Fixpoint encode_varint_upto (fuel : nat) (v : Z) : list byte :=
  match fuel with
  | O => []
  | S fuel =>
      if v <? 128 then [byte_of v]
      else byte_of (Z.lor (Z.land v 127) 128) :: encode_varint_upto fuel (Z.shiftr v 7)
  end.

Definition encode_varint (v : Z) : list byte := encode_varint_upto 10 v.

(** Modelled from the spec: [read_zigzag]. *)
Definition zigzag_decode (n : Z) : Z :=
  Z.lxor (Z.shiftr n 1) (- (Z.land n 1)).

Definition read_zigzag (r : reader) : outcome (Z * reader) :=
  match read_varint r with
  | Done (n, r) => Done (zigzag_decode n, r)
  | Fail e => Fail e
  end.

(** Modelled from the spec: [read_tag]. *)
Definition read_tag (r : reader) : outcome (Z * wire_type * reader) :=
  match read_varint r with
  | Fail e => Fail e
  | Done (v, r') =>
      let field_number := Z.shiftr v 3 in
      match Z.land v 7 with
      | 0 => Done (field_number, Varint, r')
      | 1 => Done (field_number, Fixed64, r')
      | 2 => Done (field_number, LengthDelimited, r')
      | 5 => Done (field_number, Fixed32, r')
      | _ => fail UnknownWireType (position r)
      end
  end.

(** Modelled from the spec: [read_length_delimited]; a shortfall is reported
    at the offset where the length was read. *)
Definition read_length_delimited (r : reader) : outcome (reader * reader) :=
  match read_varint r with
  | Fail e => Fail e
  | Done (len, r') =>
      let n := Z.to_nat len in
      if (n <=? length (remaining r'))%nat
      then Done (mkReader (position r') (take n (remaining r')),
                 mkReader (position r' + n) (drop n (remaining r')))
      else fail TruncatedInput (position r)
  end.

Definition skip_bytes (n : nat) (r : reader) : outcome reader :=
  if (n <=? length (remaining r))%nat
  then Done (mkReader (position r + n) (drop n (remaining r)))
  else fail TruncatedInput (position r).

(** Modelled from the spec: [skip_field]. *)
Definition skip_field (wt : wire_type) (r : reader) : outcome reader :=
  match wt with
  | Varint =>
      match read_varint r with Done (_, r) => Done r | Fail e => Fail e end
  | LengthDelimited =>
      match read_length_delimited r with Done (_, r) => Done r | Fail e => Fail e end
  | Fixed32 => skip_bytes 4 r
  | Fixed64 => skip_bytes 8 r
  end.

(** Modelled from the spec: a Layer of section 3.  The Value and Feature
    submessages are kept as the byte slices that were read: decoding them
    (sections 4.2 to 4.4: values, geometry, properties) is not modelled, and
    nothing stated below depends on it. *)
Record Layer := mkLayer {
  name : string;
  version : Z;
  extent : Z;
  keys : list string;
  values : list (list byte);
  features : list (list byte)
}.

(** The field numbers of the Mapbox Vector Tile format. *)
Definition TILE_LAYERS : Z := 3.
Definition LAYER_NAME : Z := 1.
Definition LAYER_FEATURES : Z := 2.
Definition LAYER_KEYS : Z := 3.
Definition LAYER_VALUES : Z := 4.
Definition LAYER_EXTENT : Z := 5.
Definition LAYER_VERSION : Z := 15.

Definition text_of (bytes : list byte) : string :=
  string_of_list_ascii (map Ascii.ascii_of_byte bytes).

(** Valid text is well-formed UTF-8. *)
Fixpoint valid_text_upto (fuel : nat) (bytes : list Z) : bool :=
  let cont (b : Z) := (128 <=? b) && (b <=? 191) in
  match fuel with
  | O => false
  | S fuel =>
      match bytes with
      | [] => true
      | b0 :: rest =>
          if b0 <? 128 then valid_text_upto fuel rest
          else if (194 <=? b0) && (b0 <=? 223) then
            match rest with
            | b1 :: rest => cont b1 && valid_text_upto fuel rest
            | _ => false
            end
          else if (224 <=? b0) && (b0 <=? 239) then
            match rest with
            | b1 :: b2 :: rest =>
                cont b1 && cont b2
                && (if b0 =? 224 then 160 <=? b1 else true)
                && (if b0 =? 237 then b1 <=? 159 else true)
                && valid_text_upto fuel rest
            | _ => false
            end
          else if (240 <=? b0) && (b0 <=? 244) then
            match rest with
            | b1 :: b2 :: b3 :: rest =>
                cont b1 && cont b2 && cont b3
                && (if b0 =? 240 then 144 <=? b1 else true)
                && (if b0 =? 244 then b1 <=? 143 else true)
                && valid_text_upto fuel rest
            | _ => false
            end
          else false
      end
  end.

Definition valid_text (bytes : list byte) : bool :=
  valid_text_upto (S (length bytes)) (map byte_val bytes).

Definition read_string (r : reader) : outcome (string * reader) :=
  match read_length_delimited r with
  | Fail e => Fail e
  | Done (slice, r') =>
      if valid_text (remaining slice) then Done (text_of (remaining slice), r')
      else fail MalformedString (position slice)
  end.

(** What the LayerDecoder has gathered so far; the name may still be
    missing. *)
Record layer_fields := mkFields {
  f_name : option string;
  f_version : Z;
  f_extent : Z;
  f_keys : list string;
  f_values : list (list byte);
  f_features : list (list byte)
}.

Definition no_fields : layer_fields := mkFields None 1 4096 [] [] [].

(** Modelled from the spec: one field of a Layer submessage (section 4.4);
    a field that is not recognised is skipped. *)
Definition read_layer_field (r : reader) (acc : layer_fields)
  : outcome (layer_fields * reader) :=
  match read_tag r with
  | Fail e => Fail e
  | Done (field, wt, r) =>
      match wt with
      | Varint =>
          if field =? LAYER_VERSION then
            match read_varint r with
            | Fail e => Fail e
            | Done (v, r) =>
                Done (mkFields (f_name acc) v (f_extent acc) (f_keys acc)
                        (f_values acc) (f_features acc), r)
            end
          else if field =? LAYER_EXTENT then
            match read_varint r with
            | Fail e => Fail e
            | Done (v, r) =>
                Done (mkFields (f_name acc) (f_version acc) v (f_keys acc)
                        (f_values acc) (f_features acc), r)
            end
          else
            match skip_field wt r with Fail e => Fail e | Done r => Done (acc, r) end
      | LengthDelimited =>
          if field =? LAYER_NAME then
            match read_string r with
            | Fail e => Fail e
            | Done (s, r) =>
                Done (mkFields (Some s) (f_version acc) (f_extent acc) (f_keys acc)
                        (f_values acc) (f_features acc), r)
            end
          else if field =? LAYER_KEYS then
            match read_string r with
            | Fail e => Fail e
            | Done (s, r) =>
                Done (mkFields (f_name acc) (f_version acc) (f_extent acc)
                        (f_keys acc ++ [s]) (f_values acc) (f_features acc), r)
            end
          else if field =? LAYER_VALUES then
            match read_length_delimited r with
            | Fail e => Fail e
            | Done (slice, r) =>
                Done (mkFields (f_name acc) (f_version acc) (f_extent acc) (f_keys acc)
                        (f_values acc ++ [remaining slice]) (f_features acc), r)
            end
          else if field =? LAYER_FEATURES then
            match read_length_delimited r with
            | Fail e => Fail e
            | Done (slice, r) =>
                Done (mkFields (f_name acc) (f_version acc) (f_extent acc) (f_keys acc)
                        (f_values acc) (f_features acc ++ [remaining slice]), r)
            end
          else
            match skip_field wt r with Fail e => Fail e | Done r => Done (acc, r) end
      | _ =>
          match skip_field wt r with Fail e => Fail e | Done r => Done (acc, r) end
      end
  end.

(** The loop over the fields of a submessage.  Every field takes at least
    one byte, so [length (remaining r)] passes are enough. *)
Fixpoint read_layer_fields (fuel : nat) (r : reader) (acc : layer_fields)
  : outcome layer_fields :=
  match remaining r with
  | [] => Done acc
  | _ :: _ =>
      match fuel with
      | O => fail TruncatedInput (position r)
      | S fuel =>
          match read_layer_field r acc with
          | Fail e => Fail e
          | Done (acc, r) => read_layer_fields fuel r acc
          end
      end
  end.

(** Modelled from the spec: the LayerDecoder (section 4.4). *)
Definition decode_layer (slice : reader) : outcome Layer :=
  match read_layer_fields (length (remaining slice)) slice no_fields with
  | Fail e => Fail e
  | Done acc =>
      match f_name acc with
      | None => fail MalformedLayer (position slice)
      | Some n =>
          Done (mkLayer n (f_version acc) (f_extent acc) (f_keys acc)
                  (f_values acc) (f_features acc))
      end
  end.

(** Modelled from the spec: one field of the tile buffer (section 4.5): a
    Layer, handed to the LayerDecoder, or a field to skip. *)
Definition read_tile_field (r : reader) : outcome (option Layer * reader) :=
  match read_tag r with
  | Fail e => Fail e
  | Done (field, wt, r) =>
      match wt with
      | LengthDelimited =>
          if field =? TILE_LAYERS then
            match read_length_delimited r with
            | Fail e => Fail e
            | Done (slice, r) =>
                match decode_layer slice with
                | Fail e => Fail e
                | Done layer => Done (Some layer, r)
                end
            end
          else
            match skip_field wt r with Fail e => Fail e | Done r => Done (None, r) end
      | _ =>
          match skip_field wt r with Fail e => Fail e | Done r => Done (None, r) end
      end
  end.

Fixpoint read_tile_fields (fuel : nat) (r : reader) (layers : list Layer)
  : outcome (list Layer) :=
  match remaining r with
  | [] => Done layers
  | _ :: _ =>
      match fuel with
      | O => fail TruncatedInput (position r)
      | S fuel =>
          match read_tile_field r with
          | Fail e => Fail e
          | Done (Some layer, r) => read_tile_fields fuel r (layers ++ [layer])
          | Done (None, r) => read_tile_fields fuel r layers
          end
      end
  end.

(** Modelled from the spec: the TileDecoder (section 4.5); the Tile is the
    sequence of its layers, in encounter order. *)
Definition tile_layers (buffer : list byte) : outcome (list Layer) :=
  read_tile_fields (length buffer) (open_reader buffer) [].

(** *** The varint round trip *)

Lemma byte_val_of (n : Z) : byte_val (byte_of n) = n mod 256.
Proof.
  unfold byte_val, byte_of.
  assert (0 <= n mod 256 < 256) as Hrange by (apply Z.mod_pos_bound; lia).
  destruct (Byte.of_N (Z.to_N (n mod 256))) as [b|] eqn:Hb.
  - apply Byte.to_of_N in Hb. simpl. rewrite Hb. lia.
  - apply Byte.of_N_None_iff in Hb. lia.
Qed.

Lemma low_bits_small (v : Z) : 0 <= v < 128 -> Z.land v 127 = v.
Proof.
  intros Hv. change 127 with (Z.ones 7). rewrite Z.land_ones by lia.
  apply Z.mod_small. lia.
Qed.

Lemma bit7_small (v : Z) : 0 <= v < 128 -> Z.testbit v 7 = false.
Proof.
  intros Hv. destruct (Z.eq_dec v 0) as [->|Hne]; [done|].
  apply Z.bits_above_log2; [lia|].
  apply Z.log2_lt_pow2; lia.
Qed.

(** A byte that carries seven bits of [v] and the continuation bit. *)
Lemma continued_byte (v : Z) :
  let b := byte_val (byte_of (Z.lor (Z.land v 127) 128)) in
  Z.land b 127 = Z.land v 127 ∧ Z.testbit b 7 = true.
Proof.
  cbn zeta. rewrite byte_val_of.
  change 256 with (2 ^ 8). rewrite <- Z.land_ones by lia.
  split.
  - apply Z.bits_inj'. intros i Hi.
    rewrite !Z.land_spec, Z.lor_spec, Z.land_spec.
    change 127 with (Z.ones 7). change 128 with (2 ^ 7).
    destruct (Z.lt_ge_cases i 7) as [Hlt|Hge].
    + rewrite Z.ones_spec_low, Z.ones_spec_low, Z.pow2_bits_false by lia.
      by rewrite orb_false_r, !andb_true_r.
    + rewrite (Z.ones_spec_high 7) by lia. by rewrite !andb_false_r.
  - rewrite Z.land_spec, Z.lor_spec.
    change 128 with (2 ^ 7). rewrite Z.pow2_bits_true by lia.
    rewrite orb_true_r. by rewrite Z.ones_spec_low by lia.
Qed.

Lemma split_low_bits (v : Z) :
  Z.lor (Z.land v 127) (Z.shiftl (Z.shiftr v 7) 7) = v.
Proof.
  apply Z.bits_inj'. intros i Hi.
  rewrite Z.lor_spec, Z.land_spec. change 127 with (Z.ones 7).
  destruct (Z.lt_ge_cases i 7) as [Hlt|Hge].
  - rewrite Z.ones_spec_low, Z.shiftl_spec_low by lia.
    by rewrite andb_true_r, orb_false_r.
  - rewrite Z.ones_spec_high, Z.shiftl_spec, Z.shiftr_spec by lia.
    rewrite andb_false_r. simpl. f_equal. lia.
Qed.

Lemma read_varint_from_step fuel start shift acc pos b rest :
  read_varint_from (S fuel) start shift acc (mkReader pos (b :: rest))
  = if Z.testbit (byte_val b) 7
    then read_varint_from fuel start (shift + 7)
           (Z.lor acc (Z.shiftl (Z.land (byte_val b) 127) shift))
           (mkReader (S pos) rest)
    else Done (Z.lor acc (Z.shiftl (Z.land (byte_val b) 127) shift) mod 2 ^ 64,
               mkReader (S pos) rest).
Proof. reflexivity. Qed.

Lemma encode_varint_upto_step fuel v :
  encode_varint_upto (S fuel) v
  = if v <? 128 then [byte_of v]
    else byte_of (Z.lor (Z.land v 127) 128) :: encode_varint_upto fuel (Z.shiftr v 7).
Proof. reflexivity. Qed.

Lemma read_varint_from_last fuel start shift acc pos rest v :
  0 <= v < 128 ->
  read_varint_from (S fuel) start shift acc (mkReader pos ([byte_of v] ++ rest))
  = Done (Z.lor acc (Z.shiftl v shift) mod 2 ^ 64, mkReader (pos + 1) rest).
Proof.
  intros Hv. cbn [app]. rewrite read_varint_from_step.
  rewrite byte_val_of, (Z.mod_small v 256) by lia.
  rewrite bit7_small, low_bits_small by lia.
  do 3 f_equal. lia.
Qed.

Lemma read_varint_from_encoded (fuel : nat) (v : Z) :
  0 <= v < 2 ^ (7 * Z.of_nat (S fuel)) ->
  forall start shift acc pos rest,
    0 <= shift ->
    read_varint_from (S fuel) start shift acc
      (mkReader pos (encode_varint_upto (S fuel) v ++ rest))
    = Done (Z.lor acc (Z.shiftl v shift) mod 2 ^ 64,
            mkReader (pos + length (encode_varint_upto (S fuel) v)) rest).
Proof.
  revert v. induction fuel as [|fuel IH]; intros v Hv start shift acc pos rest Hshift.
  - assert (v < 128) as Hsmall by (change (2 ^ (7 * Z.of_nat 1)) with 128 in Hv; lia).
    rewrite encode_varint_upto_step, (proj2 (Z.ltb_lt v 128)) by done.
    by apply read_varint_from_last.
  - rewrite (encode_varint_upto_step (S fuel)).
    destruct (Z.ltb_spec v 128) as [Hsmall|Hlarge].
    + apply read_varint_from_last. lia.
    + rewrite <- app_comm_cons, read_varint_from_step.
      destruct (continued_byte v) as [Hlow Hbit]. cbn zeta in Hlow, Hbit.
      rewrite Hlow, Hbit.
      rewrite IH; [| |lia].
      * f_equal. f_equal.
        -- f_equal. rewrite <- Z.lor_assoc. f_equal.
           replace (shift + 7) with (7 + shift) by lia.
           rewrite <- (Z.shiftl_shiftl (Z.shiftr v 7) 7 shift) by lia.
           rewrite <- Z.shiftl_lor. by rewrite split_low_bits.
        -- f_equal. cbn [length]. lia.
      * rewrite Z.shiftr_div_pow2 by lia. split.
        -- apply Z.div_pos; lia.
        -- apply Z.div_lt_upper_bound; [lia|].
           rewrite <- Z.pow_add_r by lia.
           replace (7 + 7 * Z.of_nat (S fuel)) with (7 * Z.of_nat (S (S fuel))) by lia.
           lia.
Qed.

(** C8: reading back the encoding of an unsigned 64-bit integer yields it,
    and the cursor stands after the last byte of the encoding. *)
Theorem read_varint_encode_varint (v : Z) :
  0 <= v < 2 ^ 64 ->
  read_varint (open_reader (encode_varint v))
  = Done (v, mkReader (length (encode_varint v)) []).
Proof.
  intros Hv. unfold read_varint, open_reader, encode_varint. cbn [position].
  rewrite <- (app_nil_r (encode_varint_upto 10 v)) at 1.
  rewrite read_varint_from_encoded; [| |lia].
  - rewrite Z.shiftl_0_r, Z.lor_0_l, Z.mod_small by lia. done.
  - change (2 ^ (7 * Z.of_nat 10)) with (2 ^ 64 * 64). lia.
Qed.

Lemma read_varint_encode_varint_witness :
  0 <= 300 < 2 ^ 64
  ∧ encode_varint 300 = [Byte.xac; Byte.x02]
  ∧ read_varint (open_reader (encode_varint 300)) = Done (300, mkReader 2 []).
Proof.
  split; [lia|]. split; [reflexivity|].
  apply (read_varint_encode_varint 300). lia.
Defined.

(** *** Reading a buffer that is followed by more bytes

    A read that succeeds takes at least one byte, and it succeeds in the same
    way when the buffer stands further in the tile ([k] bytes later) and is
    followed by more bytes ([more]). *)

Definition moved (k : nat) (more : list byte) (r : reader) : reader :=
  mkReader (position r + k) (remaining r ++ more).

Definition shifted (k : nat) (r : reader) : reader :=
  mkReader (position r + k) (remaining r).

Lemma moved_nil k r : moved k [] r = shifted k r.
Proof. unfold moved, shifted. by rewrite app_nil_r. Qed.

Lemma read_varint_from_moved fuel start shift acc r v r' :
  read_varint_from fuel start shift acc r = Done (v, r') ->
  (length (remaining r') < length (remaining r))%nat
  ∧ forall start' k more,
      read_varint_from fuel start' shift acc (moved k more r)
      = Done (v, moved k more r').
Proof.
  revert shift acc r. induction fuel as [|fuel IH]; intros shift acc r; [done|].
  destruct r as [pos [|b rest]]; [done|].
  rewrite read_varint_from_step.
  destruct (Z.testbit (byte_val b) 7) eqn:Hbit.
  - intros Hread. apply IH in Hread as [Hlen Hmoved]. split; [simpl in *; lia|].
    intros start' k more. unfold moved at 1. cbn [position remaining app].
    rewrite read_varint_from_step, Hbit. apply (Hmoved start' k more).
  - intros [= <- <-]. split; [simpl; lia|].
    intros start' k more. unfold moved at 1. cbn [position remaining app].
    by rewrite read_varint_from_step, Hbit.
Qed.

Lemma read_varint_moved r v r' :
  read_varint r = Done (v, r') ->
  (length (remaining r') < length (remaining r))%nat
  ∧ forall k more, read_varint (moved k more r) = Done (v, moved k more r').
Proof.
  unfold read_varint. intros [Hlen Hmoved]%read_varint_from_moved.
  split; [done|]. intros k more. apply Hmoved.
Qed.

Lemma read_tag_moved r field wt r' :
  read_tag r = Done (field, wt, r') ->
  (length (remaining r') < length (remaining r))%nat
  ∧ forall k more, read_tag (moved k more r) = Done (field, wt, moved k more r').
Proof.
  unfold read_tag.
  destruct (read_varint r) as [[v r1]|e] eqn:Hread; [|done].
  apply read_varint_moved in Hread as [Hlen Hmoved].
  intros Htag. split.
  - destruct (Z.land v 7) as [|[[[]|[]|]|[[]|[]|]|]|]; by simplify_eq.
  - intros k more. rewrite Hmoved.
    destruct (Z.land v 7) as [|[[[]|[]|]|[[]|[]|]|]|]; by simplify_eq.
Qed.

Lemma read_length_delimited_moved r slice r' :
  read_length_delimited r = Done (slice, r') ->
  (length (remaining r') < length (remaining r))%nat
  ∧ forall k more,
      read_length_delimited (moved k more r)
      = Done (shifted k slice, moved k more r').
Proof.
  unfold read_length_delimited.
  destruct (read_varint r) as [[len r1]|e] eqn:Hread; [|done].
  apply read_varint_moved in Hread as [Hlen Hmoved].
  destruct (Nat.leb_spec (Z.to_nat len) (length (remaining r1))) as [Hfits|]; [|done].
  intros [= <- <-]. split.
  - cbn [remaining]. rewrite length_drop. lia.
  - intros k more. rewrite Hmoved. cbn [moved remaining position].
    rewrite (proj2 (Nat.leb_le _ _)) by (rewrite length_app; lia).
    unfold shifted, moved. cbn [position remaining].
    rewrite take_app_le, drop_app_le by done.
    do 3 f_equal. lia.
Qed.

Lemma skip_field_moved wt r r' :
  skip_field wt r = Done r' ->
  (length (remaining r') <= length (remaining r))%nat
  ∧ forall k more, skip_field wt (moved k more r) = Done (moved k more r').
Proof.
  assert (Hbytes : forall n, skip_bytes n r = Done r' ->
    (length (remaining r') <= length (remaining r))%nat
    ∧ forall k more, skip_bytes n (moved k more r) = Done (moved k more r')).
  { intros n. unfold skip_bytes.
    destruct (Nat.leb_spec n (length (remaining r))) as [Hfits|]; [|done].
    intros [= <-]. split; [cbn [remaining]; rewrite length_drop; lia|].
    intros k more. cbn [moved remaining position].
    rewrite (proj2 (Nat.leb_le _ _)) by (rewrite length_app; lia).
    unfold moved. cbn [position remaining].
    rewrite drop_app_le by done. do 2 f_equal. lia. }
  destruct wt; cbn [skip_field]; try apply Hbytes.
  - destruct (read_varint r) as [[v r1]|e] eqn:Hread; [|done].
    apply read_varint_moved in Hread as [Hlen Hmoved].
    intros [= <-]. split; [lia|]. intros k more. by rewrite Hmoved.
  - destruct (read_length_delimited r) as [[slice r1]|e] eqn:Hread; [|done].
    apply read_length_delimited_moved in Hread as [Hlen Hmoved].
    intros [= <-]. split; [lia|]. intros k more. by rewrite Hmoved.
Qed.

Lemma read_string_moved r text r' :
  read_string r = Done (text, r') ->
  (length (remaining r') < length (remaining r))%nat
  ∧ forall k more, read_string (moved k more r) = Done (text, moved k more r').
Proof.
  unfold read_string.
  destruct (read_length_delimited r) as [[slice r1]|e] eqn:Hread; [|done].
  apply read_length_delimited_moved in Hread as [Hlen Hmoved].
  destruct (valid_text (remaining slice)) eqn:Hvalid; [|done].
  intros [= <- <-]. split; [done|].
  intros k more. rewrite Hmoved. cbn [shifted remaining]. by rewrite Hvalid.
Qed.

(** Case analysis on a read inside a decoder, with its [moved] lemma. *)
Ltac moved_read lemma :=
  match goal with
  | |- context [match ?read ?r with Done _ => _ | Fail _ => _ end] =>
      let Hread := fresh "Hread" in
      let Hlen := fresh "Hlen" in
      let Hmoved := fresh "Hmoved" in
      destruct (read r) as [[? ?]|?] eqn:Hread; [|done];
      apply lemma in Hread as [Hlen Hmoved]
  end.

Ltac moved_skip :=
  match goal with
  | |- context [match skip_field ?wt ?r with Done _ => _ | Fail _ => _ end] =>
      let Hread := fresh "Hread" in
      let Hlen := fresh "Hlen" in
      let Hmoved := fresh "Hmoved" in
      destruct (skip_field wt r) as [?|?] eqn:Hread; [|done];
      apply skip_field_moved in Hread as [Hlen Hmoved]
  end.

Lemma read_layer_field_moved r acc acc' r' :
  read_layer_field r acc = Done (acc', r') ->
  (length (remaining r') < length (remaining r))%nat
  ∧ forall k more,
      read_layer_field (moved k more r) acc = Done (acc', moved k more r').
Proof.
  unfold read_layer_field.
  destruct (read_tag r) as [[[field wt] r1]|e] eqn:Htag; [|done].
  apply read_tag_moved in Htag as [Hlen1 Hmoved1].
  destruct wt.
  - destruct (field =? LAYER_VERSION) eqn:Hversion.
    { moved_read read_varint_moved. intros ?; simplify_eq. split; [lia|].
      intros k more. by rewrite Hmoved1, Hversion, Hmoved. }
    destruct (field =? LAYER_EXTENT) eqn:Hextent.
    { moved_read read_varint_moved. intros ?; simplify_eq. split; [lia|].
      intros k more. by rewrite Hmoved1, Hversion, Hextent, Hmoved. }
    moved_skip. intros ?; simplify_eq. split; [lia|].
    intros k more. by rewrite Hmoved1, Hversion, Hextent, Hmoved.
  - moved_skip. intros ?; simplify_eq. split; [lia|].
    intros k more. by rewrite Hmoved1, Hmoved.
  - destruct (field =? LAYER_NAME) eqn:Hname.
    { moved_read read_string_moved. intros ?; simplify_eq. split; [lia|].
      intros k more. by rewrite Hmoved1, Hname, Hmoved. }
    destruct (field =? LAYER_KEYS) eqn:Hkeys.
    { moved_read read_string_moved. intros ?; simplify_eq. split; [lia|].
      intros k more. by rewrite Hmoved1, Hname, Hkeys, Hmoved. }
    destruct (field =? LAYER_VALUES) eqn:Hvalues.
    { moved_read read_length_delimited_moved. intros ?; simplify_eq. split; [lia|].
      intros k more. by rewrite Hmoved1, Hname, Hkeys, Hvalues, Hmoved. }
    destruct (field =? LAYER_FEATURES) eqn:Hfeatures.
    { moved_read read_length_delimited_moved. intros ?; simplify_eq. split; [lia|].
      intros k more. by rewrite Hmoved1, Hname, Hkeys, Hvalues, Hfeatures, Hmoved. }
    moved_skip. intros ?; simplify_eq. split; [lia|].
    intros k more. by rewrite Hmoved1, Hname, Hkeys, Hvalues, Hfeatures, Hmoved.
  - moved_skip. intros ?; simplify_eq. split; [lia|].
    intros k more. by rewrite Hmoved1, Hmoved.
Qed.

Lemma read_layer_fields_shifted fuel r acc res k :
  read_layer_fields fuel r acc = Done res ->
  read_layer_fields fuel (shifted k r) acc = Done res.
Proof.
  revert r acc. induction fuel as [|fuel IH]; intros [pos [|b rest]] acc; try done.
  cbn [read_layer_fields remaining shifted].
  destruct (read_layer_field (mkReader pos (b :: rest)) acc) as [[acc1 r1]|e] eqn:Hfield;
    [|done].
  apply read_layer_field_moved in Hfield as [_ Hmoved].
  specialize (Hmoved k []). rewrite !moved_nil in Hmoved.
  rewrite Hmoved. apply IH.
Qed.

Lemma decode_layer_shifted slice layer k :
  decode_layer slice = Done layer -> decode_layer (shifted k slice) = Done layer.
Proof.
  unfold decode_layer.
  destruct (read_layer_fields _ slice no_fields) as [acc|e] eqn:Hfields; [|done].
  apply (read_layer_fields_shifted _ _ _ _ k) in Hfields.
  change (remaining (shifted k slice)) with (remaining slice). rewrite Hfields.
  by destruct (f_name acc).
Qed.

Lemma read_tile_field_moved r found r' :
  read_tile_field r = Done (found, r') ->
  (length (remaining r') < length (remaining r))%nat
  ∧ forall k more,
      read_tile_field (moved k more r) = Done (found, moved k more r').
Proof.
  unfold read_tile_field.
  destruct (read_tag r) as [[[field wt] r1]|e] eqn:Htag; [|done].
  apply read_tag_moved in Htag as [Hlen1 Hmoved1].
  destruct wt.
  - moved_skip. intros ?; simplify_eq. split; [lia|].
    intros k more. by rewrite Hmoved1, Hmoved.
  - moved_skip. intros ?; simplify_eq. split; [lia|].
    intros k more. by rewrite Hmoved1, Hmoved.
  - destruct (field =? TILE_LAYERS) eqn:Hlayers.
    + moved_read read_length_delimited_moved.
      destruct (decode_layer r0) as [layer|e] eqn:Hlayer; [|done].
      intros ?; simplify_eq. split; [lia|].
      intros k more. rewrite Hmoved1, Hlayers, Hmoved.
      by rewrite (decode_layer_shifted _ _ _ Hlayer).
    + moved_skip. intros ?; simplify_eq. split; [lia|].
      intros k more. by rewrite Hmoved1, Hlayers, Hmoved.
  - moved_skip. intros ?; simplify_eq. split; [lia|].
    intros k more. by rewrite Hmoved1, Hmoved.
Qed.

(** The layers found are appended to the ones found before. *)
Lemma read_tile_fields_appends fuel r layers :
  read_tile_fields fuel r layers
  = match read_tile_fields fuel r [] with
    | Done found => Done (layers ++ found)
    | Fail e => Fail e
    end.
Proof.
  revert r layers. induction fuel as [|fuel IH]; intros [pos [|b rest]] layers;
    cbn [read_tile_fields remaining]; rewrite ?app_nil_r; try done.
  destruct (read_tile_field (mkReader pos (b :: rest))) as [[[layer|] r1]|e]; [| |done].
  - rewrite (IH r1 (layers ++ [layer])), (IH r1 ([] ++ [layer])).
    destruct (read_tile_fields fuel r1 []); [|done]. by rewrite <- app_assoc.
  - apply IH.
Qed.

(** As many passes as there are bytes are enough. *)
Lemma read_tile_fields_fuel fuel1 fuel2 r layers :
  (length (remaining r) <= fuel1)%nat -> (length (remaining r) <= fuel2)%nat ->
  read_tile_fields fuel1 r layers = read_tile_fields fuel2 r layers.
Proof.
  revert fuel2 r layers. induction fuel1 as [|fuel1 IH];
    intros fuel2 [pos [|b rest]] layers Hle1 Hle2;
    cbn [remaining length] in *; try lia.
  - by destruct fuel2.
  - by destruct fuel2.
  - destruct fuel2 as [|fuel2]; [lia|]. cbn [read_tile_fields remaining].
    destruct (read_tile_field (mkReader pos (b :: rest))) as [[found r1]|e] eqn:Hfield;
      [|done].
    apply read_tile_field_moved in Hfield as [Hlen _]. cbn [remaining length] in Hlen.
    destruct found; apply IH; lia.
Qed.

Lemma read_tile_fields_shifted fuel r layers found k :
  read_tile_fields fuel r layers = Done found ->
  read_tile_fields fuel (shifted k r) layers = Done found.
Proof.
  revert r layers. induction fuel as [|fuel IH]; intros [pos [|b rest]] layers; try done.
  cbn [read_tile_fields remaining shifted].
  destruct (read_tile_field (mkReader pos (b :: rest))) as [[o r1]|e] eqn:Hfield; [|done].
  apply read_tile_field_moved in Hfield as [_ Hmoved].
  specialize (Hmoved k []). rewrite !moved_nil in Hmoved.
  rewrite Hmoved. destruct o; apply IH.
Qed.

Lemma read_tile_fields_moved fuel r layers found k more :
  read_tile_fields fuel r layers = Done found ->
  (length (remaining r) <= fuel)%nat ->
  exists pos,
    read_tile_fields (fuel + length more) (moved k more r) layers
    = read_tile_fields (length more) (mkReader pos more) found.
Proof.
  revert r layers. induction fuel as [|fuel IH]; intros [pos [|b rest]] layers;
    cbn [remaining length]; try lia.
  - intros [= <-] _. exists (pos + k)%nat. done.
  - intros [= <-] _. exists (pos + k)%nat. unfold moved. cbn [position remaining app].
    apply read_tile_fields_fuel; cbn [remaining]; lia.
  - cbn [read_tile_fields remaining].
    destruct (read_tile_field (mkReader pos (b :: rest))) as [[o r1]|e] eqn:Hfield; [|done].
    apply read_tile_field_moved in Hfield as [Hlen Hmoved]. cbn [remaining length] in Hlen.
    intros Hrest Hfuel.
    specialize (Hmoved k more). unfold moved at 1 in Hmoved.
    cbn [position remaining app] in Hmoved.
    unfold moved at 1. cbn [position remaining app Nat.add read_tile_fields].
    rewrite Hmoved.
    destruct o; apply IH; (done || lia).
Qed.

(** Decoding a buffer followed by another yields the layers of the first,
    then the layers of the second: the layers come in encounter order. *)
Lemma tile_layers_app (buffer1 buffer2 : list byte) (layers1 layers2 : list Layer) :
  tile_layers buffer1 = Done layers1 ->
  tile_layers buffer2 = Done layers2 ->
  tile_layers (buffer1 ++ buffer2) = Done (layers1 ++ layers2).
Proof.
  unfold tile_layers. intros H1 H2.
  destruct (read_tile_fields_moved _ _ _ _ 0%nat buffer2 H1) as [pos Hpos]; [done|].
  unfold moved, open_reader in Hpos. cbn [position remaining Nat.add] in Hpos.
  rewrite length_app. unfold open_reader. rewrite Hpos.
  rewrite read_tile_fields_appends.
  apply (read_tile_fields_shifted _ _ _ _ pos) in H2.
  unfold shifted, open_reader in H2. cbn [position remaining Nat.add] in H2.
  by rewrite H2.
Qed.

End Wire.

(** ** get_features.py: the URL builder and the geometry trimmer *)

Module Features.

(** [truncate_geometry(geom, max_coords)].  The inner loop walks
    [geom[:max_coords]], whose length is [slice_len]. *)
Definition slice_len {A} (l : list A) (n : Z) : nat :=
  Nat.min (length l)
    (if 0 <=? n then Z.to_nat n else Z.to_nat (Z.of_nat (length l) + n)).

Fixpoint truncate_geometry (geom : pyval) (max_coords : Z) : pyval :=
  match geom with
  | PList items =>
      let fix comprehension (trimmed : list pyval) (k : nat) : list pyval :=
        match trimmed, k with
        | item :: trimmed, S k =>
            truncate_geometry item max_coords :: comprehension trimmed k
        | _, _ => []
        end in
      PList (comprehension items (slice_len items max_coords))
  | _ => geom
  end.

Definition DEFAULT_URL : string :=
  "https://gateway.api.globalfishingwatch.org/v3/4wings/tile/position/12/3294/1837"
  +:+ "?datasets%5B0%5D=public-global-sentinel2-presence%3Av3.0"
  +:+ "&filters%5B0%5D=matched%20IN%20%28%27false%27%29"
  +:+ "&format=MVT&max-points=5000"
  +:+ "&properties%5B0%5D=bearing%2Cshipname%2Cvessel_id"
  +:+ "&date-range=2025-08-01T00%3A00%3A00.000Z%2C2025-11-24T00%3A00%3A00.000Z".

(** [adjust_matched_filter(url, matched_choice)]. *)
Definition adjust_matched_filter `{UrlLib} (url : string)
    (matched_choice : option string) : result string :=
  match matched_choice with
  | None => Ok url
  | Some choice =>
      match urlsplit url with
      | Raise e => Raise e
      | Ok parsed =>
          let query_items := parse_qsl (query parsed) in
          let query_items :=
            filter (fun kv => fst kv ≠ "filters[0]") query_items in
          let query_items :=
            if decide (choice ≠ "any")
            then query_items ++ [("filters[0]", "matched IN ('" +:+ choice +:+ "')")]
            else query_items in
          match urlencode query_items with
          | Raise e => Raise e
          | Ok new_query =>
              Ok (urlunsplit (mkSplit (scheme parsed) (netloc parsed) (path parsed)
                                new_query (fragment parsed)))
          end
      end
  end.

(** *** The geometry trimmer *)

Lemma take_min_length {A} (l : list A) (k : nat) :
  take (Nat.min (length l) k) l = take k l.
Proof.
  destruct (Nat.le_ge_cases k (length l)) as [Hle|Hge].
  - by rewrite Nat.min_r.
  - rewrite Nat.min_l by done. by rewrite !take_ge.
Qed.

(** The list comprehension of [truncate_geometry], as the script writes it. *)
Lemma truncate_geometry_list (items : list pyval) (n : Z) :
  truncate_geometry (PList items) n
  = PList (map (fun item => truncate_geometry item n) (slice_to items n)).
Proof.
  cbn [truncate_geometry]. f_equal.
  assert (Hgo : forall (l : list pyval) k,
    (fix comprehension (trimmed : list pyval) (k : nat) : list pyval :=
       match trimmed, k with
       | item :: trimmed, S k => truncate_geometry item n :: comprehension trimmed k
       | _, _ => []
       end) l k = map (fun item => truncate_geometry item n) (take k l)).
  { induction l as [|x l IH]; intros [|k]; simpl; try done. by rewrite IH. }
  rewrite Hgo. f_equal. unfold slice_len, slice_to.
  destruct (0 <=? n); apply take_min_length.
Qed.

(** Induction over the list nesting of a value: everything that is not a
    list is a leaf. *)
Lemma pyval_nesting_ind (P : pyval -> Prop) :
  (forall v, is_list v = false -> P v) ->
  (forall items, Forall P items -> P (PList items)) ->
  forall v, P v.
Proof.
  intros Hleaf Hlist.
  fix IH 1. intros [| | | | |items|]; try (apply Hleaf; reflexivity).
  apply Hlist. induction items as [|x items IHitems]; constructor; auto.
Qed.

(** Every list met from the root through list nesting has at most [n]
    elements.  A value that is not a list is a leaf of the nesting: the
    lists that a dict holds are not looked at. *)
#[local] Set Warnings "-register-all".
Inductive lists_at_most (n : Z) : pyval -> Prop :=
  | at_most_leaf v : is_list v = false -> lists_at_most n v
  | at_most_list items :
      Z.of_nat (length items) <= n ->
      Forall (lists_at_most n) items ->
      lists_at_most n (PList items).

Lemma truncate_geometry_leaf (geom : pyval) (n : Z) :
  is_list geom = false -> truncate_geometry geom n = geom.
Proof. by destruct geom. Qed.

Lemma truncate_geometry_bounded (geom : pyval) (n : Z) :
  0 <= n -> lists_at_most n (truncate_geometry geom n).
Proof.
  intros Hn. induction geom as [v Hv|items IH] using pyval_nesting_ind.
  - rewrite truncate_geometry_leaf by done. by constructor.
  - rewrite truncate_geometry_list. apply at_most_list.
    + rewrite length_map. unfold slice_to.
      rewrite (proj2 (Z.leb_le 0 n)) by done. rewrite length_take. lia.
    + unfold slice_to. rewrite (proj2 (Z.leb_le 0 n)) by done.
      apply Forall_map. by apply Forall_take.
Qed.

(** Every list of a value has at most [n] elements: those met through the
    lists, and those that the dicts hold. *)
Fixpoint every_list_at_most (n : Z) (v : pyval) : bool :=
  match v with
  | PList items =>
      (Z.of_nat (length items) <=? n)
      && (fix all (items : list pyval) : bool :=
            match items with
            | [] => true
            | item :: items => every_list_at_most n item && all items
            end) items
  | PDict entries =>
      (fix all (entries : list (string * pyval)) : bool :=
         match entries with
         | [] => true
         | (_, value) :: entries => every_list_at_most n value && all entries
         end) entries
  | _ => true
  end.

(** A line of three points, as the decoder hands it over: a dict that holds
    the list of the points. *)
Definition line_geometry : pyval :=
  PDict [("type", PStr "LineString");
         ("coordinates",
          PList [PList [PInt 0; PInt 0]; PList [PInt 10; PInt 0];
                 PList [PInt 10; PInt 10]])].

(** C6, as stated, fails: a geometry that is a dict is returned as it is,
    with the lists that it holds, however long they are. *)
Lemma truncate_geometry_keeps_dict :
  truncate_geometry line_geometry 2 = line_geometry
  ∧ every_list_at_most 2 (truncate_geometry line_geometry 2) = false
  ∧ ¬ (forall geom n, 0 <= n -> every_list_at_most n (truncate_geometry geom n) = true).
Proof.
  split; [reflexivity|]. split; [reflexivity|].
  intros Hall. specialize (Hall line_geometry 2 ltac:(lia)). discriminate Hall.
Qed.

(** C6, amended: for a non-negative [max_coords], every list that is met
    from the result through lists alone (the result itself, its elements
    that are lists, and so on) has at most [max_coords] elements; the result
    for a list is made of the truncations of its first [max_coords]
    elements, position by position; anything that is not a list is returned
    as it is, a dict with the lists that it holds. *)
Theorem truncate_geometry_spec (geom : pyval) (n : Z) :
  0 <= n ->
  lists_at_most n (truncate_geometry geom n)
  ∧ (forall items, geom = PList items ->
       exists trimmed,
         truncate_geometry geom n = PList trimmed
         ∧ length trimmed = Nat.min (Z.to_nat n) (length items)
         ∧ forall (i : nat) item, (Z.of_nat i < n) -> items !! i = Some item ->
             trimmed !! i = Some (truncate_geometry item n))
  ∧ (is_list geom = false -> truncate_geometry geom n = geom).
Proof.
  intros Hn. split; [by apply truncate_geometry_bounded|].
  split; [|apply truncate_geometry_leaf].
  intros items ->. rewrite truncate_geometry_list.
  unfold slice_to. rewrite (proj2 (Z.leb_le 0 n)) by done.
  eexists. split; [reflexivity|]. split.
  - by rewrite length_map, length_take.
  - intros i item Hi Hitem. rewrite list_lookup_fmap, lookup_take_lt by lia.
    by rewrite Hitem.
Qed.

Definition sample_geometry : pyval :=
  PList [PList [PInt 0; PInt 0]; PList [PInt 10; PInt 0; PInt 7];
         PList [PInt 10; PInt 10]].

Lemma truncate_geometry_spec_witness :
  0 <= 2
  ∧ truncate_geometry sample_geometry 2
    = PList [PList [PInt 0; PInt 0]; PList [PInt 10; PInt 0]]
  ∧ lists_at_most 2 (truncate_geometry sample_geometry 2).
Proof.
  split; [lia|]. split; [reflexivity|].
  apply (truncate_geometry_spec sample_geometry 2). lia.
Defined.

(** *** The URL builder *)

Definition is_filter (kv : string * string) : Prop := fst kv = "filters[0]".

#[local] Instance is_filter_dec kv : Decision (is_filter kv).
Proof. unfold is_filter. apply _. Defined.

Definition matched_filter (choice : string) : string * string :=
  ("filters[0]", "matched IN ('" +:+ choice +:+ "')").

(** The parameters that [adjust_matched_filter] encodes: those of the URL
    that are not [filters[0]], then the filter of the choice. *)
Definition adjusted_items (items : list (string * string)) (choice : string)
  : list (string * string) :=
  filter (fun kv => ¬ is_filter kv) items
  ++ (if decide (choice ≠ "any") then [matched_filter choice] else []).

Section MatchedFilter.
Context {U : UrlLib}.

(** [adjust_matched_filter] returns when [urlsplit] and [urlencode] do, and
    raises what they raise. *)
Lemma adjust_matched_filter_Ok (url choice : string) (parts : SplitResult) (q : string) :
  urlsplit url = Ok parts ->
  urlencode (adjusted_items (parse_qsl (query parts)) choice) = Ok q ->
  adjust_matched_filter url (Some choice) = Ok (urlunsplit (with_query parts q)).
Proof.
  unfold adjust_matched_filter, adjusted_items, matched_filter. intros -> Hq.
  cbn zeta. destruct (decide (choice ≠ "any")); rewrite ?app_nil_r in Hq;
    match type of Hq with
    | ?encoded = _ =>
        match goal with
        | |- context [urlencode ?items] => change (urlencode items) with encoded
        end
    end; by rewrite Hq.
Qed.

Lemma adjust_matched_filter_inv (url choice url' : string) :
  adjust_matched_filter url (Some choice) = Ok url' ->
  exists parts q,
    urlsplit url = Ok parts
    ∧ urlencode (adjusted_items (parse_qsl (query parts)) choice) = Ok q
    ∧ url' = urlunsplit (with_query parts q).
Proof.
  unfold adjust_matched_filter, adjusted_items, matched_filter.
  destruct (urlsplit url) as [parts|]; [|done]. cbn zeta.
  destruct (decide (choice ≠ "any")).
  - destruct (urlencode _) as [q|] eqn:Hq; [|done]. intros [= <-]. by exists parts, q.
  - destruct (urlencode _) as [q|] eqn:Hq; [|done]. intros [= <-].
    exists parts, q. rewrite app_nil_r. by repeat split.
Qed.

Lemma adjust_matched_filter_Raise (url choice : string) (exc : py_exception) :
  urlsplit url = Raise exc -> adjust_matched_filter url (Some choice) = Raise exc.
Proof. unfold adjust_matched_filter. by intros ->. Qed.

Lemma filter_not_filter (items : list (string * string)) :
  filter is_filter (filter (fun kv => ¬ is_filter kv) items) = [].
Proof.
  induction items as [|kv items IH]; [done|].
  rewrite (filter_cons (fun kv => ¬ is_filter kv)).
  destruct (decide (¬ is_filter kv)) as [Hkv|Hkv]; [|done].
  rewrite filter_cons. by destruct (decide (is_filter kv)).
Qed.

Lemma filter_not_filter_idemp (items : list (string * string)) :
  filter (fun kv => ¬ is_filter kv) (filter (fun kv => ¬ is_filter kv) items)
  = filter (fun kv => ¬ is_filter kv) items.
Proof.
  induction items as [|kv items IH]; [done|].
  rewrite filter_cons.
  destruct (decide (¬ is_filter kv)) as [Hkv|Hkv]; [|done].
  rewrite filter_cons. destruct (decide (¬ is_filter kv)); [|done].
  by rewrite IH.
Qed.

Lemma adjusted_items_filter (items : list (string * string)) (choice : string) :
  filter is_filter (adjusted_items items choice)
  = (if decide (choice ≠ "any") then [matched_filter choice] else [])
  ∧ filter (fun kv => ¬ is_filter kv) (adjusted_items items choice)
    = filter (fun kv => ¬ is_filter kv) items.
Proof.
  unfold adjusted_items. rewrite !filter_app, filter_not_filter, filter_not_filter_idemp.
  destruct (decide (choice ≠ "any")).
  - rewrite !filter_cons, !filter_nil.
    destruct (decide (is_filter (matched_filter choice))) as [_|Hnot];
      [|by destruct Hnot].
    destruct (decide (¬ is_filter (matched_filter choice))) as [Hnot|_];
      [by destruct Hnot|].
    rewrite app_nil_r. by split.
  - rewrite !filter_nil, !app_nil_r. by split.
Qed.
End MatchedFilter.

(** The claim of C3, for one URL: with each of the three choices
    [adjust_matched_filter] returns a URL. *)
Definition adjusts `{UrlLib} (url : string) : Prop :=
  forall choice, choice ∈ ["true"; "false"; "any"] ->
    exists url', adjust_matched_filter url (Some choice) = Ok url'.



(** The default URL of the script, rebuilt by the reference implementation. *)
Definition default_query_true : string :=
  "datasets%5B0%5D=public-global-sentinel2-presence%3Av3.0"
  +:+ "&format=MVT&max-points=5000"
  +:+ "&properties%5B0%5D=bearing%2Cshipname%2Cvessel_id"
  +:+ "&date-range=2025-08-01T00%3A00%3A00.000Z%2C2025-11-24T00%3A00%3A00.000Z"
  +:+ "&filters%5B0%5D=matched+IN+%28%27true%27%29".

Definition default_url_true : string :=
  "https://gateway.api.globalfishingwatch.org/v3/4wings/tile/position/12/3294/1837"
  +:+ "?" +:+ default_query_true.

Example adjust_default_url_true :
  @adjust_matched_filter UrllibRef.reference DEFAULT_URL (Some "true")
  = Ok default_url_true.
Proof. vm_compute. reflexivity. Qed.


End Features.

(** ** get_features.py: the consumers of a tile and [main]

    The consumers receive the decoded tile as a Python object: dicts and
    lists are objects of a store, reached through references, so that what a
    function does to the objects it is given can be stated. *)

Module FeaturesRun.

Inductive val :=
  | VNone
  | VBool (b : bool)
  | VInt (z : Z)
  | VFloat (bits : Z)
  | VStr (s : string)
  | VRef (l : nat).

Inductive obj :=
  | OList (items : list val)
  | ODict (entries : list (string * val)).

(** The store of objects (a reference is an index in it) and the two
    streams of the console. *)
Record state := mkState {
  objects : list obj;
  stdout : list string;
  stderr : list string
}.

Definition initial : state := mkState [] [] [].

(** A computation of the script: it ends with a value or with an exception,
    in a new state. *)
Definition M (A : Type) : Type := state -> result A * state.

Definition ret {A} (a : A) : M A := fun s => (Ok a, s).

Definition bind {A B} (m : M A) (f : A -> M B) : M B :=
  fun s =>
    match m s with
    | (Ok a, s') => f a s'
    | (Raise e, s') => (Raise e, s')
    end.

Definition raise {A} (t : exc_class) (msg : string) : M A :=
  fun s => (Raise (PyExc t msg), s).

(** The outcome of a call that acts on no object and prints nothing. *)
Definition lift {A} (r : result A) : M A := fun s => (r, s).

Declare Scope run_scope.
Delimit Scope run_scope with run.
Notation "x <- m ;; k" := (bind m (fun x => k))
  (at level 100, m at next level, right associativity) : run_scope.
Notation "m ;; k" := (bind m (fun _ => k))
  (at level 100, right associativity) : run_scope.
Open Scope run_scope.

Definition load (l : nat) : M obj :=
  fun s =>
    match objects s !! l with
    | Some o => (Ok o, s)
    | None => (Raise (PyExc RuntimeError "no such object"), s)
    end.

(** A new object: its reference is the next free index. *)
Definition alloc (o : obj) : M val :=
  fun s =>
    (Ok (VRef (length (objects s))),
     mkState (objects s ++ [o]) (stdout s) (stderr s)).

(** An assignment into an object ([d[key] = value], [l.append(x)]): the
    object at [l] is replaced. *)
Definition assign (l : nat) (o : obj) : M unit :=
  fun s => (Ok tt, mkState (<[l:=o]> (objects s)) (stdout s) (stderr s)).

Definition print (line : string) : M unit :=
  fun s => (Ok tt, mkState (objects s) (stdout s ++ [line]) (stderr s)).

Definition eprint (line : string) : M unit :=
  fun s => (Ok tt, mkState (objects s) (stdout s) (stderr s ++ [line])).

(** [for idx, x in enumerate(xs, start=idx)]. *)
Definition for_each {A} (body : nat -> A -> M unit) : list A -> nat -> M unit :=
  fix loop (xs : list A) (idx : nat) : M unit :=
    match xs with
    | [] => ret tt
    | x :: xs => body idx x ;; loop xs (S idx)
    end.

(** A list comprehension [[f(x) for x in xs]]. *)
Definition for_list {A B} (f : A -> M B) : list A -> M (list B) :=
  fix loop (xs : list A) : M (list B) :=
    match xs with
    | [] => ret []
    | x :: xs => y <- f x ;; ys <- loop xs ;; ret (y :: ys)
    end.

(** *** The operations of Python that the consumers use *)

Fixpoint lookup_key (entries : list (string * val)) (key : string) : option val :=
  match entries with
  | [] => None
  | (k, v) :: entries => if String.eqb k key then Some v else lookup_key entries key
  end.

(** [d.get(key, default)]: only a dict has [get]. *)
Definition py_get (d : val) (key : string) (default : val) : M val :=
  match d with
  | VRef l =>
      o <- load l ;;
      match o with
      | ODict entries => ret (from_option id default (lookup_key entries key))
      | OList _ => raise AttributeError "'list' object has no attribute 'get'"
      end
  | _ => raise AttributeError "object has no attribute 'get'"
  end.

(** [d.items()]. *)
Definition py_items (d : val) : M (list (string * val)) :=
  match d with
  | VRef l =>
      o <- load l ;;
      match o with
      | ODict entries => ret entries
      | OList _ => raise AttributeError "'list' object has no attribute 'items'"
      end
  | _ => raise AttributeError "object has no attribute 'items'"
  end.

(** [bool(v)]. *)
Definition py_truthy (v : val) : M bool :=
  match v with
  | VNone => ret false
  | VBool b => ret b
  | VInt z => ret (negb (z =? 0))
  | VFloat bits => ret (negb ((bits =? 0) || (bits =? 2 ^ 63)))
  | VStr s => ret (negb (String.eqb s ""))
  | VRef l =>
      o <- load l ;;
      match o with
      | OList items => ret (match items with [] => false | _ => true end)
      | ODict entries => ret (match entries with [] => false | _ => true end)
      end
  end.

(** [isinstance(v, list)]. *)
Definition py_is_list (v : val) : M bool :=
  match v with
  | VRef l =>
      o <- load l ;;
      match o with OList _ => ret true | ODict _ => ret false end
  | _ => ret false
  end.

(** [len(v)]. *)
Definition py_len (v : val) : M Z :=
  match v with
  | VStr s => ret (Z.of_nat (String.length s))
  | VRef l =>
      o <- load l ;;
      match o with
      | OList items => ret (Z.of_nat (length items))
      | ODict entries => ret (Z.of_nat (length entries))
      end
  | _ => raise TypeError "object has no len()"
  end.

Definition str_slice_to (s : string) (n : Z) : string :=
  string_of_list_ascii (slice_to (list_ascii_of_string s) n).

(** [v[:n]]: a new list, or a new string. *)
Definition py_slice_to (v : val) (n : Z) : M val :=
  match v with
  | VStr s => ret (VStr (str_slice_to s n))
  | VRef l =>
      o <- load l ;;
      match o with
      | OList items => alloc (OList (slice_to items n))
      | ODict _ => raise TypeError "unhashable type: 'slice'"
      end
  | _ => raise TypeError "object is not subscriptable"
  end.

(** What a [for] loop walks through. *)
Definition py_iter (v : val) : M (list val) :=
  match v with
  | VStr s => ret (map (fun c => VStr (String c "")) (list_ascii_of_string s))
  | VRef l =>
      o <- load l ;;
      match o with
      | OList items => ret items
      | ODict entries => ret (map (fun kv => VStr (fst kv)) entries)
      end
  | _ => raise TypeError "object is not iterable"
  end.

(** [v[0]]. *)
Definition py_first (v : val) : M val :=
  match v with
  | VRef l =>
      o <- load l ;;
      match o with
      | OList (item :: _) => ret item
      | OList [] => raise RuntimeError "list index out of range"
      | ODict _ => raise RuntimeError "KeyError: 0"
      end
  | VStr (String c _) => ret (VStr (String c ""))
  | VStr "" => raise RuntimeError "string index out of range"
  | _ => raise TypeError "object is not subscriptable"
  end.

Definition py_setitem (d : val) (key : string) (value : val) : M unit :=
  match d with
  | VRef l =>
      o <- load l ;;
      match o with
      | ODict entries => assign l (ODict (dict_set entries key value))
      | OList _ => raise TypeError "list indices must be integers or slices, not str"
      end
  | _ => raise TypeError "object does not support item assignment"
  end.

(** A value of the decoder, built in the store. *)
Fixpoint alloc_value (v : pyval) : M val :=
  match v with
  | PNone => ret VNone
  | PBool b => ret (VBool b)
  | PInt z => ret (VInt z)
  | PFloat bits => ret (VFloat bits)
  | PStr s => ret (VStr s)
  | PList items =>
      items <- for_list alloc_value items ;;
      alloc (OList items)
  | PDict entries =>
      entries <-
        for_list (fun kv => let '(k, v) := kv in v <- alloc_value v ;; ret (k, v))
          entries ;;
      alloc (ODict entries)
  end.

(** *** The script *)

Record response := mkResponse {
  status_code : Z;
  reason : string;
  headers_text : string;
  text : string;
  content : list Wire.byte
}.

Record arguments := mkArgs {
  arg_url : string;
  arg_max_features : Z;
  arg_token : option string;
  arg_origin : option string;
  arg_debug_http : bool;
  arg_matched : option string;
  arg_print_geometry : bool;
  arg_geometry_max_features : Z;
  arg_geometry_max_coords : Z
}.

Section Script.
Context {U : UrlLib}.

(** [str(v)] as an f-string shows it and [json.dumps(v, ensure_ascii=False)]:
    both read the objects and change none. *)
Variable py_str : list obj -> val -> string.
Variable json_dumps : list obj -> val -> result string.

(** [requests.get(url, timeout=..., headers=...)]: the response of the
    server, or the exception of the transport. *)
Variable requests_get : string -> list (string * val) -> result response.

(** [mapbox_vector_tile.decode]. *)
Variable mvt_decode : list Wire.byte -> result pyval.

(** The depth of recursion that the interpreter allows. *)
Variable recursion_limit : nat.

Definition show (v : val) : M string := fun s => (Ok (py_str (objects s) v), s).

Definition dumps (v : val) : M string :=
  fun s =>
    match json_dumps (objects s) v with
    | Ok text => (Ok text, s)
    | Raise e => (Raise e, s)
    end.

Definition is_nonempty (o : option string) : bool :=
  match o with
  | Some s => negb (String.eqb s "")
  | None => false
  end.

Definition fetch_tile (url : string) (token origin : option string)
    (debug_http : bool) : M (list Wire.byte) :=
  headers <- alloc (ODict [("Accept", VStr "application/x-protobuf")]) ;;
  (if is_nonempty token
   then py_setitem headers "Authorization" (VStr ("Bearer " +:+ default "" token))
   else ret tt) ;;
  (if is_nonempty origin
   then py_setitem headers "Origin" (VStr (default "" origin))
   else ret tt) ;;
  sent <- py_items headers ;;
  match requests_get url sent with
  | Raise e => fun s => (Raise e, s)
  | Ok response =>
      (if debug_http
       then print ("HTTP " +:+ pretty (status_code response) +:+ " "
                   +:+ reason response +:+ ", Headers: " +:+ headers_text response)
       else ret tt) ;;
      if (400 <=? status_code response) && (status_code response <? 600)
      then
        eprint ("Response body: " +:+ text response) ;;
        raise HTTPError
          (pretty (status_code response)
           +:+ (if status_code response <? 500 then " Client Error: " else " Server Error: ")
           +:+ reason response +:+ " for url: " +:+ url)
      else ret (content response)
  end.

Definition decode_tile (tile_bytes : list Wire.byte) : M val :=
  match mvt_decode tile_bytes with
  | Ok tile => alloc_value tile
  | Raise e => fun s => (Raise e, s)
  end.

Definition summarize_feature (idx : nat) (feature : val) : M unit :=
  geom_type <- py_get feature "type" VNone ;;
  empty <- alloc (ODict []) ;;
  props <- py_get feature "properties" empty ;;
  geometry <- py_get feature "geometry" VNone ;;
  truthy <- py_truthy geometry ;;
  is_list <- (if truthy then py_is_list geometry else ret false) ;;
  first_geom <-
    (if truthy && is_list then py_first geometry
     else if truthy then ret geometry
     else ret VNone) ;;
  shown_type <- show geom_type ;;
  shown_geom <- show first_geom ;;
  shown_props <- dumps props ;;
  print ("  Feature " +:+ pretty idx +:+ ": type=" +:+ shown_type
         +:+ " sample_geom=" +:+ shown_geom +:+ " properties=" +:+ shown_props).

Definition omitted (count max_features : Z) : M unit :=
  if max_features <? count
  then print ("  ... " +:+ pretty (count - max_features) +:+ " more features omitted ...")
  else ret tt.

Definition summarize_layer (max_features : Z) (layer : string * val) : M unit :=
  let '(layer_name, layer_data) := layer in
  empty <- alloc (OList []) ;;
  features <- py_get layer_data "features" empty ;;
  count <- py_len features ;;
  print (nl +:+ "Layer: " +:+ layer_name +:+ " | feature count: " +:+ pretty count) ;;
  shown <- py_slice_to features max_features ;;
  shown <- py_iter shown ;;
  for_each summarize_feature shown 1 ;;
  count <- py_len features ;;
  omitted count max_features.

Definition summarize_layers (tile : val) (max_features : Z) : M unit :=
  truthy <- py_truthy tile ;;
  if negb truthy then print "No layers found in the tile."
  else
    layers <- py_items tile ;;
    for_each (fun _ layer => summarize_layer max_features layer) layers 0.

(** [truncate_geometry] on objects: the slice and the result are new lists.
    Every call takes one level of the recursion that the interpreter
    allows. *)
Fixpoint truncate_geometry (depth : nat) (geom : val) (max_coords : Z) : M val :=
  match depth with
  | O => raise RecursionError "maximum recursion depth exceeded"
  | S depth =>
      is_list <- py_is_list geom ;;
      if negb is_list then ret geom
      else
        trimmed <- py_slice_to geom max_coords ;;
        trimmed <- py_iter trimmed ;;
        items <- for_list (fun item => truncate_geometry depth item max_coords) trimmed ;;
        alloc (OList items)
  end.

Definition print_feature_geometry (max_coords : Z) (idx : nat) (feature : val)
  : M unit :=
  geom_type <- py_get feature "type" VNone ;;
  geometry <- py_get feature "geometry" VNone ;;
  trimmed_geom <- truncate_geometry recursion_limit geometry max_coords ;;
  shown_type <- show geom_type ;;
  shown_geom <- show trimmed_geom ;;
  print ("  Feature " +:+ pretty idx +:+ ": type=" +:+ shown_type
         +:+ " geometry=" +:+ shown_geom).

Definition print_layer_geometries (max_features max_coords : Z)
    (layer : string * val) : M unit :=
  let '(layer_name, layer_data) := layer in
  empty <- alloc (OList []) ;;
  features <- py_get layer_data "features" empty ;;
  truthy <- py_truthy features ;;
  if negb truthy then ret tt
  else
    print (nl +:+ "Layer: " +:+ layer_name) ;;
    shown <- py_slice_to features max_features ;;
    shown <- py_iter shown ;;
    for_each (print_feature_geometry max_coords) shown 1 ;;
    count <- py_len features ;;
    omitted count max_features.

Definition print_geometries (tile : val) (max_features max_coords : Z) : M unit :=
  truthy <- py_truthy tile ;;
  if negb truthy then print (nl +:+ "No geometries to display.")
  else
    print (nl +:+ "Geometries (max_features=" +:+ pretty max_features
           +:+ ", max_coords=" +:+ pretty max_coords +:+ "):") ;;
    layers <- py_items tile ;;
    for_each (fun _ layer => print_layer_geometries max_features max_coords layer)
      layers 0.

(** The body of the [try] of [main]. *)
Definition main_body (args : arguments) : M unit :=
  url <- lift (Features.adjust_matched_filter (arg_url args) (arg_matched args)) ;;
  print ("Requesting tile..." +:+ nl +:+ url +:+ nl) ;;
  raw_tile <- fetch_tile url (arg_token args) (arg_origin args) (arg_debug_http args) ;;
  print ("Received " +:+ pretty (length raw_tile) +:+ " bytes. Decoding..." +:+ nl) ;;
  decoded <- decode_tile raw_tile ;;
  summarize_layers decoded (arg_max_features args) ;;
  if arg_print_geometry args
  then print_geometries decoded (arg_geometry_max_features args)
         (arg_geometry_max_coords args)
  else ret tt.

(** [main], from the parsed arguments: the exit status and the final state. *)
Definition main (args : arguments) (s : state) : Z * state :=
  match main_body args s with
  | (Ok _, s') => (0, s')
  | (Raise exc, s') =>
      if decide (exc_type exc = HTTPError)
      then (1, snd (eprint ("HTTP error: " +:+ exc_str exc) s'))
      else (1, snd (eprint ("Unexpected error: " +:+ exc_str exc) s'))
  end.

End Script.

End FeaturesRun.

(** ** What the consumers leave unchanged, and what they print *)

Module FeaturesFacts.
Import FeaturesRun.

(** A computation preserves [R] when its final state is related to its
    initial state, whether it returns or raises. *)
Definition preserves {A} (R : relation state) (m : M A) : Prop :=
  forall s, R s (snd (m s)).

Section Preserves.
Context (R : relation state) {HR : PreOrder R}.

Lemma preserves_ret {A} (a : A) : preserves R (ret a).
Proof. intros s. reflexivity. Qed.

Lemma preserves_raise {A} t msg : preserves R (@raise A t msg).
Proof. intros s. reflexivity. Qed.

Lemma preserves_bind {A B} (m : M A) (f : A -> M B) :
  preserves R m -> (forall a, preserves R (f a)) -> preserves R (bind m f).
Proof.
  intros Hm Hf s. unfold bind. specialize (Hm s).
  destruct (m s) as [[a|e] s']; simpl in *; [|done].
  etrans; [exact Hm|apply Hf].
Qed.

Lemma preserves_for_each {A} (body : nat -> A -> M unit) xs idx :
  (forall i x, preserves R (body i x)) -> preserves R (for_each body xs idx).
Proof.
  intros Hbody. revert idx. induction xs as [|x xs IH]; intros idx; simpl.
  - apply preserves_ret.
  - apply preserves_bind; [apply Hbody|]. intros _. apply IH.
Qed.

Lemma preserves_for_list {A B} (f : A -> M B) xs :
  (forall x, preserves R (f x)) -> preserves R (for_list f xs).
Proof.
  intros Hf. induction xs as [|x xs IH]; simpl.
  - apply preserves_ret.
  - apply preserves_bind; [apply Hf|]. intros y.
    apply preserves_bind; [apply IH|]. intros ys. apply preserves_ret.
Qed.

Lemma preserves_pure {A} (f : state -> result A) :
  preserves R (fun s => (f s, s)).
Proof. intros s. reflexivity. Qed.

Lemma preserves_lift {A} (r : result A) : preserves R (lift r).
Proof. intros s. reflexivity. Qed.

End Preserves.

(** One step of a proof that a computation preserves a relation. *)
Ltac preserves_step :=
  match goal with
  | |- preserves ?R (bind _ _) => apply (preserves_bind R); [|intros ?]
  | |- preserves ?R (ret _) => apply (preserves_ret R)
  | |- preserves ?R (raise _ _) => apply (preserves_raise R)
  | |- preserves ?R (lift _) => apply (preserves_lift R)
  | |- preserves ?R (for_each _ _ _) => apply (preserves_for_each R); intros ? ?
  | |- preserves ?R (for_list _ _) => apply (preserves_for_list R); intros ?
  | |- preserves _ (if ?b then _ else _) => destruct b
  | |- preserves _ (match ?x with _ => _ end) => destruct x
  end.

(** Every object of the store is still there, as it was. *)
Definition unchanged (s s' : state) : Prop :=
  forall l o, objects s !! l = Some o -> objects s' !! l = Some o.

#[export] Instance unchanged_preorder : PreOrder unchanged.
Proof. split; [by intros s l o|]. intros s1 s2 s3 H12 H23 l o Hl. by apply H23, H12. Qed.

(** The console has what it had, and maybe more lines. *)
Definition printed_more (s s' : state) : Prop :=
  exists lines, stdout s' = stdout s ++ lines.

#[export] Instance printed_more_preorder : PreOrder printed_more.
Proof.
  split.
  - intros s. exists []. by rewrite app_nil_r.
  - intros s1 s2 s3 [l1 H1] [l2 H2]. exists (l1 ++ l2). by rewrite H2, H1, app_assoc.
Qed.

(** Nothing was printed. *)
Definition silent (s s' : state) : Prop := stdout s' = stdout s.

#[export] Instance silent_preorder : PreOrder silent.
Proof. split; [done|]. intros s1 s2 s3 H1 H2. unfold silent in *. congruence. Qed.

Section Primitives.
Context {U : UrlLib}.
Variable py_str : list obj -> val -> string.
Variable json_dumps : list obj -> val -> result string.

Lemma load_unchanged l : preserves unchanged (load l).
Proof. intros s. unfold load. by destruct (objects s !! l). Qed.

Lemma alloc_unchanged o : preserves unchanged (alloc o).
Proof. intros s l o' Hl. simpl. by apply lookup_app_l_Some. Qed.

Lemma print_unchanged line : preserves unchanged (print line).
Proof. by intros s l o. Qed.

Lemma show_unchanged v : preserves unchanged (show py_str v).
Proof. by intros s l o. Qed.

Lemma dumps_unchanged v : preserves unchanged (dumps json_dumps v).
Proof. intros s. unfold dumps. by destruct (json_dumps (objects s) v). Qed.

Lemma load_silent l : preserves silent (load l).
Proof. intros s. unfold load. by destruct (objects s !! l). Qed.

Lemma alloc_silent o : preserves silent (alloc o).
Proof. by intros s. Qed.

Lemma show_silent v : preserves silent (show py_str v).
Proof. by intros s. Qed.

Lemma dumps_silent v : preserves silent (dumps json_dumps v).
Proof. intros s. unfold dumps. by destruct (json_dumps (objects s) v). Qed.

Lemma silent_printed_more {A} (m : M A) : preserves silent m -> preserves printed_more m.
Proof. intros Hm s. exists []. rewrite app_nil_r. apply Hm. Qed.

Lemma print_printed_more line : preserves printed_more (print line).
Proof. intros s. by exists [line]. Qed.

Lemma load_printed_more l : preserves printed_more (load l).
Proof. apply silent_printed_more, load_silent. Qed.

Lemma alloc_printed_more o : preserves printed_more (alloc o).
Proof. apply silent_printed_more, alloc_silent. Qed.

Lemma show_printed_more v : preserves printed_more (show py_str v).
Proof. apply silent_printed_more, show_silent. Qed.

Lemma dumps_printed_more v : preserves printed_more (dumps json_dumps v).
Proof. apply silent_printed_more, dumps_silent. Qed.

End Primitives.

Create HintDb preserves.
#[export] Hint Resolve load_unchanged alloc_unchanged print_unchanged show_unchanged
  dumps_unchanged load_silent alloc_silent show_silent dumps_silent
  print_printed_more load_printed_more alloc_printed_more show_printed_more
  dumps_printed_more : preserves.

Ltac preserves_auto := repeat preserves_step; eauto with preserves.

Section Operations.
Context (R : relation state) {HR : PreOrder R}.
Hypothesis load_R : forall l, preserves R (load l).
Hypothesis alloc_R : forall o, preserves R (alloc o).

Lemma py_get_preserves d key default : preserves R (py_get d key default).
Proof. unfold py_get. preserves_auto. Qed.

Lemma py_items_preserves d : preserves R (py_items d).
Proof. unfold py_items. preserves_auto. Qed.

Lemma py_truthy_preserves v : preserves R (py_truthy v).
Proof. unfold py_truthy. preserves_auto. Qed.

Lemma py_is_list_preserves v : preserves R (py_is_list v).
Proof. unfold py_is_list. preserves_auto. Qed.

Lemma py_len_preserves v : preserves R (py_len v).
Proof. unfold py_len. preserves_auto. Qed.

Lemma py_slice_to_preserves v n : preserves R (py_slice_to v n).
Proof. unfold py_slice_to. preserves_auto. Qed.

Lemma py_iter_preserves v : preserves R (py_iter v).
Proof. unfold py_iter. preserves_auto. Qed.

Lemma py_first_preserves v : preserves R (py_first v).
Proof. unfold py_first. preserves_auto. Qed.

End Operations.

#[export] Hint Resolve unchanged_preorder printed_more_preorder silent_preorder
  : preserves.
#[export] Hint Resolve py_get_preserves py_items_preserves py_truthy_preserves
  py_is_list_preserves py_len_preserves py_slice_to_preserves py_iter_preserves
  py_first_preserves : preserves.

Section Consumers.
Context {U : UrlLib}.
Variable py_str : list obj -> val -> string.
Variable json_dumps : list obj -> val -> result string.
Variable recursion_limit : nat.

Lemma truncate_geometry_unchanged depth geom max_coords :
  preserves unchanged (truncate_geometry depth geom max_coords).
Proof.
  revert geom. induction depth as [|depth IH]; intros geom; cbn [truncate_geometry];
    preserves_auto.
Qed.

Lemma omitted_unchanged count max_features :
  preserves unchanged (omitted count max_features).
Proof. unfold omitted. preserves_auto. Qed.

Lemma summarize_feature_unchanged idx feature :
  preserves unchanged (summarize_feature py_str json_dumps idx feature).
Proof. unfold summarize_feature. preserves_auto. Qed.

Lemma summarize_layers_unchanged tile max_features :
  preserves unchanged (summarize_layers py_str json_dumps tile max_features).
Proof.
  unfold summarize_layers, summarize_layer.
  pose proof summarize_feature_unchanged. pose proof omitted_unchanged.
  preserves_auto.
Qed.

Lemma print_geometries_unchanged tile max_features max_coords :
  preserves unchanged
    (print_geometries py_str recursion_limit tile max_features max_coords).
Proof.
  unfold print_geometries, print_layer_geometries, print_feature_geometry.
  pose proof truncate_geometry_unchanged. pose proof omitted_unchanged.
  preserves_auto.
Qed.

End Consumers.

(** An assignment is not of that kind: the model can tell a consumer that
    changes its argument. *)
Example setitem_changes :
  ¬ preserves unchanged (py_setitem (VRef 0) "features" VNone).
Proof.
  intros Hsame.
  specialize (Hsame (mkState [ODict [("features", VInt 1)]] [] []) 0%nat
                (ODict [("features", VInt 1)]) eq_refl).
  discriminate Hsame.
Qed.

(** C7: [summarize_layers], [print_geometries] and [truncate_geometry] leave
    every object of the store as it was (the tile and all that is reached
    from it: layers, features, geometries), whether they return or raise;
    what they build is new objects. *)
Theorem consumers_read_only `{UrlLib} (py_str : list obj -> val -> string)
    (json_dumps : list obj -> val -> result string) (recursion_limit : nat)
    (tile : val) (max_features max_coords : Z) (s : state) :
  unchanged s (snd (summarize_layers py_str json_dumps tile max_features s))
  ∧ unchanged s
      (snd (print_geometries py_str recursion_limit tile max_features max_coords s))
  ∧ (forall depth geom, unchanged s (snd (truncate_geometry depth geom max_coords s))).
Proof.
  split; [apply summarize_layers_unchanged|].
  split; [apply print_geometries_unchanged|].
  intros depth geom. apply truncate_geometry_unchanged.
Qed.

(** *** The tile that the decoder hands to the script

    [mapbox_vector_tile.decode] returns a dict keyed by layer name (the
    script types it [Dict[str, Any]] and walks it with [tile.items()]).  The
    decoder below reads the layers as the specification says ([Wire]) and
    files each of them under its name, in encounter order, as the dict of
    its [extent], its [version], its [features] and its [type]; a feature is
    the dict of its [geometry], its [properties], its [id] and its [type].
    How the library reads the geometry, the properties and the id in the
    bytes of a Feature is not modelled: [parse_feature] stands for it, and
    what it raises ends the decoding. *)

Definition feature_parser : Type :=
  Wire.Layer -> list Wire.byte -> result (pyval * list (string * pyval) * Z).

Section Decoder.
Variable parse_feature : feature_parser.

Definition feature_value (layer : Wire.Layer) (raw : list Wire.byte) : result pyval :=
  match parse_feature layer raw with
  | Raise e => Raise e
  | Ok (geometry, properties, id) =>
      Ok (PDict [("geometry", geometry); ("properties", PDict properties);
                 ("id", PInt id); ("type", PStr "Feature")])
  end.

Fixpoint feature_values (layer : Wire.Layer) (raws : list (list Wire.byte))
  : result (list pyval) :=
  match raws with
  | [] => Ok []
  | raw :: raws =>
      match feature_value layer raw with
      | Raise e => Raise e
      | Ok feature =>
          match feature_values layer raws with
          | Raise e => Raise e
          | Ok features => Ok (feature :: features)
          end
      end
  end.

Definition layer_value (layer : Wire.Layer) : result pyval :=
  match feature_values layer (Wire.features layer) with
  | Raise e => Raise e
  | Ok features =>
      Ok (PDict [("extent", PInt (Wire.extent layer));
                 ("version", PInt (Wire.version layer));
                 ("features", PList features);
                 ("type", PStr "FeatureCollection")])
  end.

(** The layers are filed one after the other: [tile] is the dict so far. *)
Fixpoint tile_dict (layers : list Wire.Layer) (tile : list (string * pyval))
  : result (list (string * pyval)) :=
  match layers with
  | [] => Ok tile
  | layer :: layers =>
      match layer_value layer with
      | Raise e => Raise e
      | Ok value => tile_dict layers (dict_set tile (Wire.name layer) value)
      end
  end.

Definition mvt_decode (buffer : list Wire.byte) : result pyval :=
  match Wire.tile_layers buffer with
  | Wire.Fail e => Raise (PyExc DecodeError (Wire.message e))
  | Wire.Done layers =>
      match tile_dict layers [] with
      | Raise e => Raise e
      | Ok tile => Ok (PDict tile)
      end
  end.

End Decoder.

(** Stand-ins for [str] and [json.dumps] in the closed examples.
    [plain_str] is exact on [None], on the booleans, the integers and the
    strings, and on the lists and dicts made of them, as long as their
    strings have nothing that [repr] writes with a backslash or between
    double quotes; [plain_dumps] is exact on the empty dict. *)
Fixpoint show_value (fuel : nat) (objs : list obj) (quoted : bool) (v : val) : string :=
  match v with
  | VNone => "None"
  | VBool true => "True"
  | VBool false => "False"
  | VInt z => pretty z
  | VStr s => if quoted then "'" +:+ s +:+ "'" else s
  | VFloat _ => "<float>"
  | VRef l =>
      match fuel with
      | O => "<object>"
      | S fuel =>
          match objs !! l with
          | Some (OList items) =>
              "[" +:+ String.concat ", " (map (show_value fuel objs true) items) +:+ "]"
          | Some (ODict entries) =>
              "{"
              +:+ String.concat ", "
                    (map (fun kv => "'" +:+ fst kv +:+ "': "
                                    +:+ show_value fuel objs true (snd kv)) entries)
              +:+ "}"
          | None => "<object>"
          end
      end
  end.

Definition plain_str (objs : list obj) (v : val) : string := show_value 100 objs false v.

Definition plain_dumps (_ : list obj) (_ : val) : result string := Ok "{}".

(** A stand-in for the parsing of a Feature in the closed examples.  It
    reads a feature whose bytes are the type [Point] and one [MoveTo] with
    its two coordinates, and makes of it the point that the library makes
    (second coordinate counted from the bottom of the layer, no property, id
    0); it refuses every other feature. *)
Definition point_feature : feature_parser :=
  fun layer raw =>
    let refused := Raise (PyExc RuntimeError "feature not modelled") in
    match raw with
    | Byte.x18 :: Byte.x01 :: Byte.x22 :: len :: Byte.x09 :: coordinates =>
        if Wire.byte_val len =? Z.of_nat (S (length coordinates)) then
          match Wire.read_zigzag (Wire.open_reader coordinates) with
          | Wire.Done (x, r) =>
              match Wire.read_zigzag r with
              | Wire.Done (y, r) =>
                  match Wire.remaining r with
                  | [] =>
                      Ok (PDict [("type", PStr "Point");
                                 ("coordinates",
                                  PList [PInt x; PInt (Wire.extent layer - y)])],
                          [], 0)
                  | _ :: _ => refused
                  end
              | Wire.Fail _ => refused
              end
          | Wire.Fail _ => refused
          end
        else refused
    | _ => refused
    end.

(** A server that answers every request with [content]. *)
Definition served (content : list Wire.byte)
  : string -> list (string * val) -> result response :=
  fun _ _ => Ok (mkResponse 200 "OK" "{}" "" content).

Definition default_args : arguments :=
  mkArgs Features.DEFAULT_URL 3 None None false None false 5 10.

(** One run of the script against a server that serves [content]: the exit
    status, and the console. *)
Definition run (content : list Wire.byte) : Z * (list string * list string) :=
  let '(status, s) :=
    @main UrllibRef.reference plain_str plain_dumps (served content)
      (mvt_decode point_feature) 1000 default_args initial in
  (status, (stdout s, stderr s)).

(** C2: the empty buffer decodes, without error, to a tile with no layer;
    in the store it is a new, empty dict. *)
Theorem decode_tile_empty (parse_feature : feature_parser) (s : state) :
  Wire.tile_layers [] = Wire.Done []
  ∧ mvt_decode parse_feature [] = Ok (PDict [])
  ∧ decode_tile (mvt_decode parse_feature) [] s
    = (Ok (VRef (length (objects s))),
       mkState (objects s ++ [ODict []]) (stdout s) (stderr s)).
Proof. by repeat split. Qed.

(** *** Failures of the decoder in [main] *)

Section Failure.
Context {U : UrlLib}.
Variable py_str : list obj -> val -> string.
Variable json_dumps : list obj -> val -> result string.
Variable requests_get : string -> list (string * val) -> result response.
Variable decode : list Wire.byte -> result pyval.
Variable recursion_limit : nat.

(** C5, amended: when the URL is adjusted, the tile is fetched and its
    decoding fails, the caller gets exit status 1 and one line on standard
    error, [Unexpected error: ] followed by the message of the error (no
    kind, no byte offset beside it); standard output ends with the line that
    announces the decoding, nothing of a tile is printed, and no object is
    built for it. *)
Theorem decode_failure_reported (args : arguments) (s s1 : state) (url : string)
    (raw_tile : list Wire.byte) (exc : py_exception) :
  Features.adjust_matched_filter (arg_url args) (arg_matched args) = Ok url ->
  fetch_tile requests_get url (arg_token args) (arg_origin args) (arg_debug_http args)
    (snd (print ("Requesting tile..." +:+ nl +:+ url +:+ nl) s))
  = (Ok raw_tile, s1) ->
  decode raw_tile = Raise exc ->
  exc_type exc ≠ HTTPError ->
  main py_str json_dumps requests_get decode recursion_limit args s
  = (1, mkState (objects s1)
          (stdout s1
           ++ ["Received " +:+ pretty (length raw_tile) +:+ " bytes. Decoding..." +:+ nl])
          (stderr s1 ++ ["Unexpected error: " +:+ exc_str exc])).
Proof.
  intros Hurl Hfetch Hdecode Hclass.
  unfold main, main_body.
  unfold bind at 1. unfold lift. rewrite Hurl.
  unfold bind at 1. cbn [print]. cbn [print snd] in Hfetch.
  unfold bind at 1. rewrite Hfetch.
  unfold bind at 1. cbn [print].
  unfold bind at 1. unfold decode_tile. rewrite Hdecode.
  rewrite decide_False by done. reflexivity.
Qed.

End Failure.

(** A Layer field that announces five bytes where one is left, and a tag cut
    short after a field that is skipped. *)
Definition truncated_layer : list Wire.byte := [Byte.x1a; Byte.x05; Byte.x00].
Definition truncated_tag : list Wire.byte := [Byte.x08; Byte.x00; Byte.x80].

Lemma decode_failure_reported_witness :
  run truncated_layer
  = (1, (["Requesting tile..." +:+ nl +:+ Features.DEFAULT_URL +:+ nl;
          "Received 3 bytes. Decoding..." +:+ nl],
         ["Unexpected error: truncated input"])).
Proof.
  unfold run.
  rewrite (decode_failure_reported (U:=UrllibRef.reference) plain_str plain_dumps
             (served truncated_layer) (mvt_decode point_feature) 1000 default_args
             initial
             (mkState [ODict [("Accept", VStr "application/x-protobuf")]]
                ["Requesting tile..." +:+ nl +:+ Features.DEFAULT_URL +:+ nl] [])
             Features.DEFAULT_URL
             truncated_layer (PyExc DecodeError "truncated input"));
    [reflexivity|reflexivity|reflexivity|reflexivity|discriminate].
Defined.

(** The claim of C5: what the caller receives tells the error of the
    decoder, kind, message and offset. *)
Definition carries_error (observe : Z * (list string * list string) -> Wire.decode_error)
  : Prop :=
  forall buffer e, Wire.tile_layers buffer = Wire.Fail e -> observe (run buffer) = e.

(** C5, as stated, fails: two buffers whose decoding fails at different
    offsets give the caller the same exit status and the same console. *)
Lemma error_offset_not_reported :
  Wire.tile_layers truncated_layer = Wire.fail Wire.TruncatedInput 1
  ∧ Wire.tile_layers truncated_tag = Wire.fail Wire.TruncatedInput 2
  ∧ run truncated_layer = run truncated_tag
  ∧ ¬ exists observe, carries_error observe.
Proof.
  assert (H1 : Wire.tile_layers truncated_layer = Wire.fail Wire.TruncatedInput 1)
    by reflexivity.
  assert (H2 : Wire.tile_layers truncated_tag = Wire.fail Wire.TruncatedInput 2)
    by reflexivity.
  assert (Hrun : run truncated_layer = run truncated_tag) by reflexivity.
  repeat split; try done.
  intros [observe Hcarries].
  pose proof (Hcarries _ _ H1) as E1. pose proof (Hcarries _ _ H2) as E2.
  rewrite Hrun, E2 in E1. discriminate E1.
Qed.

(** *** The tile as a mapping keyed by layer name *)

Lemma dict_set_present {V} (entries : list (string * V)) key value :
  key ∈ map fst entries -> map fst (dict_set entries key value) = map fst entries.
Proof.
  induction entries as [|[k v] entries IH]; simpl; [by intros ?%elem_of_nil|].
  destruct (String.eqb_spec k key) as [->|Hne]; [done|].
  intros [?|Hin]%elem_of_cons; [done|]. simpl. by rewrite IH.
Qed.

Lemma dict_set_fresh {V} (entries : list (string * V)) key value :
  key ∉ map fst entries -> dict_set entries key value = entries ++ [(key, value)].
Proof.
  induction entries as [|[k v] entries IH]; simpl; [done|].
  intros Hkey. destruct (String.eqb_spec k key) as [->|Hne]; [set_solver|].
  rewrite IH; [done|set_solver].
Qed.

Lemma dict_set_keys {V} (entries : list (string * V)) key value name :
  name ∈ map fst (dict_set entries key value) <-> name ∈ map fst entries ∨ name = key.
Proof.
  destruct (decide (key ∈ map fst entries)) as [Hin|Hout].
  - rewrite dict_set_present by done. split; [auto|]. by intros [?| ->].
  - rewrite dict_set_fresh, map_app, elem_of_app by done. simpl.
    by rewrite list_elem_of_singleton.
Qed.

Lemma dict_set_NoDup {V} (entries : list (string * V)) key value :
  NoDup (map fst entries) -> NoDup (map fst (dict_set entries key value)).
Proof.
  intros Hnodup. destruct (decide (key ∈ map fst entries)) as [Hin|Hout].
  - by rewrite dict_set_present.
  - rewrite dict_set_fresh, map_app by done. simpl.
    apply NoDup_app. split; [done|]. split; [|apply NoDup_singleton].
    intros name Hname ?%list_elem_of_singleton. by subst.
Qed.

Lemma dict_set_Forall {V} (P : V -> Prop) (entries : list (string * V)) key value :
  Forall (fun kv => P (snd kv)) entries -> P value ->
  Forall (fun kv => P (snd kv)) (dict_set entries key value).
Proof.
  intros Hentries Hvalue.
  induction Hentries as [|[k v] entries Hkv Hentries IH]; cbn [dict_set].
  - by constructor.
  - destruct (String.eqb k key); constructor; done.
Qed.

(** The dict in which named values are filed one after the other. *)
Definition filed (named tile : list (string * pyval)) : list (string * pyval) :=
  fold_left (fun tile kv => dict_set tile (fst kv) (snd kv)) named tile.

Lemma filed_snoc named kv tile :
  filed (named ++ [kv]) tile = dict_set (filed named tile) (fst kv) (snd kv).
Proof. unfold filed. by rewrite fold_left_app. Qed.

Lemma filed_NoDup named : NoDup (map fst (filed named [])).
Proof.
  induction named as [|kv named IH] using rev_ind; [constructor|].
  rewrite filed_snoc. by apply dict_set_NoDup.
Qed.

Lemma filed_names named name :
  name ∈ map fst (filed named []) <-> name ∈ map fst named.
Proof.
  induction named as [|kv named IH] using rev_ind; [done|].
  rewrite filed_snoc, dict_set_keys, IH, map_app, elem_of_app. simpl.
  by rewrite list_elem_of_singleton.
Qed.

(** Values with pairwise distinct names are filed one by one, in their
    order. *)
Lemma filed_distinct named : NoDup (map fst named) -> filed named [] = named.
Proof.
  induction named as [|[k v] named IH] using rev_ind; [done|].
  rewrite map_app. simpl. intros [Hnamed [Hfresh _]]%NoDup_app.
  rewrite filed_snoc. cbn [fst snd]. rewrite IH by done.
  apply dict_set_fresh. intros Hin. apply (Hfresh _ Hin). by apply list_elem_of_singleton.
Qed.

Lemma filed_Forall (P : pyval -> Prop) named tile :
  Forall (fun kv => P (snd kv)) named -> Forall (fun kv => P (snd kv)) tile ->
  Forall (fun kv => P (snd kv)) (filed named tile).
Proof.
  intros Hnamed. revert tile. induction Hnamed as [|kv named Hkv _ IH]; intros tile Htile;
    [done|].
  cbn [filed fold_left]. apply IH. by apply dict_set_Forall.
Qed.

(** What the decoder makes of a feature and of a layer: a feature is a
    dict, a layer is a dict whose [features] are a list of features. *)
Definition is_feature (v : pyval) : Prop := exists entries, v = PDict entries.

Definition is_layer (v : pyval) : Prop :=
  exists entries features,
    v = PDict entries
    ∧ dict_get entries "features" = PList features
    ∧ Forall is_feature features.

Section Mapping.
Variable parse_feature : feature_parser.

(** Every feature of the layer is one that the library parses. *)
Definition parses (layer : Wire.Layer) : Prop :=
  Forall (fun raw => exists parts, parse_feature layer raw = Ok parts)
    (Wire.features layer).

Lemma feature_values_Ok layer raws :
  Forall (fun raw => exists parts, parse_feature layer raw = Ok parts) raws ->
  exists features,
    feature_values parse_feature layer raws = Ok features ∧ Forall is_feature features.
Proof.
  induction 1 as [|raw raws [[[geometry properties] id] Hraw] _ (features & IH & Hall)].
  - by exists [].
  - cbn [feature_values]. unfold feature_value. rewrite Hraw, IH.
    eexists. split; [reflexivity|]. constructor; [by eexists|done].
Qed.

Lemma layer_value_Ok layer :
  parses layer -> exists value, layer_value parse_feature layer = Ok value ∧ is_layer value.
Proof.
  intros (features & Hfeatures & Hall)%feature_values_Ok.
  unfold layer_value. rewrite Hfeatures. eexists. split; [reflexivity|].
  eexists _, features. by repeat split.
Qed.

Lemma layer_value_is_layer layer value :
  layer_value parse_feature layer = Ok value -> is_layer value.
Proof.
  unfold layer_value.
  destruct (feature_values parse_feature layer (Wire.features layer)) as [features|]
    eqn:Hfeatures; [|done].
  intros [= <-]. eexists _, features. split; [done|]. split; [done|].
  clear -Hfeatures. revert features Hfeatures.
  induction (Wire.features layer) as [|raw raws IH]; intros features; cbn [feature_values].
  - by intros [= <-].
  - unfold feature_value at 1.
    destruct (parse_feature layer raw) as [[[geometry properties] id]|]; [|done].
    destruct (feature_values parse_feature layer raws) as [rest|]; [|done].
    intros [= <-]. constructor; [by eexists|]. by apply IH.
Qed.

(** The layer that an entry of the tile is made of. *)
Definition made_of (layer : Wire.Layer) (entry : string * pyval) : Prop :=
  fst entry = Wire.name layer ∧ layer_value parse_feature layer = Ok (snd entry).

Lemma tile_dict_filed layers tile :
  Forall parses layers ->
  exists named,
    Forall2 made_of layers named
    ∧ tile_dict parse_feature layers tile = Ok (filed named tile).
Proof.
  intros Hlayers. revert tile.
  induction Hlayers as [|layer layers Hlayer _ IH]; intros tile.
  - by exists [].
  - destruct (layer_value_Ok layer Hlayer) as (value & Hvalue & _).
    destruct (IH (dict_set tile (Wire.name layer) value)) as (named & Hnamed & Hdict).
    exists ((Wire.name layer, value) :: named). split; [by constructor|].
    cbn [tile_dict]. by rewrite Hvalue, Hdict.
Qed.

Lemma made_of_names layers named :
  Forall2 made_of layers named -> map fst named = map Wire.name layers.
Proof. induction 1 as [|layer kv layers named [Hname _] _ IH]; [done|]. simpl. by f_equal. Qed.

Lemma made_of_layers layers named :
  Forall2 made_of layers named -> Forall (fun kv => is_layer (snd kv)) named.
Proof.
  induction 1 as [|layer kv layers named [_ Hvalue] _ IH]; constructor; [|done].
  by eapply layer_value_is_layer.
Qed.

End Mapping.

(** *** The tile in the store, and the order in which it is walked *)

Lemma bind_Ok {A B} (m : M A) (f : A -> M B) s b s' :
  bind m f s = (Ok b, s') ->
  exists a s1, m s = (Ok a, s1) ∧ f a s1 = (Ok b, s').
Proof.
  unfold bind. destruct (m s) as [[a|e] s1]; [|done]. intros Hf. by exists a, s1.
Qed.

Lemma bind_step {A B} (m : M A) (f : A -> M B) s a s1 :
  m s = (Ok a, s1) -> bind m f s = f a s1.
Proof. unfold bind. by intros ->. Qed.

Lemma pyval_all_ind (P : pyval -> Prop) :
  P PNone -> (forall b, P (PBool b)) -> (forall z, P (PInt z)) ->
  (forall bits, P (PFloat bits)) -> (forall s, P (PStr s)) ->
  (forall items, Forall P items -> P (PList items)) ->
  (forall entries, Forall (fun kv => P (snd kv)) entries -> P (PDict entries)) ->
  forall v, P v.
Proof.
  intros HNone HBool HInt HFloat HStr HList HDict.
  fix IH 1.
  intros [|b|z|bits|s|items|entries];
    [apply HNone|apply HBool|apply HInt|apply HFloat|apply HStr| |].
  - apply HList. induction items as [|x items IHitems]; constructor;
      [apply IH|exact IHitems].
  - apply HDict. induction entries as [|[k x] entries IHentries]; constructor;
      [apply IH|exact IHentries].
Qed.

Lemma for_list_Ok {A B} (f : A -> M B) (Q : A -> B -> Prop) (xs : list A) :
  Forall (fun x => forall s, exists y s', f x s = (Ok y, s') ∧ Q x y) xs ->
  forall s, exists ys s', for_list f xs s = (Ok ys, s') ∧ Forall2 Q xs ys.
Proof.
  induction 1 as [|x xs Hx Hxs IH]; intros s.
  - exists [], s. split; [done|constructor].
  - destruct (Hx s) as (y & s1 & Hy & HQ). destruct (IH s1) as (ys & s2 & Hys & HQs).
    exists (y :: ys), s2. split; [|by constructor].
    cbn [for_list]. unfold bind at 1. rewrite Hy.
    unfold bind at 1. fold (for_list f xs). by rewrite Hys.
Qed.

Lemma alloc_value_Ok (v : pyval) : forall s, exists r s', alloc_value v s = (Ok r, s').
Proof.
  induction v as [|b|z|bits|str|items IH|entries IH] using pyval_all_ind; intros s;
    try (eexists _, _; reflexivity).
  - destruct (for_list_Ok alloc_value (fun _ _ => True) items) with (s := s)
      as (ys & s1 & Hys & _).
    { eapply Forall_impl; [exact IH|]. intros x Hx s0.
      destruct (Hx s0) as (r & s' & Hr). by exists r, s'. }
    cbn [alloc_value]. unfold bind. rewrite Hys. by eexists _, _.
  - destruct (for_list_Ok
                (fun kv : string * pyval =>
                   let '(k, v) := kv in v <- alloc_value v ;; ret (k, v))
                (fun _ _ => True) entries) with (s := s) as (ys & s1 & Hys & _).
    { eapply Forall_impl; [exact IH|]. intros [k x] Hx s0.
      destruct (Hx s0) as (r & s' & Hr). exists (k, r), s'.
      unfold bind. cbn [snd] in Hr. by rewrite Hr. }
    cbn [alloc_value]. unfold bind at 1. rewrite Hys. by eexists _, _.
Qed.

(** [value_of] reads, through the references, the value that [v] stands for
    (no value when a reference leads nowhere or the nesting is deeper than
    [fuel]). *)
Fixpoint value_of (fuel : nat) (objs : list obj) (v : val) : option pyval :=
  match v with
  | VNone => Some PNone
  | VBool b => Some (PBool b)
  | VInt z => Some (PInt z)
  | VFloat bits => Some (PFloat bits)
  | VStr s => Some (PStr s)
  | VRef l =>
      match fuel with
      | O => None
      | S fuel =>
          match objs !! l with
          | Some (OList items) => PList <$> mapM (value_of fuel objs) items
          | Some (ODict entries) =>
              PDict <$> mapM (fun kv => pair (fst kv) <$> value_of fuel objs (snd kv))
                          entries
          | None => None
          end
      end
  end.

Lemma value_of_mono fuel objs v pv fuel' objs' :
  value_of fuel objs v = Some pv ->
  (fuel <= fuel')%nat ->
  (forall l o, objs !! l = Some o -> objs' !! l = Some o) ->
  value_of fuel' objs' v = Some pv.
Proof.
  intros Hv Hfuel Hobjs. revert v pv fuel' Hv Hfuel.
  induction fuel as [|fuel IH]; intros [| | | | |l] pv fuel' Hv Hfuel;
    try (destruct fuel'; exact Hv); try done.
  destruct fuel' as [|fuel']; [lia|]. cbn [value_of] in *.
  destruct (objs !! l) as [[items|entries]|] eqn:Hl; [| |done];
    rewrite (Hobjs _ _ Hl).
  - destruct (mapM (value_of fuel objs) items) as [pvs|] eqn:Hitems; [|done].
    apply mapM_Some in Hitems.
    rewrite (proj2 (mapM_Some (value_of fuel' objs') items pvs)); [done|].
    eapply Forall2_impl; [exact Hitems|]. intros x y Hx. apply IH; [done|lia].
  - match type of Hv with _ <$> mapM ?f entries = _ =>
      destruct (mapM f entries) as [pvs|] eqn:Hentries; [|done]
    end.
    apply mapM_Some in Hentries.
    rewrite (proj2 (mapM_Some _ entries pvs)); [done|].
    eapply Forall2_impl; [exact Hentries|]. intros [k x] y Hx. cbn [fst snd] in *.
    destruct (value_of fuel objs x) as [px|] eqn:Hpx; [|done].
    by rewrite (IH _ _ fuel' Hpx) by lia.
Qed.

(** [v] stands for the value [pv] in the store [objs]. *)
Definition stands_for (objs : list obj) (v : val) (pv : pyval) : Prop :=
  exists fuel, value_of fuel objs v = Some pv.

(** An entry of a dict of the store and the entry of the value that it
    stands for. *)
Definition entry_stands_for (objs : list obj) (kv : string * val) (e : string * pyval)
  : Prop :=
  fst kv = fst e ∧ stands_for objs (snd kv) (snd e).

Lemma stands_for_mono objs objs' v pv :
  stands_for objs v pv ->
  (forall l o, objs !! l = Some o -> objs' !! l = Some o) ->
  stands_for objs' v pv.
Proof. intros [fuel Hv] Hobjs. exists fuel. by eapply value_of_mono. Qed.

Lemma stands_for_fuel objs rs pvs :
  Forall2 (stands_for objs) rs pvs ->
  exists fuel, Forall2 (fun r pv => value_of fuel objs r = Some pv) rs pvs.
Proof.
  induction 1 as [|r pv rs pvs [fuel1 Hr] _ [fuel2 IH]]; [by exists 0%nat|].
  exists (Nat.max fuel1 fuel2). constructor.
  - eapply value_of_mono; [exact Hr|lia|done].
  - eapply Forall2_impl; [exact IH|]. intros r' pv' Hr'.
    eapply value_of_mono; [exact Hr'|lia|done].
Qed.

Lemma entries_stand_fuel objs stored entries :
  Forall2 (entry_stands_for objs) stored entries ->
  exists fuel,
    Forall2 (fun kv e => pair (fst kv) <$> value_of fuel objs (snd kv) = Some e)
      stored entries.
Proof.
  induction 1 as [|[k r] [k' pv] stored entries [Hk [fuel1 Hr]] _ [fuel2 IH]];
    [by exists 0%nat|].
  cbn [fst snd] in *. subst k'.
  exists (Nat.max fuel1 fuel2). constructor.
  - cbn [fst snd]. by rewrite (value_of_mono _ _ _ _ (Nat.max fuel1 fuel2) objs Hr) by (lia || done).
  - eapply Forall2_impl; [exact IH|]. intros [k1 r1] e1. cbn [fst snd].
    destruct (value_of fuel2 objs r1) as [pv1|] eqn:Hr1; [|done].
    by rewrite (value_of_mono _ _ _ _ (Nat.max fuel1 fuel2) objs Hr1) by (lia || done).
Qed.

Lemma stands_for_list objs v items :
  stands_for objs v (PList items) ->
  exists l stored,
    v = VRef l ∧ objs !! l = Some (OList stored) ∧ Forall2 (stands_for objs) stored items.
Proof.
  intros [fuel Hv]. destruct v as [| | | | |l]; try (destruct fuel; discriminate Hv).
  destruct fuel as [|fuel]; [done|]. cbn [value_of] in Hv.
  destruct (objs !! l) as [[stored|stored]|] eqn:Hl; [| |done].
  - apply fmap_Some in Hv as (pvs & Hpvs & [= ->]). apply mapM_Some in Hpvs.
    exists l, stored. split; [done|]. split; [done|].
    eapply Forall2_impl; [exact Hpvs|]. intros r pv Hr. by exists fuel.
  - by apply fmap_Some in Hv as (pvs & _ & ?).
Qed.

Lemma stands_for_dict objs v entries :
  stands_for objs v (PDict entries) ->
  exists l stored,
    v = VRef l ∧ objs !! l = Some (ODict stored)
    ∧ Forall2 (entry_stands_for objs) stored entries.
Proof.
  intros [fuel Hv]. destruct v as [| | | | |l]; try (destruct fuel; discriminate Hv).
  destruct fuel as [|fuel]; [done|]. cbn [value_of] in Hv.
  destruct (objs !! l) as [[stored|stored]|] eqn:Hl; [| |done].
  - by apply fmap_Some in Hv as (pvs & _ & ?).
  - apply fmap_Some in Hv as (pvs & Hpvs & [= ->]). apply mapM_Some in Hpvs.
    exists l, stored. split; [done|]. split; [done|].
    eapply Forall2_impl; [exact Hpvs|]. intros [k r] e Hr. cbn [fst snd] in Hr.
    apply fmap_Some in Hr as (pv & Hpv & ->). split; [done|]. by exists fuel.
Qed.

Lemma stands_for_ref objs l pv :
  stands_for objs (VRef l) pv -> exists o, objs !! l = Some o.
Proof.
  intros [[|fuel] Hv]; [done|]. cbn [value_of] in Hv.
  destruct (objs !! l) as [o|]; [by exists o|done].
Qed.

(** A list comprehension that builds objects: what it returns stands for
    what it was given. *)
Lemma for_list_grows {A B} (f : A -> M B) (Q : list obj -> B -> A -> Prop)
    (xs : list A) :
  (forall objs objs' y x,
     Q objs y x -> (forall l o, objs !! l = Some o -> objs' !! l = Some o) ->
     Q objs' y x) ->
  Forall (fun x => forall s, exists y s',
            f x s = (Ok y, s') ∧ unchanged s s' ∧ Q (objects s') y x) xs ->
  forall s, exists ys s',
    for_list f xs s = (Ok ys, s') ∧ unchanged s s' ∧ Forall2 (Q (objects s')) ys xs.
Proof.
  intros Hmono. induction 1 as [|x xs Hx _ IH]; intros s.
  - exists [], s. split; [done|]. split; [done|constructor].
  - destruct (Hx s) as (y & s1 & Hy & Hs1 & HQ).
    destruct (IH s1) as (ys & s2 & Hys & Hs2 & HQs).
    exists (y :: ys), s2. split; [|split].
    + cbn [for_list]. rewrite (bind_step _ _ _ _ _ Hy).
      fold (for_list f xs). by rewrite (bind_step _ _ _ _ _ Hys).
    + by etrans.
    + constructor; [|done]. by eapply Hmono.
Qed.

(** A value of the decoder is built as new objects, and the reference that
    [alloc_value] returns stands for it. *)
Lemma alloc_value_stands (pv : pyval) :
  forall s, exists r s',
    alloc_value pv s = (Ok r, s') ∧ unchanged s s' ∧ stands_for (objects s') r pv.
Proof.
  induction pv as [|b|z|bits|str|items IH|entries IH] using pyval_all_ind; intros s;
    try (eexists _, s; split; [reflexivity|]; split; [done|]; by exists 0%nat).
  - destruct (for_list_grows alloc_value stands_for items stands_for_mono IH s)
      as (rs & s1 & Hrs & Hs1 & Hstand).
    destruct (stands_for_fuel _ _ _ Hstand) as [fuel Hfuel].
    exists (VRef (length (objects s1))),
      (mkState (objects s1 ++ [OList rs]) (stdout s1) (stderr s1)).
    split; [|split].
    + cbn [alloc_value]. by rewrite (bind_step _ _ _ _ _ Hrs).
    + etrans; [exact Hs1|]. intros l o Hl. cbn [objects]. by apply lookup_app_l_Some.
    + exists (S fuel). cbn [value_of objects].
      rewrite lookup_app_r, Nat.sub_diag by done. cbn [lookup list_lookup].
      rewrite (proj2 (mapM_Some _ rs items)); [done|].
      eapply Forall2_impl; [exact Hfuel|]. intros r pv Hr.
      eapply value_of_mono; [exact Hr|done|]. intros l o Hl. by apply lookup_app_l_Some.
  - destruct (for_list_grows
                (fun kv : string * pyval =>
                   let '(k, v) := kv in v <- alloc_value v ;; ret (k, v))
                entry_stands_for entries) with (s := s)
      as (stored & s1 & Hstored & Hs1 & Hstand).
    { intros objs objs' y x [Hk Hv] Hobjs. split; [done|]. by eapply stands_for_mono. }
    { eapply Forall_impl; [exact IH|]. intros [k x] Hx s0. cbn [snd] in Hx.
      destruct (Hx s0) as (r & s' & Hr & Hs' & Hstand).
      exists (k, r), s'. split; [by rewrite (bind_step _ _ _ _ _ Hr)|].
      split; [done|]. by split. }
    destruct (entries_stand_fuel _ _ _ Hstand) as [fuel Hfuel].
    exists (VRef (length (objects s1))),
      (mkState (objects s1 ++ [ODict stored]) (stdout s1) (stderr s1)).
    split; [|split].
    + cbn [alloc_value]. by rewrite (bind_step _ _ _ _ _ Hstored).
    + etrans; [exact Hs1|]. intros l o Hl. cbn [objects]. by apply lookup_app_l_Some.
    + exists (S fuel). cbn [value_of objects].
      rewrite lookup_app_r, Nat.sub_diag by done. cbn [lookup list_lookup].
      rewrite (proj2 (mapM_Some _ stored entries)); [done|].
      eapply Forall2_impl; [exact Hfuel|]. intros [k r] e. cbn [fst snd].
      destruct (value_of fuel (objects s1) r) as [pv|] eqn:Hr; [|done].
      intros He.
      rewrite (value_of_mono _ _ _ _ fuel (objects s1 ++ [ODict stored]) Hr); [done..|].
      intros l o Hl. by apply lookup_app_l_Some.
Qed.

(** What the operations of Python return on the objects of the store. *)
Lemma py_get_at l stored key default s :
  objects s !! l = Some (ODict stored) ->
  py_get (VRef l) key default s
  = (Ok (from_option id default (lookup_key stored key)), s).
Proof. intros Hl. unfold py_get, bind, load. by rewrite Hl. Qed.

Lemma py_items_at l stored s :
  objects s !! l = Some (ODict stored) -> py_items (VRef l) s = (Ok stored, s).
Proof. intros Hl. unfold py_items, bind, load. by rewrite Hl. Qed.

Lemma py_len_at l items s :
  objects s !! l = Some (OList items) ->
  py_len (VRef l) s = (Ok (Z.of_nat (length items)), s).
Proof. intros Hl. unfold py_len, bind, load. by rewrite Hl. Qed.

Lemma py_slice_to_at l items n s :
  objects s !! l = Some (OList items) ->
  py_slice_to (VRef l) n s
  = (Ok (VRef (length (objects s))),
     mkState (objects s ++ [OList (slice_to items n)]) (stdout s) (stderr s)).
Proof. intros Hl. unfold py_slice_to, bind, load. by rewrite Hl. Qed.

Lemma py_iter_at l items s :
  objects s !! l = Some (OList items) -> py_iter (VRef l) s = (Ok items, s).
Proof. intros Hl. unfold py_iter, bind, load. by rewrite Hl. Qed.

Lemma lookup_key_stands objs stored entries key :
  Forall2 (entry_stands_for objs) stored entries ->
  match lookup_key stored key with
  | Some v => stands_for objs v (dict_get entries key)
  | None => True
  end.
Proof.
  induction 1 as [|[k r] [k' pv] stored entries [Hk Hr] _ IH]; [done|].
  cbn [fst snd] in *. subst k'. cbn [lookup_key dict_get].
  by destruct (String.eqb k key).
Qed.

(** The sample of a geometry: [geometry[0]] for a list that is not empty,
    the geometry itself when it is not a list, [None] when it counts as
    false. *)
Lemma sample_geom_returns (geometry : val) (s : state) :
  geometry = VNone ∨ (exists pv, stands_for (objects s) geometry pv) ->
  exists truthy is_list first_geom,
    py_truthy geometry s = (Ok truthy, s)
    ∧ (if truthy then py_is_list geometry else ret false) s = (Ok is_list, s)
    ∧ (if truthy && is_list then py_first geometry
       else if truthy then ret geometry else ret VNone) s = (Ok first_geom, s).
Proof.
  intros Hgeometry.
  assert (forall truthy,
            py_truthy geometry s = (Ok truthy, s) ->
            py_is_list geometry s = (Ok false, s) ->
            exists truthy is_list first_geom,
              py_truthy geometry s = (Ok truthy, s)
              ∧ (if truthy then py_is_list geometry else ret false) s = (Ok is_list, s)
              ∧ (if truthy && is_list then py_first geometry
                 else if truthy then ret geometry else ret VNone) s
                = (Ok first_geom, s)) as Hleaf.
  { intros truthy Htruthy His_list.
    exists truthy, false, (if truthy then geometry else VNone).
    split; [done|]. by destruct truthy. }
  destruct geometry as [|b|z|bits|text|l]; try (by eapply Hleaf).
  destruct Hgeometry as [?|[pv [o Hl]%stands_for_ref]]; [done|]. clear Hleaf.
  unfold py_truthy, py_is_list, py_first, bind, load. rewrite Hl.
  destruct o as [[|item items]|[|entry entries]].
  - by exists false, false, VNone.
  - exists true, true, item. repeat split; cbn [andb]; by rewrite ?Hl.
  - by exists false, false, VNone.
  - exists true, false, (VRef l). repeat split; cbn [andb]; by rewrite ?Hl.
Qed.

Definition layer_header (layer_name : string) (count : Z) : string :=
  nl +:+ "Layer: " +:+ layer_name +:+ " | feature count: " +:+ pretty count.

(** The lines that one pass of a loop prints, pass after pass. *)
Lemma for_each_blocks {A} (body : nat -> A -> M unit) (Q : A -> list string -> Prop)
    (xs : list A) :
  (forall idx x s s', body idx x s = (Ok tt, s') ->
     exists block, stdout s' = stdout s ++ block ∧ Q x block) ->
  forall idx s s', for_each body xs idx s = (Ok tt, s') ->
    exists blocks, stdout s' = stdout s ++ concat blocks ∧ Forall2 Q xs blocks.
Proof.
  intros Hbody. induction xs as [|x xs IH]; intros idx s s'.
  - intros [= <-]. exists []. split; [by rewrite app_nil_r|constructor].
  - cbn [for_each]. intros (u & s1 & Hx & Hxs)%bind_Ok. destruct u.
    apply Hbody in Hx as (block & Hblock & HQ).
    apply IH in Hxs as (blocks & Hblocks & HQs).
    exists (block :: blocks). split; [|by constructor].
    simpl. by rewrite Hblocks, Hblock, app_assoc.
Qed.

(** A loop returns when each of its passes does, in the store that the
    passes before it have left. *)
Lemma for_each_returns {A} (body : nat -> A -> M unit) (P : list obj -> A -> Prop)
    (xs : list A) :
  (forall objs objs' x,
     P objs x -> (forall l o, objs !! l = Some o -> objs' !! l = Some o) -> P objs' x) ->
  (forall idx x, preserves unchanged (body idx x)) ->
  (forall idx x s, P (objects s) x -> exists s', body idx x s = (Ok tt, s')) ->
  forall idx s, Forall (P (objects s)) xs ->
    exists s', for_each body xs idx s = (Ok tt, s').
Proof.
  intros Hmono Hsame Hbody. induction xs as [|x xs IH]; intros idx s Hxs.
  - by exists s.
  - apply Forall_cons in Hxs as [Hx Hxs].
    destruct (Hbody idx x s Hx) as [s1 Hs1].
    pose proof (Hsame idx x s) as Hgrow. rewrite Hs1 in Hgrow. cbn [snd] in Hgrow.
    destruct (IH (S idx) s1) as [s2 Hs2].
    { eapply Forall_impl; [exact Hxs|]. intros y Hy. by eapply Hmono. }
    exists s2. cbn [for_each]. by rewrite (bind_step _ _ _ _ _ Hs1).
Qed.

Section Order.
Context {U : UrlLib}.
Variable py_str : list obj -> val -> string.
Variable json_dumps : list obj -> val -> result string.

Lemma summarize_feature_printed_more idx feature :
  preserves printed_more (summarize_feature py_str json_dumps idx feature).
Proof.
  unfold summarize_feature. preserves_auto.
Qed.

Lemma omitted_printed_more count max_features :
  preserves printed_more (omitted count max_features).
Proof. unfold omitted. preserves_auto. Qed.

(** The block of a layer starts with the header that names it. *)
Lemma summarize_layer_block max_features layer_name layer_data s s' :
  summarize_layer py_str json_dumps max_features (layer_name, layer_data) s
  = (Ok tt, s') ->
  exists block,
    stdout s' = stdout s ++ block
    ∧ exists count rest, block = layer_header layer_name count :: rest.
Proof.
  unfold summarize_layer.
  intros (empty & s1 & H1 & Hrun)%bind_Ok.
  apply bind_Ok in Hrun as (features & s2 & H2 & Hrun).
  apply bind_Ok in Hrun as (count & s3 & H3 & Hrun).
  apply bind_Ok in Hrun as ([] & s4 & H4 & Hrun).
  assert (stdout s3 = stdout s) as Hsilent.
  { pose proof (alloc_silent (OList []) s) as E1. rewrite H1 in E1.
    pose proof (py_get_preserves silent load_silent
                  layer_data "features" empty s1) as E2. rewrite H2 in E2.
    pose proof (py_len_preserves silent load_silent features s2) as E3.
    rewrite H3 in E3. unfold silent in *. simpl in *. congruence. }
  injection H4 as <-.
  match type of Hrun with ?rest _ = _ =>
    assert (preserves printed_more rest) as Hmore
  end.
  { pose proof summarize_feature_printed_more. pose proof omitted_printed_more.
    preserves_auto. }
  specialize (Hmore (mkState (objects s3) (stdout s3 ++ [layer_header layer_name count])
                       (stderr s3))).
  unfold layer_header in *. rewrite Hrun in Hmore. destruct Hmore as [lines Hlines].
  cbn [snd stdout] in Hlines.
  eexists. split; [|by eexists count, lines].
  rewrite Hlines, Hsilent. by rewrite <- app_assoc.
Qed.

(** A tile that is a non-empty dict is walked entry by entry, in the order
    of its entries: the console gets one block of lines per layer. *)
Lemma summarize_layers_order l stored max_features s s' :
  objects s !! l = Some (ODict stored) ->
  stored ≠ [] ->
  summarize_layers py_str json_dumps (VRef l) max_features s = (Ok tt, s') ->
  exists blocks,
    stdout s' = stdout s ++ concat blocks
    ∧ Forall2 (fun layer_name block =>
                 exists count rest, block = layer_header layer_name count :: rest)
        (map fst stored) blocks.
Proof.
  intros Hl Hstored Hrun. unfold summarize_layers in Hrun.
  apply bind_Ok in Hrun as (truthy & s1 & Htruthy & Hrun).
  unfold py_truthy, bind, load in Htruthy. rewrite Hl in Htruthy.
  assert (truthy = true ∧ s1 = s) as [-> ->].
  { destruct stored; [done|]. by injection Htruthy as <- <-. }
  cbn [negb] in Hrun.
  apply bind_Ok in Hrun as (layers & s2 & Hitems & Hrun).
  unfold py_items, bind, load in Hitems. rewrite Hl in Hitems.
  injection Hitems as <- <-.
  eapply (for_each_blocks _
            (fun (layer : string * val) block =>
               exists count rest, block = layer_header (fst layer) count :: rest))
    in Hrun as (blocks & Hout & Hblocks).
  - exists blocks. split; [done|]. by apply Forall2_fmap_l.
  - intros idx [layer_name layer_data] s0 s0' Hlayer.
    by apply summarize_layer_block in Hlayer.
Qed.

(** [json.dumps] returns on what it is given. *)
Hypothesis json_dumps_returns : forall objs v, exists text, json_dumps objs v = Ok text.

(** On a feature that is a dict, [summarize_feature] returns. *)
Lemma summarize_feature_returns idx feature entries s :
  stands_for (objects s) feature (PDict entries) ->
  exists s', summarize_feature py_str json_dumps idx feature s = (Ok tt, s').
Proof.
  intros (l & stored & -> & Hl & Hstored)%stands_for_dict.
  unfold summarize_feature.
  rewrite (bind_step _ _ _ _ _ (py_get_at l stored "type" VNone s Hl)).
  unfold bind at 1. cbn [alloc].
  set (s1 := mkState (objects s ++ [ODict []]) (stdout s) (stderr s)).
  assert (forall l o, objects s !! l = Some o -> objects s1 !! l = Some o) as Hgrow
    by (intros l' o Hl'; by apply lookup_app_l_Some).
  pose proof (Hgrow _ _ Hl) as Hl1.
  rewrite (bind_step _ _ _ _ _ (py_get_at l stored "properties" _ s1 Hl1)).
  rewrite (bind_step _ _ _ _ _ (py_get_at l stored "geometry" VNone s1 Hl1)).
  destruct (sample_geom_returns (from_option id VNone (lookup_key stored "geometry")) s1)
    as (truthy & is_list & first_geom & Htruthy & His_list & Hfirst).
  { pose proof (lookup_key_stands _ _ _ "geometry" Hstored) as Hgeometry.
    destruct (lookup_key stored "geometry") as [geometry|]; [|by left].
    right. eexists. by eapply stands_for_mono. }
  rewrite (bind_step _ _ _ _ _ Htruthy), (bind_step _ _ _ _ _ His_list),
    (bind_step _ _ _ _ _ Hfirst).
  unfold bind at 1. cbn [show]. unfold bind at 1. cbn [show].
  unfold bind at 1, dumps.
  destruct (json_dumps_returns (objects s1)
              (from_option id (VRef (length (objects s))) (lookup_key stored "properties")))
    as [text ->].
  by eexists.
Qed.

(** A layer of the store: a dict whose [features], when it has some, are a
    list of dicts. *)
Definition layer_at (objs : list obj) (layer : string * val) : Prop :=
  exists entries, stands_for objs (snd layer) (PDict entries)
    ∧ exists features,
        dict_get entries "features" = PList features ∧ Forall is_feature features.

Lemma layer_at_mono objs objs' layer :
  layer_at objs layer -> (forall l o, objs !! l = Some o -> objs' !! l = Some o) ->
  layer_at objs' layer.
Proof.
  intros (entries & Hstand & Hfeatures) Hobjs. exists entries.
  split; [by eapply stands_for_mono|done].
Qed.

(** On a layer of the decoder, [summarize_layer] returns. *)
Lemma summarize_layer_returns max_features layer s :
  layer_at (objects s) layer ->
  exists s', summarize_layer py_str json_dumps max_features layer s = (Ok tt, s').
Proof.
  destruct layer as [layer_name layer_data].
  intros (entries & (l & stored & Hdata & Hl & Hstored)%stands_for_dict
          & features & Hfeatures & Hall).
  cbn [snd] in Hdata. subst layer_data. unfold summarize_layer.
  unfold bind at 1. cbn [alloc].
  set (s1 := mkState (objects s ++ [OList []]) (stdout s) (stderr s)).
  assert (forall l o, objects s !! l = Some o -> objects s1 !! l = Some o) as Hgrow
    by (intros l' o Hl'; by apply lookup_app_l_Some).
  rewrite (bind_step _ _ _ _ _ (py_get_at l stored "features" _ s1 (Hgrow _ _ Hl))).
  (* the list of the features, in the store *)
  assert (exists lf items,
            from_option id (VRef (length (objects s))) (lookup_key stored "features")
            = VRef lf
            ∧ objects s1 !! lf = Some (OList items)
            ∧ Forall (fun item => exists fentries,
                        stands_for (objects s1) item (PDict fentries)) items)
    as (lf & items & -> & Hlf & Hitems).
  { pose proof (lookup_key_stands _ _ _ "features" Hstored) as Hfound.
    destruct (lookup_key stored "features") as [found|]; cbn [from_option id].
    - rewrite Hfeatures in Hfound.
      apply stands_for_list in Hfound as (lf & items & -> & Hlf & Hitems).
      exists lf, items. split; [done|]. split; [by apply Hgrow|].
      clear -Hitems Hall Hgrow. revert Hall.
      induction Hitems as [|item pv items pvs Hitem _ IH]; intros Hall; [done|].
      apply Forall_cons in Hall as [[fentries ->] Hall].
      constructor; [|by apply IH]. exists fentries. by eapply stands_for_mono.
    - exists (length (objects s)), []. split; [done|]. split; [|done].
      cbn [s1 objects]. by rewrite lookup_app_r, Nat.sub_diag. }
  rewrite (bind_step _ _ _ _ _ (py_len_at lf items s1 Hlf)).
  unfold bind at 1. cbn [print].
  set (s2 := mkState (objects s1) _ (stderr s1)).
  rewrite (bind_step _ _ _ _ _ (py_slice_to_at lf items max_features s2 Hlf)).
  set (s3 := mkState (objects s2 ++ [OList (slice_to items max_features)]) _ _).
  assert (forall l o, objects s1 !! l = Some o -> objects s3 !! l = Some o) as Hgrow3
    by (intros l' o Hl'; by apply lookup_app_l_Some).
  assert (objects s3 !! length (objects s2) = Some (OList (slice_to items max_features)))
    as Hshown by (cbn [s3 objects]; by rewrite lookup_app_r, Nat.sub_diag).
  rewrite (bind_step _ _ _ _ _ (py_iter_at _ _ s3 Hshown)).
  destruct (for_each_returns (summarize_feature py_str json_dumps)
              (fun objs item => exists fentries, stands_for objs item (PDict fentries))
              (slice_to items max_features)) with (idx := 1%nat) (s := s3)
    as [s4 Hs4].
  { intros objs objs' item [fentries Hitem] Hobjs. exists fentries.
    by eapply stands_for_mono. }
  { intros idx item. apply summarize_feature_unchanged. }
  { intros idx item s0 [fentries Hitem]. by eapply summarize_feature_returns. }
  { assert (Forall (fun item => exists fentries,
                      stands_for (objects s3) item (PDict fentries)) items) as Hitems3.
    { eapply Forall_impl; [exact Hitems|]. intros item [fentries Hitem].
      exists fentries. by eapply stands_for_mono. }
    unfold slice_to. destruct (0 <=? max_features); by apply Forall_take. }
  rewrite (bind_step _ _ _ _ _ Hs4).
  pose proof (preserves_for_each unchanged (summarize_feature py_str json_dumps)
                (slice_to items max_features) 1
                (fun idx item => summarize_feature_unchanged py_str json_dumps idx item) s3)
    as Hgrow4.
  rewrite Hs4 in Hgrow4. cbn [snd] in Hgrow4.
  rewrite (bind_step _ _ _ _ _ (py_len_at lf items s4 (Hgrow4 _ _ (Hgrow3 _ _ Hlf)))).
  unfold omitted. destruct (max_features <? Z.of_nat (length items)); by eexists.
Qed.

(** On a tile of the decoder that has layers, [summarize_layers] returns. *)
Lemma summarize_layers_returns l stored max_features s :
  objects s !! l = Some (ODict stored) ->
  stored ≠ [] ->
  Forall (layer_at (objects s)) stored ->
  exists s', summarize_layers py_str json_dumps (VRef l) max_features s = (Ok tt, s').
Proof.
  intros Hl Hstored Hlayers. unfold summarize_layers.
  assert (py_truthy (VRef l) s = (Ok true, s)) as Htruthy.
  { unfold py_truthy, bind, load. rewrite Hl. by destruct stored. }
  rewrite (bind_step _ _ _ _ _ Htruthy). cbn [negb].
  rewrite (bind_step _ _ _ _ _ (py_items_at l stored s Hl)).
  apply (for_each_returns _ layer_at).
  - intros objs objs' layer. apply layer_at_mono.
  - intros idx layer. unfold summarize_layer.
    pose proof (summarize_feature_unchanged py_str json_dumps).
    pose proof omitted_unchanged. preserves_auto.
  - intros idx layer s0. apply summarize_layer_returns.
  - done.
Qed.

End Order.

(** The claim of C1: the tile lists the layers of the buffer one by one, in
    encounter order. *)
Definition is_layer_sequence (buffer : list Wire.byte) : Prop :=
  forall layers entries,
    Wire.tile_layers buffer = Wire.Done layers ->
    mvt_decode point_feature buffer = Ok (PDict entries) ->
    Forall2 (made_of point_feature) layers entries.

(** Two Layer fields with the name [a], of version 1 and of version 2. *)
Definition same_name_tile : list Wire.byte :=
  [Byte.x1a; Byte.x05; Byte.x78; Byte.x01; Byte.x0a; Byte.x01; Byte.x61;
   Byte.x1a; Byte.x05; Byte.x78; Byte.x02; Byte.x0a; Byte.x01; Byte.x61].

(** Two Layer fields: the layer [a], which has one feature, the point
    (1, 2), and the layer [b], which has none. *)
Definition two_layer_tile : list Wire.byte :=
  [Byte.x1a; Byte.x0e; Byte.x78; Byte.x01; Byte.x0a; Byte.x01; Byte.x61;
   Byte.x12; Byte.x07; Byte.x18; Byte.x01; Byte.x22; Byte.x03; Byte.x09;
   Byte.x02; Byte.x04;
   Byte.x1a; Byte.x05; Byte.x78; Byte.x02; Byte.x0a; Byte.x01; Byte.x62].

Definition point_layer : Wire.Layer :=
  Wire.mkLayer "a" 1 4096 [] []
    [[Byte.x18; Byte.x01; Byte.x22; Byte.x03; Byte.x09; Byte.x02; Byte.x04]].

(** C1, as stated, fails: the two layers of [same_name_tile] end as one
    entry of the tile, under their common name. *)
Lemma same_name_layers_collapse :
  Wire.tile_layers same_name_tile
  = Wire.Done [Wire.mkLayer "a" 1 4096 [] [] []; Wire.mkLayer "a" 2 4096 [] [] []]
  ∧ mvt_decode point_feature same_name_tile
    = Ok (PDict [("a", PDict [("extent", PInt 4096); ("version", PInt 2);
                              ("features", PList []);
                              ("type", PStr "FeatureCollection")])])
  ∧ ¬ is_layer_sequence same_name_tile.
Proof.
  split; [reflexivity|]. split; [reflexivity|].
  intros Hsequence. specialize (Hsequence _ _ eq_refl eq_refl).
  apply Forall2_length in Hsequence. discriminate Hsequence.
Qed.

(** C1, amended: for a buffer whose layers are read and whose features the
    library parses, the tile is a mapping keyed by layer name that keeps the
    order in which its keys came: its keys are pairwise distinct and are the
    names of the layers of the buffer; when those names are pairwise
    distinct, its entries are the layers, one by one, in encounter order
    (and the layers of a buffer followed by another are those of the first,
    then those of the second); in the store it is one dict with these keys
    in this order; and on a tile that has layers [summarize_layers], when
    [json.dumps] returns on what it is given, returns after it has walked
    the entries in this order, one block of lines per entry. *)
Theorem tile_is_ordered_mapping (parse_feature : feature_parser)
    (buffer : list Wire.byte) (layers : list Wire.Layer) :
  Wire.tile_layers buffer = Wire.Done layers ->
  Forall (parses parse_feature) layers ->
  exists entries,
    mvt_decode parse_feature buffer = Ok (PDict entries)
    ∧ NoDup (map fst entries)
    ∧ (forall name, name ∈ map fst entries <-> name ∈ map Wire.name layers)
    ∧ (NoDup (map Wire.name layers) -> Forall2 (made_of parse_feature) layers entries)
    ∧ (forall buffer' layers',
         Wire.tile_layers buffer' = Wire.Done layers' ->
         Wire.tile_layers (buffer ++ buffer') = Wire.Done (layers ++ layers'))
    ∧ (forall s, exists l s1 stored,
         decode_tile (mvt_decode parse_feature) buffer s = (Ok (VRef l), s1)
         ∧ objects s1 !! l = Some (ODict stored)
         ∧ map fst stored = map fst entries
         ∧ forall py_str json_dumps max_features,
             (forall objs v, exists text, json_dumps objs v = Ok text) ->
             entries ≠ [] ->
             exists s2 blocks,
               summarize_layers py_str json_dumps (VRef l) max_features s1 = (Ok tt, s2)
               ∧ stdout s2 = stdout s1 ++ concat blocks
               ∧ Forall2 (fun layer_name block =>
                            exists count rest,
                              block = layer_header layer_name count :: rest)
                   (map fst entries) blocks).
Proof.
  intros Hlayers Hparses.
  destruct (tile_dict_filed parse_feature layers [] Hparses) as (named & Hnamed & Hdict).
  exists (filed named []).
  assert (mvt_decode parse_feature buffer = Ok (PDict (filed named []))) as Hdecode
    by (unfold mvt_decode; by rewrite Hlayers, Hdict).
  split; [done|]. split; [apply filed_NoDup|].
  split; [intros name; by rewrite filed_names, (made_of_names _ _ _ Hnamed)|].
  split.
  { intros Hdistinct. rewrite filed_distinct; [done|].
    by rewrite (made_of_names _ _ _ Hnamed). }
  split; [intros buffer' layers'; by apply Wire.tile_layers_app|].
  intros s. unfold decode_tile. rewrite Hdecode.
  destruct (alloc_value_stands (PDict (filed named [])) s) as (r & s1 & Halloc & _ & Hstand).
  apply stands_for_dict in Hstand as (l & stored & -> & Hl & Hstored).
  assert (map fst stored = map fst (filed named [])) as Hkeys.
  { clear -Hstored. induction Hstored as [|kv e stored entries [Hk _] _ IH]; [done|].
    simpl. by rewrite Hk, IH. }
  exists l, s1, stored. split; [done|]. split; [done|]. split; [done|].
  intros py_str json_dumps max_features Hjson Hentries.
  assert (stored ≠ []) as Hsome.
  { intros ->. destruct (filed named []); [done|discriminate Hkeys]. }
  destruct (summarize_layers_returns py_str json_dumps Hjson l stored max_features s1)
    as [s2 Hs2]; [done|done| |].
  { pose proof (filed_Forall is_layer named []
                  (made_of_layers _ _ _ Hnamed) (Forall_nil_2 _)) as Hshape.
    clear -Hstored Hshape. revert Hshape.
    induction Hstored as [|kv e stored entries [_ Hstand] _ IH]; intros Hshape; [done|].
    apply Forall_cons in Hshape as [(lentries & features & He & Hfeatures & Hall) Hshape].
    constructor; [|by apply IH].
    exists lentries. rewrite He in Hstand. split; [done|]. by exists features. }
  exists s2. rewrite <- Hkeys.
  destruct (summarize_layers_order py_str json_dumps l stored max_features s1 s2)
    as (blocks & Hout & Hblocks); [done..|].
  by exists blocks.
Qed.

Lemma tile_is_ordered_mapping_witness :
  Wire.tile_layers two_layer_tile
  = Wire.Done [point_layer; Wire.mkLayer "b" 2 4096 [] [] []]
  ∧ (exists entries,
       mvt_decode point_feature two_layer_tile = Ok (PDict entries)
       ∧ map fst entries = ["a"; "b"])
  ∧ run two_layer_tile
    = (0, (["Requesting tile..." +:+ nl +:+ Features.DEFAULT_URL +:+ nl;
            "Received 23 bytes. Decoding..." +:+ nl;
            layer_header "a" 1;
            "  Feature 1: type=Feature sample_geom={'type': 'Point', "
            +:+ "'coordinates': [1, 4094]} properties={}";
            layer_header "b" 0],
           [])).
Proof.
  split; [reflexivity|].
  destruct (tile_is_ordered_mapping point_feature two_layer_tile
              [point_layer; Wire.mkLayer "b" 2 4096 [] [] []] eq_refl)
    as (entries & Hdecode & _ & _ & Hdistinct & _).
  { repeat constructor. by eexists. }
  split; [|vm_compute; reflexivity].
  exists entries. split; [exact Hdecode|].
  assert (NoDup ["a"; "b"]) as Hnames by (repeat constructor; set_solver).
  rewrite (made_of_names _ _ _ (Hdistinct Hnames)). reflexivity.
Defined.

(** *** [truncate_geometry] on objects and on values

    On objects, [truncate_geometry] builds the value that
    [Features.truncate_geometry] computes. *)

Lemma Forall2_slice_to {A B} (P : A -> B -> Prop) (l : list A) (k : list B) n :
  Forall2 P l k -> Forall2 P (slice_to l n) (slice_to k n).
Proof.
  intros Hlk. unfold slice_to. rewrite (Forall2_length _ _ _ Hlk).
  destruct (0 <=? n); by apply Forall2_take.
Qed.

Section Refinement.
Variable max_coords : Z.

(** The list comprehension: the results stand for the truncated values. *)
Lemma for_list_truncated depth
    (IH : forall geom s r s', truncate_geometry depth geom max_coords s = (Ok r, s') ->
            forall fuel pv, value_of fuel (objects s) geom = Some pv ->
              exists fuel',
                value_of fuel' (objects s') r
                = Some (Features.truncate_geometry pv max_coords))
    (items : list val) (pvs : list pyval) (fuel : nat) (objs : list obj) :
  Forall2 (fun x y => value_of fuel objs x = Some y) items pvs ->
  forall s results s',
    (forall l o, objs !! l = Some o -> objects s !! l = Some o) ->
    for_list (fun item => truncate_geometry depth item max_coords) items s
    = (Ok results, s') ->
    unchanged s s'
    ∧ exists fuel',
        Forall2 (fun r y => value_of fuel' (objects s') r
                            = Some (Features.truncate_geometry y max_coords))
          results pvs.
Proof.
  induction 1 as [|x y items pvs Hxy Hrest IHitems]; intros s results s' Hobjs.
  - intros [= <- <-]. split; [done|]. exists 0%nat. constructor.
  - cbn [for_list]. intros (r & s1 & Hr & Hrun)%bind_Ok.
    apply bind_Ok in Hrun as (rs & s2 & Hrs & Hret). injection Hret as <- <-.
    pose proof (truncate_geometry_unchanged depth x max_coords s) as Hs1.
    rewrite Hr in Hs1. cbn [snd] in Hs1.
    destruct (IH _ _ _ _ Hr fuel y) as [fuel1 Hfuel1].
    { eapply value_of_mono; [exact Hxy|done|exact Hobjs]. }
    destruct (IHitems s1 rs s2) as (Hs2 & fuel2 & Hfuel2); [|exact Hrs|].
    { intros l o Hl. by apply Hs1, Hobjs. }
    split; [by etrans|].
    exists (Nat.max fuel1 fuel2). constructor.
    + eapply value_of_mono; [exact Hfuel1|lia|exact Hs2].
    + eapply Forall2_impl; [exact Hfuel2|]. intros r' y' Hr'.
      eapply value_of_mono; [exact Hr'|lia|done].
Qed.

(** When [truncate_geometry] returns, its result stands for the truncation
    of the value that its argument stands for. *)
Lemma truncate_geometry_refines depth geom s r s' :
  truncate_geometry depth geom max_coords s = (Ok r, s') ->
  forall fuel pv, value_of fuel (objects s) geom = Some pv ->
    exists fuel',
      value_of fuel' (objects s') r = Some (Features.truncate_geometry pv max_coords).
Proof.
  revert geom s r s'. induction depth as [|depth IH]; intros geom s r s'; [done|].
  cbn [truncate_geometry]. intros (is_list & s0 & His_list & Hrun)%bind_Ok fuel pv Hpv.
  destruct geom as [| | | | |l];
    try (injection His_list as <- <-; injection Hrun as <- <-;
         exists 0%nat; destruct fuel; by simplify_eq/=).
  unfold py_is_list, bind, load in His_list.
  destruct fuel as [|fuel]; [done|]. cbn [value_of] in Hpv.
  destruct (objects s !! l) as [[items|entries]|] eqn:Hl; [| |done].
  - injection His_list as <- <-. cbn [negb] in Hrun.
    destruct (mapM (value_of fuel (objects s)) items) as [pvs|] eqn:Hitems; [|done].
    injection Hpv as <-. apply mapM_Some in Hitems.
    apply bind_Ok in Hrun as (trimmed & s1 & Hslice & Hrun).
    unfold py_slice_to, bind, load in Hslice. rewrite Hl in Hslice.
    injection Hslice as <- <-.
    apply bind_Ok in Hrun as (walked & s2 & Hiter & Hrun).
    unfold py_iter, bind, load in Hiter. cbn [objects] in Hiter.
    rewrite lookup_app_r, Nat.sub_diag in Hiter by done. injection Hiter as <- <-.
    apply bind_Ok in Hrun as (results & s3 & Hresults & Halloc).
    injection Halloc as <- <-.
    eapply (for_list_truncated depth IH _ (slice_to pvs max_coords) fuel (objects s))
      in Hresults as (_ & fuel' & Hfuel').
    + exists (S fuel'). cbn [value_of objects].
      rewrite lookup_app_r, Nat.sub_diag by done.
      change ([OList results] !! 0%nat) with (Some (OList results)).
      rewrite Features.truncate_geometry_list.
      rewrite (proj2 (mapM_Some _ results
                        (map (fun item => Features.truncate_geometry item max_coords)
                           (slice_to pvs max_coords)))); [done|].
      apply Forall2_fmap_r. eapply Forall2_impl; [exact Hfuel'|].
      intros r' y' Hr'. eapply value_of_mono; [exact Hr'|done|].
      intros l' o' Hl'. by apply lookup_app_l_Some.
    + by apply Forall2_slice_to.
    + intros l' o' Hl'. cbn [objects]. by apply lookup_app_l_Some.
  - injection His_list as <- <-. injection Hrun as <- <-.
    exists (S fuel). cbn [value_of]. rewrite Hl.
    destruct (mapM _ entries) as [pvs|]; [|done]. by injection Hpv as <-.
Qed.

End Refinement.

End FeaturesFacts.

(** ** More facts about the string operations *)

Module StringFacts.

#[local] Arguments String.append !_ _ : simpl nomatch.

Lemma substring_all (s : string) : String.substring 0 (String.length s) s = s.
Proof. induction s as [|c s IH]; simpl; [done|]. by rewrite IH. Qed.

Lemma partition_eq (sep s : string) :
  Py.partition sep s
  = if String.prefix sep s
    then Some ("", String.substring (String.length sep)
                     (String.length s - String.length sep) s)
    else match s with
         | "" => None
         | String c s' =>
             match Py.partition sep s' with
             | Some (before, after) => Some (String c before, after)
             | None => None
             end
         end.
Proof. by destruct s. Qed.

Lemma prefix_app (sep s : string) : String.prefix sep (sep +:+ s) = true.
Proof.
  induction sep as [|c sep IH]; [by destruct s|].
  rewrite app_cons_str. cbn [String.prefix].
  by destruct (ascii_dec c c).
Qed.

Lemma substring_skip (sep s : string) :
  String.substring (String.length sep)
    (String.length (sep +:+ s) - String.length sep) (sep +:+ s) = s.
Proof.
  induction sep as [|c sep IH].
  - change ("" +:+ s) with s. cbn [String.length].
    rewrite Nat.sub_0_r. apply substring_all.
  - rewrite app_cons_str. exact IH.
Qed.

(** [partition] finds a separator that stands first. *)
Lemma partition_found (sep s : string) : Py.partition sep (sep +:+ s) = Some ("", s).
Proof. by rewrite partition_eq, prefix_app, substring_skip. Qed.

(** [partition] on a one-character separator splits at its first
    occurrence. *)
Lemma partition_char (c : ascii) (before after : string) :
  all_chars (is_not c) before = true ->
  Py.partition (String c "") (before +:+ String c after) = Some (before, after).
Proof.
  induction before as [|d before IH].
  - intros _. apply (partition_found (String c "") after).
  - cbn [all_chars]. unfold is_not at 1. intros [Hd Hbefore]%andb_true_iff.
    apply negb_true_iff, Ascii.eqb_neq in Hd.
    rewrite app_cons_str, partition_eq. cbn [String.prefix].
    destruct (ascii_dec c d) as [->|_]; [done|].
    by rewrite IH.
Qed.

End StringFacts.

(** ** get_images_raw.py: the input file, the file names and the accounts of [main] *)

Module ImagesRawMore.
Import ImagesRaw.

#[local] Arguments String.append !_ _ : simpl nomatch.

(** [json.loads(path.read_text())]: the value read, the
    [json.JSONDecodeError] with its message, or what [read_text] raises on a
    file that it cannot read (an [OSError]) or that is not text (a
    [UnicodeDecodeError], which is a [ValueError]). *)
Inductive json_outcome :=
  | Parsed (data : pyval)
  | JSONDecodeError (msg : string)
  | ReadError (exc : py_exception).

Definition is_str (v : pyval) : bool :=
  match v with PStr _ => true | _ => false end.

Definition load_urls (path : string) (loaded : json_outcome) : result (list string) :=
  match loaded with
  | ReadError exc => Raise exc
  | JSONDecodeError exc =>
      Raise (PyExc ValueError
               ("Failed to parse JSON from " +:+ path +:+ ": " +:+ exc))
  | Parsed data =>
      match data with
      | PList items =>
          if forallb is_str items
          then Ok (omap (fun item => match item with PStr s => Some s | _ => None end)
                     items)
          else Raise (PyExc ValueError
                        ("Expected a JSON array of strings in " +:+ path))
      | _ => Raise (PyExc ValueError ("Expected a JSON array of strings in " +:+ path))
      end
  end.

(** [main] as a whole, from the outcome of reading the input file: the exit
    status and the world it leaves, or the exception that [main] does not
    catch. *)
Definition script `{UrlLib} (net : network) (fs : filesystem) (input : string)
    (loaded : json_outcome) (limit : option Z) (output_dir : string)
  : result (Z * world) :=
  match load_urls input loaded with
  | Raise exc =>
      if decide (exc_type exc = ValueError)
      then Ok (1, eprint (exc_str exc) empty_world)
      else Raise exc
  | Ok urls => Ok (0, the_world (main net fs urls limit output_dir))
  end.

(** The characters that [safe_filename] replaces. *)
Definition forbidden : string := "<>:" +:+ String (ascii_of_nat 34) "/\|?*".

Definition allowed (c : ascii) : bool := negb (mem_char c forbidden).

Definition head_char (s : string) : option ascii :=
  match s with
  | String c _ => Some c
  | "" => None
  end.

Fixpoint last_char (s : string) : option ascii :=
  match s with
  | "" => None
  | String c s' =>
      match last_char s' with
      | Some d => Some d
      | None => Some c
      end
  end.

Definition extensions : list string := [".bin"; ".png"; ".jpg"; ".webp"].

(** The invariant of the download loop: one file per success and at most
    one per failure, one message on standard output per success, one
    message on standard error per failure (a message is what one call of
    [print] writes). *)
Definition accounted (st : loop_state) : Prop :=
  (successes st <= length (files (the_world st)))%nat
  ∧ (length (files (the_world st)) <= successes st + length (failures st))%nat
  ∧ length (stdout (the_world st)) = successes st
  ∧ length (stderr (the_world st)) = length (failures st).

Definition inside (output_dir : string) (file : string * string) : Prop :=
  exists name ext,
    fst file = output_dir +:+ "/" +:+ name +:+ ext
    ∧ ext ∈ extensions ∧ name ≠ "" ∧ all_chars allowed name = true.

(** *** Strings *)

Lemma last_char_rev_app (s1 s2 : string) :
  last_char (String.rev_app s1 s2)
  = match last_char s2 with
    | Some d => Some d
    | None => head_char s1
    end.
Proof.
  revert s2. induction s1 as [|a s1 IH]; intros s2; simpl.
  - by destruct (last_char s2).
  - rewrite IH. simpl. by destruct (last_char s2).
Qed.

Lemma endswith_char (c : ascii) (s : string) :
  endswith (String c "") s
  = match last_char s with
    | Some d => Ascii.eqb d c
    | None => false
    end.
Proof.
  induction s as [|a s IH]; [done|].
  cbn [endswith last_char]. rewrite IH.
  destruct s as [|b s]; simpl.
  - by destruct (Ascii.eqb a c).
  - by destruct (Ascii.eqb a c), (last_char s).
Qed.

Lemma head_char_lstrip p s c : head_char (lstrip p s) = Some c -> p c = false.
Proof.
  induction s as [|a s IH]; simpl; [done|].
  destruct (p a) eqn:Ha; [done|]. simpl. by intros [= <-].
Qed.

Lemma last_char_rstrip p s c : last_char (rstrip p s) = Some c -> p c = false.
Proof.
  unfold rstrip, String.rev. rewrite last_char_rev_app. simpl.
  apply head_char_lstrip.
Qed.

Lemma all_chars_rev_app q s1 s2 :
  all_chars q (String.rev_app s1 s2) = all_chars q s1 && all_chars q s2.
Proof.
  revert s2. induction s1 as [|a s1 IH]; intros s2; simpl; [done|].
  rewrite IH. simpl. by destruct (q a), (all_chars q s1).
Qed.

Lemma all_chars_lstrip q p s :
  all_chars q s = true -> all_chars q (lstrip p s) = true.
Proof.
  induction s as [|a s IH]; simpl; [done|].
  intros [Ha Hs]%andb_true_iff. destruct (p a); [by apply IH|].
  simpl. by rewrite Ha, Hs.
Qed.

Lemma all_chars_rstrip q p s :
  all_chars q s = true -> all_chars q (rstrip p s) = true.
Proof.
  intros Hs. unfold rstrip, String.rev.
  rewrite all_chars_rev_app, andb_true_r.
  apply all_chars_lstrip. by rewrite all_chars_rev_app, andb_true_r.
Qed.

Lemma all_chars_lstrip_space q s :
  all_chars q s = true -> all_chars q (lstrip_space s) = true.
Proof.
  assert (forall n s, (String.length s < n)%nat ->
            all_chars q s = true -> all_chars q (lstrip_space s) = true) as Hall.
  { clear s. induction n as [|n IH]; intros s Hlen Hs; [lia|].
    destruct s as [|c s1]; [done|]. cbn [lstrip_space].
    pose proof Hs as Hs0. cbn [all_chars] in Hs. apply andb_true_iff in Hs as [_ Hs1].
    cbn [String.length] in Hlen.
    destruct (isspace c); [apply IH; [lia|done]|].
    destruct s1 as [|d s2]; [done|].
    cbn [all_chars] in Hs1. apply andb_true_iff in Hs1 as [_ Hs2].
    cbn [String.length] in Hlen.
    destruct (wide_space2 c d); [apply IH; [lia|done]|].
    destruct s2 as [|e s3]; [done|].
    cbn [all_chars] in Hs2. apply andb_true_iff in Hs2 as [_ Hs3].
    cbn [String.length] in Hlen.
    destruct (wide_space3 c d e); [apply IH; [lia|done]|done]. }
  apply (Hall (S (String.length s))). lia.
Qed.

Lemma all_chars_rstrip_space_rev q s :
  all_chars q s = true -> all_chars q (rstrip_space_rev s) = true.
Proof.
  assert (forall n s, (String.length s < n)%nat ->
            all_chars q s = true -> all_chars q (rstrip_space_rev s) = true) as Hall.
  { clear s. induction n as [|n IH]; intros s Hlen Hs; [lia|].
    destruct s as [|e s1]; [done|]. cbn [rstrip_space_rev].
    pose proof Hs as Hs0. cbn [all_chars] in Hs. apply andb_true_iff in Hs as [_ Hs1].
    cbn [String.length] in Hlen.
    destruct (isspace e); [apply IH; [lia|done]|].
    destruct s1 as [|d s2]; [done|].
    cbn [all_chars] in Hs1. apply andb_true_iff in Hs1 as [_ Hs2].
    cbn [String.length] in Hlen.
    destruct (wide_space2 d e); [apply IH; [lia|done]|].
    destruct s2 as [|c s3]; [done|].
    cbn [all_chars] in Hs2. apply andb_true_iff in Hs2 as [_ Hs3].
    cbn [String.length] in Hlen.
    destruct (wide_space3 c d e); [apply IH; [lia|done]|done]. }
  apply (Hall (S (String.length s))). lia.
Qed.

Lemma all_chars_strip q s : all_chars q s = true -> all_chars q (strip s) = true.
Proof.
  intros Hs. unfold strip, String.rev.
  rewrite all_chars_rev_app, andb_true_r.
  apply all_chars_rstrip_space_rev. rewrite all_chars_rev_app, andb_true_r.
  by apply all_chars_lstrip_space.
Qed.

Lemma cleaned_allowed (name : string) :
  all_chars allowed
    (map_chars (fun ch => if mem_char ch forbidden then "_"%char else ch) name) = true.
Proof.
  induction name as [|c name IH]; [done|].
  cbn [map_chars all_chars]. rewrite IH, andb_true_r.
  destruct (mem_char c forbidden) eqn:Hc; [reflexivity|].
  unfold allowed. by rewrite Hc.
Qed.

Lemma safe_filename_allowed name : all_chars allowed (safe_filename name) = true.
Proof.
  unfold safe_filename. cbn zeta.
  destruct (String.eqb _ ""); [reflexivity|].
  apply all_chars_rstrip, all_chars_strip, cleaned_allowed.
Qed.

Lemma safe_filename_nonempty name : safe_filename name ≠ "".
Proof.
  unfold safe_filename. cbn zeta.
  destruct (String.eqb _ "") eqn:Hempty; [done|].
  intros Habs. rewrite Habs in Hempty. discriminate Hempty.
Qed.

Lemma safe_filename_no_dot name : endswith "." (safe_filename name) = false.
Proof.
  unfold safe_filename. cbn zeta.
  destruct (String.eqb _ ""); [reflexivity|].
  rewrite endswith_char.
  destruct (last_char _) as [d|] eqn:Hlast; [|done].
  by apply last_char_rstrip in Hlast.
Qed.

Lemma extension_listed content_type :
  extension_from_content_type content_type ∈ extensions.
Proof.
  unfold extension_from_content_type, extensions.
  destruct content_type as [ct|]; [|set_solver].
  destruct (String.eqb ct ""); [set_solver|].
  destruct (contains "png" ct); [set_solver|].
  destruct (contains "jpeg" ct || contains "jpg" ct); [set_solver|].
  destruct (contains "webp" ct); set_solver.
Qed.

(** *** The file names *)

(** X1: whatever the name it is given, [safe_filename] returns a name that
    is not empty, has none of the nine characters of [forbidden] (angle
    brackets, colon, double quote, slash, backslash, bar, question mark,
    asterisk) and does not end with a dot. *)
Theorem safe_filename_safe (name : string) :
  safe_filename name ≠ ""
  ∧ all_chars (fun c => negb (mem_char c forbidden)) (safe_filename name) = true
  ∧ endswith "." (safe_filename name) = false.
Proof.
  split; [apply safe_filename_nonempty|].
  split; [apply safe_filename_allowed|apply safe_filename_no_dot].
Qed.

(** The trailing space that the dot hid stays: the second strip is of dots
    only. *)
Example safe_filename_trailing_space : safe_filename "a ." = "a ".
Proof. reflexivity. Qed.

(** White space above 127 goes too: a no-break space (U+00A0) before the
    name and an ideographic space (U+3000) after it. *)
Example safe_filename_wide_space :
  safe_filename (String "194" (String "160" ("a" +:+ String "227" (String "128" (String "128" "")))))
  = "a".
Proof. reflexivity. Qed.

(** *** One download *)

Lemma download_image_request `{UrlLib} net fs url out w :
  requested (fst (download_image net fs url out w)) = requested w ++ [url]
  ∧ stdout (fst (download_image net fs url out w)) = stdout w
  ∧ stderr (fst (download_image net fs url out w)) = stderr w.
Proof.
  unfold download_image, session_get.
  repeat match goal with
         | |- context [match ?x with _ => _ end] => destruct x
         end; done.
Qed.

(** The world in which [download_image] works once the request is made. *)
Definition asked (url : string) (w : world) : world :=
  mkWorld (requested w ++ [url]) (stdout w) (stderr w) (files w).

(** The path under which [download_image] files the body of [resp]. *)
Definition inside_path (out : string) (path : string) : Prop :=
  exists name ext,
    path = out +:+ "/" +:+ name +:+ ext
    ∧ ext ∈ extensions ∧ name ≠ "" ∧ all_chars allowed name = true.

Lemma download_image_files `{UrlLib} net fs url out w :
  match snd (download_image net fs url out w) with
  | Ok (path, status) =>
      exists resp,
        net (requested w) url = Ok resp
        ∧ status = status_code resp
        ∧ is_http_error status = false
        ∧ broken resp = None
        ∧ files (fst (download_image net fs url out w))
          = files w ++ [(path, received resp)]
        ∧ inside_path out path
  | Raise exc =>
      (files (fst (download_image net fs url out w)) = files w
       ∧ (net (requested w) url = Raise exc
          ∨ exists resp,
              net (requested w) url = Ok resp
              ∧ ((is_http_error (status_code resp) = true
                  ∧ match text resp with
                    | Raise e => exc = e
                    | Ok body =>
                        exc = PyExc RuntimeError
                                ("HTTP " +:+ pretty (status_code resp) +:+ " for "
                                 +:+ url +:+ ": " +:+ take_chars 500 body)
                    end)
                 ∨ (is_http_error (status_code resp) = false
                    ∧ (feature_id_from_url url = Raise exc
                       ∨ mkdir fs (asked url w) out = Some exc
                       ∨ exists path,
                           inside_path out path
                           ∧ open_wb fs (asked url w) path = Some exc)))))
      ∨ (exists resp path kept,
           net (requested w) url = Ok resp
           ∧ is_http_error (status_code resp) = false
           ∧ inside_path out path
           ∧ files (fst (download_image net fs url out w)) = files w ++ [(path, kept)]
           ∧ (write fs (asked url w) path (received resp) = Some (kept, exc)
              ∨ (write fs (asked url w) path (received resp) = None
                 ∧ kept = received resp ∧ broken resp = Some exc)))
  end.
Proof.
  unfold download_image, session_get. fold (asked url w).
  destruct (net (requested w) url) as [resp|e]; cbn [snd fst]; [|left; auto].
  destruct (is_http_error (status_code resp)) eqn:Hstatus.
  { destruct (text resp) as [body|e] eqn:Htext; cbn [snd fst]; left;
      (split; [done|]); right; exists resp; (split; [done|]); left;
      (split; [done|]); by rewrite Htext. }
  destruct (feature_id_from_url url) as [feature_id|e] eqn:Hid; cbn [snd fst];
    [|left; split; [done|]; right; exists resp; split; [done|]; right; auto].
  assert (inside_path out
            (out +:+ "/" +:+ safe_filename feature_id
             +:+ extension_from_content_type (content_type resp))) as Hinside.
  { exists (safe_filename feature_id), (extension_from_content_type (content_type resp)).
    split; [done|]. split; [apply extension_listed|].
    split; [apply safe_filename_nonempty|apply safe_filename_allowed]. }
  destruct (mkdir fs (asked url w) out) as [e|] eqn:Hmkdir; cbn [snd fst];
    [left; split; [done|]; right; exists resp; split; [done|]; right; auto|].
  destruct (open_wb fs (asked url w) _) as [e|] eqn:Hopen; cbn [snd fst].
  { left. split; [done|]. right. exists resp. split; [done|]. right.
    split; [done|]. right. right. eexists. by split. }
  destruct (write fs (asked url w) _ (received resp)) as [[kept e]|] eqn:Hwrite;
    cbn [snd fst].
  { right. exists resp. eexists _, kept. do 3 (split; [done|]). split; [done|].
    by left. }
  destruct (broken resp) as [e|] eqn:Hbroken; cbn [snd fst].
  - right. exists resp. eexists _, (received resp). do 3 (split; [done|]).
    split; [done|]. right. by rewrite Hwrite.
  - exists resp. by repeat split.
Qed.

(** X2: [download_image] makes one request, for its URL, and prints nothing.
    When it returns, the status is not an HTTP error status and exactly one
    file was written, with the whole body: the path that it returns, made of
    the output directory, a safe name and one of the four extensions.  When
    it raises, either no file was written (the request raised, the status is
    an HTTP error status, [urlsplit] refuses the URL, or [mkdir] or [open]
    raised), or the copy of the body broke (the writing raised, or the
    stream) and left one file, under such a path, with what had been
    copied. *)
Theorem download_image_outcome `{UrlLib} (net : network) (fs : filesystem)
    (url out : string) (w : world) :
  let w' := fst (download_image net fs url out w) in
  let after_request := mkWorld (requested w ++ [url]) (stdout w) (stderr w) (files w) in
  let inside path :=
    exists name ext,
      path = out +:+ "/" +:+ name +:+ ext
      ∧ ext ∈ [".bin"; ".png"; ".jpg"; ".webp"]
      ∧ name ≠ ""
      ∧ all_chars (fun c => negb (mem_char c forbidden)) name = true in
  requested w' = requested w ++ [url]
  ∧ stdout w' = stdout w
  ∧ stderr w' = stderr w
  ∧ match snd (download_image net fs url out w) with
    | Ok (path, status) =>
        exists resp,
          net (requested w) url = Ok resp
          ∧ status = status_code resp
          ∧ is_http_error status = false
          ∧ broken resp = None
          ∧ files w' = files w ++ [(path, received resp)]
          ∧ inside path
    | Raise exc =>
        (files w' = files w
         ∧ (net (requested w) url = Raise exc
            ∨ exists resp,
                net (requested w) url = Ok resp
                ∧ ((is_http_error (status_code resp) = true
                    ∧ match text resp with
                      | Raise e => exc = e
                      | Ok body =>
                          exc = PyExc RuntimeError
                                  ("HTTP " +:+ pretty (status_code resp) +:+ " for "
                                   +:+ url +:+ ": " +:+ take_chars 500 body)
                      end)
                   ∨ (is_http_error (status_code resp) = false
                      ∧ (feature_id_from_url url = Raise exc
                         ∨ mkdir fs after_request out = Some exc
                         ∨ exists path,
                             inside path ∧ open_wb fs after_request path = Some exc)))))
        ∨ (exists resp path kept,
             net (requested w) url = Ok resp
             ∧ is_http_error (status_code resp) = false
             ∧ inside path
             ∧ files w' = files w ++ [(path, kept)]
             ∧ (write fs after_request path (received resp) = Some (kept, exc)
                ∨ (write fs after_request path (received resp) = None
                   ∧ kept = received resp ∧ broken resp = Some exc)))
    end.
Proof.
  cbn zeta.
  destruct (download_image_request net fs url out w) as (Hreq & Hout & Herr).
  do 3 (split; [done|]). apply download_image_files.
Qed.

(** *** The accounts of the loop *)

Lemma download_image_written `{UrlLib} net fs url out w :
  exists new,
    files (fst (download_image net fs url out w)) = files w ++ new
    ∧ (length new <= 1)%nat
    ∧ Forall (inside out) new
    ∧ match snd (download_image net fs url out w) with
      | Ok _ => length new = 1%nat
      | Raise _ => True
      end.
Proof.
  pose proof (download_image_files net fs url out w) as Hfiles.
  destruct (snd (download_image net fs url out w)) as [[path status]|exc].
  - destruct Hfiles as (resp & _ & _ & _ & _ & -> & Hinside).
    eexists [_]. split; [done|]. split; [done|]. split; [|done].
    constructor; [exact Hinside|constructor].
  - destruct Hfiles as [(-> & _)|(resp & path & kept & _ & _ & Hinside & -> & _)].
    + exists []. rewrite app_nil_r. split; [done|]. split; [simpl; lia|]. by split.
    + eexists [_]. split; [done|]. split; [done|]. split; [|done].
      constructor; [exact Hinside|constructor].
Qed.

Lemma loop_body_accounts `{UrlLib} net fs out st idx url :
  accounted st -> accounted (loop_body net fs out st idx url).
Proof.
  intros (Hmin & Hmax & Hout & Herr). unfold accounted, loop_body.
  destruct (download_image_request net fs url out (the_world st)) as (_ & Hout' & Herr').
  destruct (download_image_written net fs url out (the_world st))
    as (new & Hfiles & Hnew & _ & Hone).
  destruct (download_image net fs url out (the_world st)) as [w [[path status]|e]];
    cbn [fst snd] in *.
  - cbn [the_world successes failures print files stdout stderr].
    rewrite Hfiles, !length_app, Hout', Herr'. simpl. lia.
  - cbn [the_world successes failures eprint files stdout stderr].
    rewrite Hfiles, !length_app, Hout', Herr'. simpl. lia.
Qed.

Lemma download_loop_accounts `{UrlLib} net fs out st idx urls :
  accounted st -> accounted (download_loop net fs out st idx urls).
Proof.
  revert st idx. induction urls as [|url urls IH]; intros st idx Hst; simpl; [done|].
  by apply IH, loop_body_accounts.
Qed.

Lemma loop_body_inside `{UrlLib} net fs out st idx url :
  Forall (inside out) (files (the_world st)) ->
  Forall (inside out) (files (the_world (loop_body net fs out st idx url))).
Proof.
  intros Hst. unfold loop_body.
  destruct (download_image_written net fs url out (the_world st))
    as (new & Hfiles & _ & Hinside & _).
  destruct (download_image net fs url out (the_world st)) as [w [[path status]|e]];
    cbn [fst snd the_world print eprint files] in *; rewrite Hfiles;
    apply Forall_app; by split.
Qed.

Lemma download_loop_inside `{UrlLib} net fs out st idx urls :
  Forall (inside out) (files (the_world st)) ->
  Forall (inside out) (files (the_world (download_loop net fs out st idx urls))).
Proof.
  revert st idx. induction urls as [|url urls IH]; intros st idx Hst; simpl; [done|].
  by apply IH, loop_body_inside.
Qed.

Lemma fold_eprint_world (lines : list string) (w : world) :
  files (fold_left (fun w url => eprint ("  " +:+ url) w) lines w) = files w
  ∧ stdout (fold_left (fun w url => eprint ("  " +:+ url) w) lines w) = stdout w
  ∧ length (stderr (fold_left (fun w url => eprint ("  " +:+ url) w) lines w))
    = (length (stderr w) + length lines)%nat.
Proof.
  revert w. induction lines as [|l lines IH]; intros w; cbn [fold_left length].
  - auto with lia.
  - destruct (IH (eprint ("  " +:+ l) w)) as (-> & -> & ->).
    cbn [eprint files stdout stderr]. rewrite length_app. simpl. auto with lia.
Qed.

Lemma closing_world (failed : list string) (w : world) :
  let w' :=
    match failed with
    | [] => w
    | _ =>
        fold_left (fun w url => eprint ("  " +:+ url) w) failed
          (eprint "Failed URLs (not downloaded):" w)
    end in
  files w' = files w
  ∧ stdout w' = stdout w
  ∧ length (stderr w')
    = (length (stderr w)
       + match failed with [] => 0 | _ => S (length failed) end)%nat.
Proof.
  cbn zeta. destruct failed as [|url failed]; [auto with lia|].
  destruct (fold_eprint_world (url :: failed)
              (eprint "Failed URLs (not downloaded):" w)) as (-> & -> & ->).
  cbn [eprint files stdout stderr]. rewrite length_app. cbn [length].
  auto with lia.
Qed.

(** X3: the accounts of [main] are those of the world.  It wrote one file
    per success and at most one per failure (the file that a copy that broke
    has left), each in the output directory under a safe name; standard
    output got one message per success and the closing message; standard
    error got one message per failure and, when there is a failure, the
    heading and one message per failed URL. *)
Theorem main_accounts `{UrlLib} (net : network) (fs : filesystem)
    (urls : list string) (limit : option Z) (out : string) :
  let st := main net fs urls limit out in
  (successes st <= length (files (the_world st)))%nat
  ∧ (length (files (the_world st)) <= successes st + length (failures st))%nat
  ∧ length (stdout (the_world st)) = S (successes st)
  ∧ length (stderr (the_world st))
    = match failures st with
      | [] => 0%nat
      | _ => (2 * length (failures st) + 1)%nat
      end
  ∧ Forall (fun file =>
              exists name ext,
                fst file = out +:+ "/" +:+ name +:+ ext
                ∧ ext ∈ [".bin"; ".png"; ".jpg"; ".webp"]
                ∧ name ≠ ""
                ∧ all_chars (fun c => negb (mem_char c forbidden)) name = true)
      (files (the_world st)).
Proof.
  cbn zeta. unfold main.
  set (given := match limit with Some n => slice_to urls n | None => urls end).
  set (st := download_loop net fs out (mkLoop 0 [] empty_world) 1 (iterate_urls given)).
  assert (accounted st) as (Hmin & Hmax & Hout & Herr).
  { apply download_loop_accounts. unfold accounted. simpl. lia. }
  assert (Forall (inside out) (files (the_world st))) as Hinside
    by (apply download_loop_inside; constructor).
  cbn [successes failures the_world].
  match goal with
  | |- context [match failures st with [] => ?w | _ => _ end] =>
      destruct (closing_world (failures st) w) as (Hf & Ho & He)
  end.
  cbn zeta in Hf, Ho, He. rewrite Hf, Ho, He.
  cbn [print files stdout stderr]. rewrite length_app, Hout, Herr. cbn [length].
  split; [done|]. split; [done|]. split; [lia|].
  split; [destruct (failures st); cbn [length]; lia|exact Hinside].
Qed.

(** A stream that breaks after three bytes: the download is a failure, and
    the file is there with the three bytes. *)
Definition breaking : network :=
  fun _ _ =>
    Ok (mkResponse 200 (Some "image/png") (Ok "") "PNG"
          (Some (PyExc ConnectionError "Connection broken"))).

Example main_keeps_broken_file :
  let st := @main UrllibRef.reference breaking willing
              ["https://gateway.api.globalfishingwatch.org/v3/thumbnail/a"]
              None "images" in
  successes st = 0%nat
  ∧ failures st = ["https://gateway.api.globalfishingwatch.org/v3/thumbnail/a"]
  ∧ files (the_world st) = [("images/a.png", "PNG")].
Proof. cbn zeta. by vm_compute. Qed.

(** *** The generator and the limit *)

Lemma iterate_urls_from_length seen urls :
  (length (iterate_urls_from seen urls) <= length urls)%nat.
Proof.
  revert seen. induction urls as [|u urls IH]; intros seen; simpl; [done|].
  destruct (decide (u ∈ seen)); simpl.
  - specialize (IH seen). lia.
  - specialize (IH ({[u]} ∪ seen)). lia.
Qed.

Lemma iterate_urls_from_id seen urls :
  NoDup urls -> (forall u, u ∈ urls -> u ∉ seen) -> iterate_urls_from seen urls = urls.
Proof.
  intros Hurls. revert seen.
  induction Hurls as [|u urls Hu Hurls IH]; intros seen Hseen; simpl; [done|].
  destruct (decide (u ∈ seen)) as [Hin|Hout].
  - exfalso. apply (Hseen u); [by left|done].
  - f_equal. apply IH. intros v Hv. specialize (Hseen v). set_solver.
Qed.

(** X4: the lists that [iterate_urls] leaves as they are are the lists
    without a duplicate; so to filter twice is to filter once. *)
Theorem iterate_urls_fixed_points (urls : list string) :
  (iterate_urls urls = urls ↔ NoDup urls)
  ∧ iterate_urls (iterate_urls urls) = iterate_urls urls.
Proof.
  assert (forall l : list string, NoDup l -> iterate_urls l = l) as Hid.
  { intros l Hl. apply iterate_urls_from_id; [done|]. set_solver. }
  split; [split|].
  - intros <-. apply iterate_urls_from_NoDup.
  - apply Hid.
  - apply Hid, iterate_urls_from_NoDup.
Qed.

(** X5: with [--limit n], [n] not negative, [main] makes at most [n]
    requests, all of them for URLs among the first [n] of the input. *)
Theorem main_limit `{UrlLib} (net : network) (fs : filesystem) (urls : list string)
    (n : Z) (out : string) :
  0 <= n ->
  let st := main net fs urls (Some n) out in
  Z.of_nat (length (requested (the_world st))) <= n
  ∧ Z.of_nat (successes st + length (failures st)) <= n
  ∧ (forall url, url ∈ requested (the_world st) -> url ∈ take (Z.to_nat n) urls).
Proof.
  intros Hn. cbn zeta.
  assert (slice_to urls n = take (Z.to_nat n) urls) as Hslice.
  { unfold slice_to. by rewrite (proj2 (Z.leb_le 0 n)). }
  assert (length (iterate_urls (take (Z.to_nat n) urls)) <= Z.to_nat n)%nat as Hlen.
  { etrans; [apply iterate_urls_from_length|]. rewrite length_take. lia. }
  rewrite main_requested, Hslice. split; [lia|]. split.
  - unfold main. cbn [successes failures].
    rewrite download_loop_accounted, Hslice. simpl. lia.
  - intros url Hurl. unfold iterate_urls in Hurl.
    by apply iterate_urls_from_elem in Hurl as [Hurl _].
Qed.

Lemma main_limit_witness :
  let st := @main UrllibRef.reference unreachable willing ["u1"; "u2"; "u1"; "u3"]
              (Some 2) "images" in
  0 <= 2
  ∧ requested (the_world st) = ["u1"; "u2"]
  ∧ Z.of_nat (length (requested (the_world st))) <= 2.
Proof.
  cbn zeta. split; [lia|]. split; [reflexivity|].
  apply (@main_limit UrllibRef.reference unreachable willing ["u1"; "u2"; "u1"; "u3"]
           2 "images"). lia.
Defined.

(** *** The input file *)

Lemma load_urls_strings (urls : list string) :
  forallb is_str (map PStr urls) = true
  ∧ omap (fun item => match item with PStr s => Some s | _ => None end) (map PStr urls)
    = urls.
Proof.
  induction urls as [|u urls [IH1 IH2]]; [done|]. simpl. split; [done|].
  f_equal. exact IH2.
Qed.

Lemma strings_load_urls (items : list pyval) :
  forallb is_str items = true ->
  items
  = map PStr (omap (fun item => match item with PStr s => Some s | _ => None end) items).
Proof.
  induction items as [|item items IH]; [done|]. simpl.
  intros [Hitem Hitems]%andb_true_iff.
  destruct item; try done. simpl. f_equal. by apply IH.
Qed.

(** X6: [load_urls] returns a list exactly when the file is read and holds
    a JSON array whose items are all strings, and the list is that array.  A
    file that does not parse, or that holds something else, is a
    [ValueError] with the message of [load_urls]; what [read_text] raises
    goes out of [load_urls] as it is.  With a [ValueError], [main] leaves
    with status 1 and one line on standard error, having made no request and
    written no file; another exception, which can only be one of
    [read_text], goes out of [main] too. *)
Theorem load_urls_accepts `{UrlLib} (path : string) (loaded : json_outcome) :
  (forall urls, load_urls path loaded = Ok urls ↔ loaded = Parsed (PList (map PStr urls)))
  ∧ (forall exc, load_urls path loaded = Raise exc ->
       match loaded with
       | Parsed _ =>
           exc = PyExc ValueError ("Expected a JSON array of strings in " +:+ path)
       | JSONDecodeError msg =>
           exc = PyExc ValueError
                   ("Failed to parse JSON from " +:+ path +:+ ": " +:+ msg)
       | ReadError raised => exc = raised
       end
       ∧ forall net fs limit out,
           script net fs path loaded limit out
           = (if decide (exc_type exc = ValueError)
              then Ok (1, mkWorld [] [] [exc_str exc] [])
              else Raise exc))
  ∧ (forall net fs limit out urls, load_urls path loaded = Ok urls ->
       script net fs path loaded limit out
       = Ok (0, the_world (main net fs urls limit out))).
Proof.
  split; [|split].
  - intros urls. split.
    + destruct loaded as [data|msg|raised]; [|done..]. simpl.
      destruct data as [| | | | |items|]; try done.
      destruct (forallb is_str items) eqn:Hitems; [|done].
      intros [= <-]. by rewrite <- strings_load_urls.
    + intros ->. unfold load_urls.
      destruct (load_urls_strings urls) as [Hall Hmap]. by rewrite Hall, Hmap.
  - intros exc Hexc. unfold script. rewrite Hexc.
    split; [|intros net fs limit out; by destruct (decide (exc_type exc = ValueError))].
    destruct loaded as [data|msg|raised]; simpl in Hexc;
      [|by injection Hexc as <-..].
    destruct data as [| | | | |items|]; try by injection Hexc as <-.
    destruct (forallb is_str items); [done|]. by injection Hexc as <-.
  - intros net fs limit out urls Hurls. unfold script. by rewrite Hurls.
Qed.

(** A missing input file: the exception of [read_text] is not a
    [ValueError], and [main] does not catch it. *)
Example script_missing_file :
  @script UrllibRef.reference unreachable willing "img_urls.json"
    (ReadError (PyExc OSError "[Errno 2] No such file or directory: 'img_urls.json'"))
    None "images"
  = Raise (PyExc OSError "[Errno 2] No such file or directory: 'img_urls.json'").
Proof. reflexivity. Qed.

End ImagesRawMore.

(** ** generate_img_urls.py *)

Module GenerateUrls.
Import StringFacts.

#[local] Arguments String.append !_ _ : simpl nomatch.

(** [load_features], from the value that [json.loads] has returned. *)
Definition load_features (data : pyval) : list pyval :=
  match data with
  | PDict data =>
      let in_main :=
        match dict_get data "main" with
        | PDict main =>
            match dict_get main "features" with
            | PList features => Some features
            | _ => None
            end
        | _ => None
        end in
      match in_main with
      | Some features => features
      | None =>
          match dict_get data "features" with
          | PList features => features
          | _ =>
              match dict_get data "data" with
              | PList features => features
              | _ => []
              end
          end
      end
  | _ => []
  end.

Definition type_name (v : pyval) : string :=
  match v with
  | PNone => "NoneType"
  | PBool _ => "bool"
  | PInt _ => "int"
  | PFloat _ => "float"
  | PStr _ => "str"
  | PList _ => "list"
  | PDict _ => "dict"
  end.

(** [v.get] on a value that is not a dict. *)
Definition no_get {A} (v : pyval) : result A :=
  Raise (PyExc AttributeError
           ("'" +:+ type_name v +:+ "' object has no attribute 'get'")).

Definition feature_id (feature : pyval) : result pyval :=
  match feature with
  | PDict entries =>
      let props := dict_get entries "properties" in
      let props := if truthy props then props else PDict [] in
      match props with
      | PDict props =>
          let id := dict_get props "id" in
          Ok (if truthy id then id else dict_get entries "id")
      | _ => no_get props
      end
  | _ => no_get feature
  end.

Definition base : string := "https://gateway.api.globalfishingwatch.org/v3/thumbnail/".

Section Script.
(** [str] of a float, of a list and of a dict, as an f-string shows them. *)
Variable py_repr : pyval -> string.

(** [f"{fid}"]. *)
Definition py_format (v : pyval) : string :=
  match v with
  | PNone => "None"
  | PBool true => "True"
  | PBool false => "False"
  | PInt z => pretty z
  | PStr s => s
  | _ => py_repr v
  end.

Definition thumbnail_url (dataset : string) (fid : pyval) : string :=
  base +:+ py_format fid +:+ "?dataset=" +:+ dataset.

(** The loop of [main]: [urls] is its accumulator. *)
Fixpoint collect_urls (features : list pyval) (dataset : string) (urls : list string)
  : result (list string) :=
  match features with
  | [] => Ok urls
  | feat :: features =>
      match feature_id feat with
      | Raise exc => Raise exc
      | Ok fid =>
          collect_urls features dataset
            (if truthy fid then urls ++ [thumbnail_url dataset fid] else urls)
      end
  end.

(** [main], from the value read from the input file: the array that it
    writes to the output file and the line that it prints, or the exception
    that ends it before anything is written. *)
Definition main (data : pyval) (output_file dataset : string)
  : result (list string * string) :=
  match collect_urls (load_features data) dataset [] with
  | Raise exc => Raise exc
  | Ok urls =>
      Ok (urls, "Wrote " +:+ pretty (length urls) +:+ " URLs to " +:+ output_file)
  end.

(** A feature that [feature_id] accepts: an object whose [properties], when
    it counts as true, is an object. *)
Definition is_dict (v : pyval) : bool :=
  match v with PDict _ => true | _ => false end.

Definition well_formed (feature : pyval) : bool :=
  match feature with
  | PDict entries =>
      let props := dict_get entries "properties" in
      negb (truthy props) || is_dict props
  | _ => false
  end.

(** The id of a well-formed feature: [properties.id], or else the [id] of
    the feature itself. *)
Definition id_of (feature : pyval) : pyval :=
  match feature with
  | PDict entries =>
      let nested :=
        match dict_get entries "properties" with
        | PDict props => dict_get props "id"
        | _ => PNone
        end in
      if truthy nested then nested else dict_get entries "id"
  | _ => PNone
  end.

Definition url_of (dataset : string) (feature : pyval) : option string :=
  if truthy (id_of feature) then Some (thumbnail_url dataset (id_of feature))
  else None.

Lemma feature_id_well_formed feature :
  well_formed feature = true -> feature_id feature = Ok (id_of feature).
Proof.
  destruct feature as [| | | | | |entries]; try done.
  unfold well_formed, feature_id, id_of. cbn zeta.
  destruct (dict_get entries "properties") as [| | | | | |props] eqn:Hprops;
    cbn [truthy is_dict negb orb]; try done.
  - by destruct b.
  - by destruct (negb (z =? 0)).
  - by destruct (negb ((bits =? 0) || (bits =? 2 ^ 63))).
  - by destruct (negb (s =? "")%string).
  - by destruct items.
  - intros _. by destruct props.
Qed.

Lemma feature_id_ill_formed feature :
  well_formed feature = false ->
  exists msg, feature_id feature = Raise (PyExc AttributeError msg).
Proof.
  destruct feature as [| | | | | |entries]; try (by eexists).
  unfold well_formed, feature_id. cbn zeta.
  destruct (dict_get entries "properties") as [| | | | | |props];
    cbn [truthy is_dict negb orb]; try done.
  - destruct b; [by eexists|done].
  - destruct (negb (z =? 0)); [by eexists|done].
  - destruct (negb ((bits =? 0) || (bits =? 2 ^ 63))); [by eexists|done].
  - destruct (negb (s =? "")%string); [by eexists|done].
  - destruct items; [done|by eexists].
  - by rewrite orb_true_r.
Qed.

Lemma collect_urls_well_formed features dataset urls :
  forallb well_formed features = true ->
  collect_urls features dataset urls = Ok (urls ++ omap (url_of dataset) features).
Proof.
  revert urls. induction features as [|feat features IH]; intros urls; cbn [forallb].
  - intros _. by rewrite app_nil_r.
  - intros [Hfeat Hfeatures]%andb_true_iff. cbn [collect_urls].
    rewrite (feature_id_well_formed feat Hfeat), IH by done.
    cbn [omap list_omap]. unfold url_of at 2.
    destruct (truthy (id_of feat)); [|done]. by rewrite <- app_assoc.
Qed.

Lemma collect_urls_ill_formed features dataset urls :
  forallb well_formed features = false ->
  exists msg, collect_urls features dataset urls = Raise (PyExc AttributeError msg).
Proof.
  revert urls. induction features as [|feat features IH]; intros urls; cbn [forallb];
    [done|].
  cbn [collect_urls]. destruct (well_formed feat) eqn:Hfeat.
  - rewrite (feature_id_well_formed feat Hfeat). cbn [andb]. apply IH.
  - intros _. destruct (feature_id_ill_formed feat Hfeat) as [msg ->]. by exists msg.
Qed.

Lemma omap_length_le {A B} (f : A -> option B) (l : list A) :
  (length (omap f l) <= length l)%nat.
Proof.
  induction l as [|x l IH]; [done|]. cbn [omap list_omap].
  destruct (f x); simpl in *; lia.
Qed.

End Script.

(** X7: when every feature of the input is an object whose [properties],
    if it counts as true, is an object, [main] writes the URLs of the
    features that have an id ([properties.id], or else [id]) in the order of
    the features, each made of the base, the id and the dataset; the features
    without an id are left out, and the line that it prints counts the URLs
    written. *)
Theorem main_urls (py_repr : pyval -> string) (data : pyval)
    (output_file dataset : string) :
  forallb well_formed (load_features data) = true ->
  let urls := omap (url_of py_repr dataset) (load_features data) in
  main py_repr data output_file dataset
  = Ok (urls, "Wrote " +:+ pretty (length urls) +:+ " URLs to " +:+ output_file)
  ∧ (length urls <= length (load_features data))%nat
  ∧ Forall (fun url =>
              exists fid, truthy fid = true
                ∧ url = base +:+ py_format py_repr fid +:+ "?dataset=" +:+ dataset)
      urls.
Proof.
  intros Hfeatures. cbn zeta. split; [|split].
  - unfold main. by rewrite collect_urls_well_formed.
  - apply omap_length_le.
  - apply Forall_forall. intros url Hurl.
    apply list_elem_of_omap in Hurl as (feat & _ & Hfeat).
    unfold url_of in Hfeat.
    destruct (truthy (id_of feat)) eqn:Hid; [|done].
    injection Hfeat as <-. by exists (id_of feat).
Qed.

Definition sample_features : pyval :=
  PDict [("main", PDict [("features",
     PList [PDict [("properties", PDict [("id", PStr "abc")])];
            PDict [("properties", PDict [("name", PStr "no id")])];
            PDict [("id", PInt 42)]])])].

Lemma main_urls_witness :
  main (fun _ => "") sample_features "img_urls.json" "ds"
  = Ok (["https://gateway.api.globalfishingwatch.org/v3/thumbnail/abc?dataset=ds";
         "https://gateway.api.globalfishingwatch.org/v3/thumbnail/42?dataset=ds"],
        "Wrote 2 URLs to img_urls.json").
Proof.
  apply (main_urls (fun _ => "") sample_features "img_urls.json" "ds").
  reflexivity.
Defined.


(** X9: a document in which no list of features is found (it is not an
    object, or [main.features], [features] and [data] are missing or are not
    lists) is not an error: [main] writes the empty array and reports 0
    URLs. *)
Theorem main_without_features (py_repr : pyval -> string) (data : pyval)
    (output_file dataset : string) :
  (forall entries, data = PDict entries ->
     (forall main, dict_get entries "main" = PDict main ->
        is_list (dict_get main "features") = false)
     ∧ is_list (dict_get entries "features") = false
     ∧ is_list (dict_get entries "data") = false) ->
  load_features data = []
  ∧ main py_repr data output_file dataset
    = Ok ([], "Wrote 0 URLs to " +:+ output_file).
Proof.
  intros Hdata.
  assert (load_features data = []) as Hnone.
  { destruct data as [| | | | | |entries]; try done.
    destruct (Hdata entries eq_refl) as (Hmain & Hfeatures & Hlist).
    unfold load_features.
    destruct (dict_get entries "main") as [| | | | | |main]; cycle 6.
    { specialize (Hmain main eq_refl).
      destruct (dict_get main "features"); try done;
        destruct (dict_get entries "features"); try done;
        by destruct (dict_get entries "data"). }
    all: destruct (dict_get entries "features"); try done;
      by destruct (dict_get entries "data"). }
  split; [done|]. unfold main. by rewrite Hnone.
Qed.

Lemma main_without_features_witness :
  main (fun _ => "") (PDict [("features", PStr "none")]) "img_urls.json" "ds"
  = Ok ([], "Wrote 0 URLs to img_urls.json").
Proof.
  apply (main_without_features (fun _ => "") (PDict [("features", PStr "none")])
           "img_urls.json" "ds").
  intros entries [= <-]. by split.
Defined.

(** *** From a generated URL back to the id *)

(** The characters of an id that the URL keeps where they are: no [?], no
    [#], no tab and no line break. *)
Definition id_char (c : ascii) : bool :=
  UrllibRef.not_qh c && negb (UrllibRef.unsafe_url_byte c).

Lemma unquote_to_bytes_plain (s : string) :
  all_chars (is_not "%") s = true -> UrllibRef.unquote_to_bytes s = s.
Proof.
  induction s as [|c s IH]; [done|]. cbn [all_chars UrllibRef.unquote_to_bytes].
  unfold is_not at 1. intros [Hc Hs]%andb_true_iff.
  apply negb_true_iff in Hc. rewrite Hc. by rewrite IH.
Qed.

Lemma decode_run_plain (run : string) :
  all_chars UrllibRef.is_ascii run = true ->
  all_chars (is_not "%") run = true ->
  UrllibRef.decode_run run = run.
Proof.
  intros Hascii Hplain. unfold UrllibRef.decode_run.
  rewrite unquote_to_bytes_plain by done.
  by apply UrllibRef.utf8_replace_valid, UrllibRef.utf8_valid_ascii.
Qed.

Lemma unquote_from_plain (run s : string) :
  all_chars UrllibRef.is_ascii run = true ->
  all_chars (is_not "%") run = true ->
  all_chars (is_not "%") s = true ->
  UrllibRef.unquote_from run s = run +:+ s.
Proof.
  revert run. induction s as [|c s IH]; intros run Hascii Hrun;
    cbn [all_chars UrllibRef.unquote_from].
  - intros _. rewrite app_empty_r. by apply decode_run_plain.
  - intros [Hc Hs]%andb_true_iff. destruct (UrllibRef.is_ascii c) eqn:Hlow.
    + rewrite IH; [by rewrite app_assoc_str| | |done].
      * rewrite all_chars_app, Hascii. cbn [all_chars]. by rewrite Hlow.
      * rewrite all_chars_app, Hrun. cbn [all_chars]. by rewrite Hc.
    + rewrite decode_run_plain by done. by rewrite (IH "") by done.
Qed.

(** A text without [%] is returned as it is. *)
Lemma unquote_plain (s : string) :
  all_chars (is_not "%") s = true -> UrllibRef.unquote s = s.
Proof. intros Hs. unfold UrllibRef.unquote. by rewrite unquote_from_plain. Qed.

Lemma clean_base (rest : string) :
  UrllibRef.clean (base +:+ rest)
  = base +:+ UrllibRef.remove_chars UrllibRef.unsafe_url_byte rest.
Proof. reflexivity. Qed.

Lemma split_scheme_base (rest : string) :
  UrllibRef.split_scheme (base +:+ rest)
  = ("https", "//gateway.api.globalfishingwatch.org/v3/thumbnail/" +:+ rest).
Proof. reflexivity. Qed.

Lemma split_netloc_base (rest : string) :
  UrllibRef.split_netloc ("//gateway.api.globalfishingwatch.org/v3/thumbnail/" +:+ rest)
  = ("gateway.api.globalfishingwatch.org", "/v3/thumbnail/" +:+ rest).
Proof. reflexivity. Qed.

Lemma partition_thumbnail (fid : string) :
  Py.partition "/thumbnail/" ("/v3/thumbnail/" +:+ fid) = Some ("/v3", fid).
Proof.
  change ("/v3/thumbnail/" +:+ fid)
    with (String "/" (String "v" (String "3" ("/thumbnail/" +:+ fid)))).
  do 3 (rewrite partition_eq;
        match goal with
        | |- context [String.prefix ?a ?b] =>
            change (String.prefix a b) with false
        end; cbv iota).
  by rewrite partition_found.
Qed.

Lemma split_clean (url : string) :
  UrllibRef.split url
  = (let '(scheme, rest) := UrllibRef.split_scheme (UrllibRef.clean url) in
     let '(netloc, rest) := UrllibRef.split_netloc rest in
     let '(rest, fragment) := split_once "#" rest in
     let '(rest, query) := split_once "?" rest in
     mkSplit scheme netloc rest (UrllibRef.or_empty query)
       (UrllibRef.or_empty fragment)).
Proof. reflexivity. Qed.

(** The parts of a generated URL: whatever the dataset is, the host is the
    gateway and the path ends with the id. *)
Lemma split_generated (fid dataset : string) :
  all_chars id_char fid = true ->
  exists query fragment,
    UrllibRef.split (base +:+ fid +:+ "?dataset=" +:+ dataset)
    = mkSplit "https" "gateway.api.globalfishingwatch.org" ("/v3/thumbnail/" +:+ fid)
        query fragment.
Proof.
  intros Hfid.
  assert (all_chars (fun c => negb (UrllibRef.unsafe_url_byte c)) fid = true) as Hsafe.
  { eapply all_chars_impl; [|exact Hfid]. unfold id_char.
    by intros c [_ ?]%andb_true_iff. }
  assert (all_chars UrllibRef.not_qh fid = true) as Hqh.
  { eapply all_chars_impl; [|exact Hfid]. unfold id_char.
    by intros c [? _]%andb_true_iff. }
  rewrite split_clean, clean_base, UrllibRef.remove_chars_app, UrllibRef.remove_chars_app.
  rewrite (UrllibRef.remove_chars_id _ fid Hsafe).
  change (UrllibRef.remove_chars UrllibRef.unsafe_url_byte "?dataset=")
    with "?dataset=".
  set (kept := UrllibRef.remove_chars UrllibRef.unsafe_url_byte dataset).
  rewrite split_scheme_base, split_netloc_base.
  rewrite <- !app_assoc_str.
  rewrite (split_once_prefix "#").
  2:{ rewrite !all_chars_app, (UrllibRef.not_qh_no "#" fid) by auto. done. }
  destruct (split_once "#" kept) as [before fragment]. cbn [fst snd].
  rewrite !app_assoc_str.
  change ("?dataset=" +:+ before) with (String "?" ("dataset=" +:+ before)).
  rewrite <- app_assoc_str.
  rewrite (split_once_app "?").
  2:{ rewrite all_chars_app, (UrllibRef.not_qh_no "?" fid) by auto. done. }
  by eexists _, _.
Qed.

(** X10: the two scripts agree on the URLs.  From a URL that [main] builds
    for an id without [?], [#], tab or line break, whatever the dataset is,
    [feature_id_from_url] of get_images_raw.py (over the reference
    [urllib.parse]) gets the id back, percent-decoded: the id itself when it
    has no [%]. *)
Theorem generated_url_feature_id (py_repr : pyval -> string) (id dataset : string) :
  all_chars id_char id = true ->
  @ImagesRaw.feature_id_from_url UrllibRef.reference
     (thumbnail_url py_repr dataset (PStr id))
  = Ok (UrllibRef.unquote id)
  ∧ (all_chars (is_not "%") id = true ->
     @ImagesRaw.feature_id_from_url UrllibRef.reference
        (thumbnail_url py_repr dataset (PStr id))
     = Ok id).
Proof.
  intros Hid.
  assert (@ImagesRaw.feature_id_from_url UrllibRef.reference
            (thumbnail_url py_repr dataset (PStr id))
          = Ok (UrllibRef.unquote id)) as Hback.
  { unfold ImagesRaw.feature_id_from_url, thumbnail_url, py_format.
    cbn [urlsplit unquote UrllibRef.reference]. unfold UrllibRef.urlsplit.
    destruct (split_generated id dataset Hid) as (query & fragment & ->).
    cbn [netloc path].
    change (UrllibRef.refused_netloc "gateway.api.globalfishingwatch.org") with (@None string).
    cbv iota. cbn [path]. by rewrite partition_thumbnail. }
  split; [done|]. intros Hplain. by rewrite Hback, unquote_plain.
Qed.

Lemma generated_url_feature_id_witness :
  @ImagesRaw.feature_id_from_url UrllibRef.reference
     "https://gateway.api.globalfishingwatch.org/v3/thumbnail/S2A_0042?dataset=public-global-sentinel2-thumbnails:v3.0"
  = Ok "S2A_0042".
Proof.
  apply (generated_url_feature_id (fun _ => "") "S2A_0042"
           "public-global-sentinel2-thumbnails:v3.0"); reflexivity.
Defined.

(** An escape that is not UTF-8 comes back as U+FFFD, and a dataset with a
    [#] changes nothing. *)
Example generated_url_bad_escape :
  @ImagesRaw.feature_id_from_url UrllibRef.reference
     (thumbnail_url (fun _ => "") "a#b" (PStr "%FF"))
  = Ok UrllibRef.replacement.
Proof. by vm_compute. Qed.

End GenerateUrls.

(** ** convert_bins_to_png.py: the accounts of [convert_file] and of [main] *)

Module ConvertBinsMore.
Import ConvertBins StringFacts.

#[local] Arguments String.append !_ _ : simpl nomatch.

Definition print (line : string) (w : world) : world :=
  mkWorld (stdout w ++ [line]) (files w).

Section Script.
Variable b64decode : string -> result string.
Variable fs : filesystem.

(** One pass of the loop of [main].  A [.bin] file comes with what
    [json.loads(bin_path.read_text())] makes of it: the value, or the
    exception of the reading or of the parsing, which [main] catches as it
    catches those of [convert_file]. *)
Definition convert_one (output_dir : string) (st : nat * world)
    (bin : string * result pyval) : nat * world :=
  let '(total_written, w) := st in
  let '(bin_file, loaded) := bin in
  let failed (exc : py_exception) (w : world) :=
    (total_written,
     print ("Failed to convert " +:+ bin_file +:+ ": " +:+ exc_str exc) w) in
  match loaded with
  | Raise exc => failed exc w
  | Ok content =>
      match convert_file b64decode fs bin_file content output_dir w with
      | (w, Ok outputs) =>
          ((total_written + length outputs)%nat,
           print (bin_file +:+ " -> " +:+ pretty (length outputs) +:+ " file(s)") w)
      | (w, Raise exc) => failed exc w
      end
  end.

Definition convert_all (bin_files : list (string * result pyval))
    (output_dir : string) (w : world) : nat * world :=
  fold_left (convert_one output_dir) bin_files (0%nat, w).

(** [main], from the files that [find_bin_files] has found. *)
Definition main (bin_files : list (string * result pyval))
    (input_dir output_dir : string) (w : world) : world :=
  match bin_files with
  | [] => print ("No .bin files found in " +:+ input_dir) w
  | _ =>
      let '(total_written, w) := convert_all bin_files output_dir w in
      print ("Done. Wrote " +:+ pretty total_written +:+ " file(s) to " +:+ output_dir) w
  end.

Definition is_dict (v : pyval) : bool :=
  match v with PDict _ => true | _ => false end.

(** The entries that [convert_file] looks at: the objects of the array. *)
Definition entries_of (content : list pyval) : list pyval := List.filter is_dict content.

(** An entry that [decode_entry] lets [convert_file] go past: it is not an
    object, or [decode_entry] returns or raises a [ValueError]. *)
Definition passes (entry : pyval) : bool :=
  match entry with
  | PDict entry =>
      match decode_entry b64decode entry with
      | Ok _ => true
      | Raise exc => bool_decide (exc_type exc = ValueError)
      end
  | _ => true
  end.

Definition converts (bin : string * result pyval) : bool :=
  match snd bin with
  | Ok (PList items) => forallb passes items
  | _ => false
  end.

(** [convert_file] returns on [bin] in the world [w]: the file was read, and
    neither an entry nor the file system has ended the conversion. *)
Definition returns (output_dir : string) (w : world) (bin : string * result pyval)
  : bool :=
  match snd bin with
  | Ok content =>
      match snd (convert_file b64decode fs (fst bin) content output_dir w) with
      | Ok _ => true
      | Raise _ => false
      end
  | Raise _ => false
  end.

(** [convert_file] returns on every file of the run that starts in [st]. *)
Fixpoint all_return (bin_files : list (string * result pyval)) (output_dir : string)
    (st : nat * world) : bool :=
  match bin_files with
  | [] => true
  | bin :: bin_files =>
      returns output_dir (snd st) bin
      && all_return bin_files output_dir (convert_one output_dir st bin)
  end.

(** A file system on which [mkdir] and [write_bytes] never raise. *)
Definition never_refuses : Prop :=
  (forall w dir, mkdir fs w dir = None)
  ∧ (forall w path data, write_bytes fs w path data = None).

(** *** [convert_file] *)

Lemma convert_entries_accounts content output_dir paths w :
  exists new lines,
    files (fst (convert_entries b64decode fs content output_dir paths w)) = files w ++ new
    ∧ stdout (fst (convert_entries b64decode fs content output_dir paths w))
      = stdout w ++ lines
    ∧ match snd (convert_entries b64decode fs content output_dir paths w) with
      | Ok output_paths =>
          output_paths = paths ++ map fst new
          ∧ (length new + length lines)%nat = length (entries_of content)
      | Raise exc =>
          (length new + length lines <= length (entries_of content))%nat
      end.
Proof.
  revert paths w. induction content as [|entry content IH]; intros paths w.
  - exists [], []. cbn. by rewrite !app_nil_r.
  - cbn [convert_entries entries_of List.filter].
    fold (entries_of content).
    destruct entry as [| | | | | |entry];
      try (destruct (IH paths w) as (new & lines & Hfiles & Hout & Hres);
           exists new, lines; by cbn [is_dict]).
    cbn [is_dict length].
    destruct (decode_entry b64decode entry) as [[filename decoded]|exc] eqn:Hentry.
    + destruct (mkdir fs w output_dir) as [exc|].
      { exists [], []. cbn [fst snd length]. rewrite !app_nil_r.
        split; [done|]. split; [done|]. lia. }
      destruct (write_bytes fs w (path_join output_dir filename) decoded)
        as [[[kept|] exc]|].
      { exists [(path_join output_dir filename, kept)], [].
        cbn [fst snd length files stdout]. rewrite !app_nil_r.
        split; [done|]. split; [done|]. lia. }
      { exists [], []. cbn [fst snd length]. rewrite !app_nil_r.
        split; [done|]. split; [done|]. lia. }
      edestruct IH as (new & lines & Hfiles & Hout & Hres).
      exists ((path_join output_dir filename, decoded) :: new), lines.
      rewrite Hfiles, Hout. cbn [files stdout].
      split; [by rewrite <- app_assoc|]. split; [done|].
      match goal with |- match snd ?r with _ => _ end => destruct (snd r) end.
      * destruct Hres as (-> & Hcount).
        split; [by rewrite <- app_assoc|]. cbn [length]. lia.
      * cbn [length]. lia.
    + destruct (decide (exc_type exc = ValueError)) as [Hvalue|Hother].
      * edestruct IH as (new & lines & Hfiles & Hout & Hres).
        exists new, (exc_str exc :: lines).
        rewrite Hfiles, Hout. cbn [files stdout].
        split; [done|]. split; [by rewrite <- app_assoc|]. cbn [length].
        match goal with |- match snd ?r with _ => _ end => destruct (snd r) end.
        -- destruct Hres as (-> & Hcount). split; [done|]. lia.
        -- lia.
      * exists [], []. cbn [fst snd length]. rewrite !app_nil_r.
        split; [done|]. split; [done|]. lia.
Qed.

(** Where [convert_file] stops: on the object [entry], reached in the world
    [w0], with the exception [exc], leaving the world [w']. *)
Definition stopped_at (output_dir : string) (entry : list (string * pyval))
    (w0 w' : world) (exc : py_exception) : Prop :=
  stdout w' = stdout w0
  ∧ ((decode_entry b64decode entry = Raise exc
      ∧ exc_type exc ≠ ValueError
      ∧ files w' = files w0)
     ∨ (exists filename decoded,
          decode_entry b64decode entry = Ok (filename, decoded)
          ∧ ((mkdir fs w0 output_dir = Some exc ∧ files w' = files w0)
             ∨ (mkdir fs w0 output_dir = None
                ∧ ((write_bytes fs w0 (path_join output_dir filename) decoded
                    = Some (None, exc)
                    ∧ files w' = files w0)
                   ∨ (exists kept,
                        write_bytes fs w0 (path_join output_dir filename) decoded
                        = Some (Some kept, exc)
                        ∧ files w'
                          = files w0 ++ [(path_join output_dir filename, kept)])))))).

Lemma convert_entries_raises content output_dir paths w w' exc :
  convert_entries b64decode fs content output_dir paths w = (w', Raise exc) ->
  exists before entry rest w0 paths0,
    content = before ++ PDict entry :: rest
    ∧ convert_entries b64decode fs before output_dir paths w = (w0, Ok paths0)
    ∧ stopped_at output_dir entry w0 w' exc.
Proof.
  revert paths w. induction content as [|item content IH]; intros paths w; [done|].
  assert (forall paths1 w1,
            convert_entries b64decode fs content output_dir paths1 w1 = (w', Raise exc) ->
            convert_entries b64decode fs [item] output_dir paths w = (w1, Ok paths1) ->
            exists before entry rest w0 paths0,
              item :: content = before ++ PDict entry :: rest
              ∧ convert_entries b64decode fs before output_dir paths w = (w0, Ok paths0)
              ∧ stopped_at output_dir entry w0 w' exc) as Hnext.
  { intros paths1 w1 Hrest Hitem.
    destruct (IH paths1 w1 Hrest)
      as (before & entry & rest & w0 & paths0 & -> & Hbefore & Hstop).
    exists (item :: before), entry, rest, w0, paths0.
    split; [done|]. split; [|done].
    revert Hitem. cbn [convert_entries].
    destruct item as [| | | | | |first]; try (intros [= <- <-]; exact Hbefore).
    destruct (decode_entry b64decode first) as [[filename decoded]|e].
    - destruct (mkdir fs w output_dir); [done|].
      destruct (write_bytes fs w (path_join output_dir filename) decoded)
        as [[[kept|] e]|]; try done.
      intros [= <- <-]. exact Hbefore.
    - destruct (decide (exc_type e = ValueError)); [|done].
      intros [= <- <-]. exact Hbefore. }
  cbn [convert_entries] in Hnext |- *.
  destruct item as [| | | | | |first]; try (intros Hrest; by eapply Hnext).
  destruct (decode_entry b64decode first) as [[filename decoded]|e] eqn:Hentry.
  - destruct (mkdir fs w output_dir) as [e|] eqn:Hmkdir.
    { intros [= <- <-]. exists [], first, content, w, paths.
      split; [done|]. split; [done|]. split; [done|]. right.
      exists filename, decoded. split; [done|]. left. by split. }
    destruct (write_bytes fs w (path_join output_dir filename) decoded)
      as [[[kept|] e]|] eqn:Hwrite.
    + intros [= <- <-]. exists [], first, content, w, paths.
      split; [done|]. split; [done|]. split; [done|]. right.
      exists filename, decoded. split; [done|]. right. split; [done|]. right.
      by exists kept.
    + intros [= <- <-]. exists [], first, content, w, paths.
      split; [done|]. split; [done|]. split; [done|]. right.
      exists filename, decoded. split; [done|]. right. split; [done|]. by left.
    + intros Hrest. by eapply Hnext.
  - destruct (decide (exc_type e = ValueError)) as [Hvalue|Hother].
    + intros Hrest. by eapply Hnext.
    + intros [= <- <-]. exists [], first, content, w, paths.
      split; [done|]. split; [done|]. split; [done|]. by left.
Qed.

(** X11: when [convert_file] returns, the paths that it returns are those of
    the files that it has written, in the order of the writing; the content
    is an array, and each object of the array has given one file or one
    line on standard output (the message of its [ValueError]); what is not
    an object was passed over in silence. *)
Theorem convert_file_accounts (bin_path : string) (content : pyval)
    (output_dir : string) (w w' : world) (output_paths : list string) :
  convert_file b64decode fs bin_path content output_dir w = (w', Ok output_paths) ->
  exists items new lines,
    content = PList items
    ∧ files w' = files w ++ new
    ∧ map fst new = output_paths
    ∧ stdout w' = stdout w ++ lines
    ∧ (length output_paths + length lines)%nat = length (List.filter is_dict items).
Proof.
  intros Hconvert. unfold convert_file in Hconvert.
  destruct content as [| | | | |items|]; try done.
  destruct (convert_entries_accounts items output_dir [] w)
    as (new & lines & Hfiles & Hout & Hres).
  rewrite Hconvert in Hfiles, Hout, Hres. cbn [fst snd] in *.
  destruct Hres as (-> & Hcount).
  exists items, new, lines. cbn [app]. rewrite length_map. by repeat split.
Qed.


(** *** [main] *)

Lemma convert_entries_passes items output_dir paths w :
  never_refuses ->
  forallb passes items = true ->
  exists output_paths,
    snd (convert_entries b64decode fs items output_dir paths w) = Ok output_paths.
Proof.
  intros [Hmkdir Hwrite]. revert paths w.
  induction items as [|item items IH]; intros paths w; [by exists paths|].
  cbn [forallb]. intros [Hitem Hitems]%andb_true_iff. cbn [convert_entries].
  destruct item as [| | | | | |entry]; try by apply IH.
  cbn [passes] in Hitem.
  destruct (decode_entry b64decode entry) as [[filename decoded]|exc].
  - rewrite Hmkdir, Hwrite. by apply IH.
  - apply bool_decide_eq_true_1 in Hitem. rewrite decide_True by done. by apply IH.
Qed.

Lemma convert_file_extends bin_path content output_dir w :
  exists new,
    files (fst (convert_file b64decode fs bin_path content output_dir w)) = files w ++ new
    ∧ match snd (convert_file b64decode fs bin_path content output_dir w) with
      | Ok output_paths => length output_paths = length new
      | Raise _ => True
      end.
Proof.
  destruct content as [| | | | |items|];
    try (exists []; by rewrite app_nil_r).
  cbn [convert_file].
  destruct (convert_entries_accounts items output_dir [] w)
    as (new & lines & Hfiles & _ & Hres).
  exists new. split; [done|].
  destruct (snd (convert_entries b64decode fs items output_dir [] w)); [|done].
  destruct Hres as (-> & _). cbn [app]. by rewrite length_map.
Qed.

Lemma returns_converts output_dir w bin :
  never_refuses -> converts bin = true -> returns output_dir w bin = true.
Proof.
  intros Hfs. unfold converts, returns.
  destruct (snd bin) as [content|exc]; [|done].
  destruct content as [| | | | |items|]; try done.
  intros Hpass. cbn [convert_file].
  by destruct (convert_entries_passes items output_dir [] w Hfs Hpass) as [paths ->].
Qed.

Lemma convert_one_total output_dir total w bin :
  exists new,
    files (snd (convert_one output_dir (total, w) bin)) = files w ++ new
    ∧ (fst (convert_one output_dir (total, w) bin) <= total + length new)%nat
    ∧ (total <= fst (convert_one output_dir (total, w) bin))%nat
    ∧ (returns output_dir w bin = true ->
       fst (convert_one output_dir (total, w) bin) = (total + length new)%nat).
Proof.
  unfold returns. destruct bin as [bin_file [content|exc]]; cbn [convert_one fst snd].
  - destruct (convert_file_extends bin_file content output_dir w) as (new & Hfiles & Hres).
    destruct (convert_file b64decode fs bin_file content output_dir w)
      as [w' [outputs|exc]] eqn:Hconvert; cbn [fst snd print files] in *.
    + exists new. rewrite Hres. split; [done|]. split; [lia|]. split; [lia|done].
    + exists new. split; [done|]. split; [lia|]. split; [lia|done].
  - exists []. cbn [fst snd print files]. rewrite app_nil_r.
    split; [done|]. split; [lia|]. split; [lia|done].
Qed.

Lemma fold_convert_total bin_files output_dir total w :
  exists new,
    files (snd (fold_left (convert_one output_dir) bin_files (total, w)))
    = files w ++ new
    ∧ (fst (fold_left (convert_one output_dir) bin_files (total, w))
       <= total + length new)%nat
    ∧ (all_return bin_files output_dir (total, w) = true ->
       fst (fold_left (convert_one output_dir) bin_files (total, w))
       = (total + length new)%nat).
Proof.
  revert total w. induction bin_files as [|bin bin_files IH]; intros total w.
  - exists []. cbn. rewrite app_nil_r. split; [done|]. split; [lia|]. intros _. lia.
  - cbn [fold_left all_return snd].
    destruct (convert_one_total output_dir total w bin)
      as (new1 & Hfiles1 & Hle1 & _ & Heq1).
    destruct (convert_one output_dir (total, w) bin) as [total1 w1].
    cbn [fst snd] in *.
    destruct (IH total1 w1) as (new2 & Hfiles2 & Hle2 & Heq2).
    exists (new1 ++ new2). rewrite Hfiles2, Hfiles1, length_app.
    split; [by rewrite app_assoc|]. split; [lia|].
    intros [Hbin Hbins]%andb_true_iff.
    rewrite Heq2, Heq1 by done. lia.
Qed.

Lemma all_return_converts bin_files output_dir st :
  never_refuses -> forallb converts bin_files = true ->
  all_return bin_files output_dir st = true.
Proof.
  intros Hfs. revert st. induction bin_files as [|bin bin_files IH]; intros st; [done|].
  cbn [forallb all_return]. intros [Hbin Hbins]%andb_true_iff.
  by rewrite returns_converts, IH.
Qed.

(** X13: the total that [main] reports never exceeds the number of files
    written, and is that number when [convert_file] has returned on every
    [.bin] file of the run; so it is when the file system never refuses
    and every [.bin] file was read as an array whose objects [decode_entry]
    decodes or refuses with a [ValueError].  (The files that [convert_file]
    wrote before it raised are not counted.) *)
Theorem convert_all_total (bin_files : list (string * result pyval))
    (output_dir : string) (w : world) :
  exists new,
    files (snd (convert_all bin_files output_dir w)) = files w ++ new
    ∧ (fst (convert_all bin_files output_dir w) <= length new)%nat
    ∧ (all_return bin_files output_dir (0%nat, w) = true ->
       fst (convert_all bin_files output_dir w) = length new)
    ∧ ((forall w dir, mkdir fs w dir = None) ->
       (forall w path data, write_bytes fs w path data = None) ->
       forallb converts bin_files = true ->
       fst (convert_all bin_files output_dir w) = length new).
Proof.
  unfold convert_all.
  destruct (fold_convert_total bin_files output_dir 0%nat w)
    as (new & Hfiles & Hle & Heq).
  exists new. split; [done|]. split; [lia|]. split.
  - intros Hall. by rewrite Heq.
  - intros Hmkdir Hwrite Hall. rewrite Heq; [done|].
    by apply all_return_converts.
Qed.

End Script.

(** A file system that never refuses, and one that has no room left: the
    file is made, and the writing raises. *)
Definition writable : filesystem := mkFs (fun _ _ => None) (fun _ _ _ => None).

Definition full : filesystem :=
  mkFs (fun _ _ => None)
    (fun _ _ _ => Some (Some "", PyExc OSError "[Errno 28] No space left on device")).

(** A file whose second entry has a number for a name: the first entry was
    written, and [main] reports no file. *)
Definition half_converted : list (string * result pyval) :=
  [("images/a.bin",
    Ok (PList [PDict [("name", PStr "one.png"); ("data", PStr "aGVsbG8=")];
               PDict [("name", PInt 5)]]))].

Example main_undercounts :
  main b64decode_ref writable half_converted "images" "images" (mkWorld [] [])
  = mkWorld
      ["Failed to convert images/a.bin: expected str, bytes or os.PathLike object";
       "Done. Wrote 0 file(s) to images"]
      [("images/one.png", "hello")].
Proof. reflexivity. Qed.

(** On a file system that is full the one entry of the file is decoded, and
    yet [write_bytes] ends the conversion: an empty file is left, and [main]
    reports no file. *)
Definition one_entry : list (string * result pyval) :=
  [("images/a.bin",
    Ok (PList [PDict [("name", PStr "one.png"); ("data", PStr "aGVsbG8=")]]))].

Example main_full_disk :
  forallb (converts b64decode_ref) one_entry = true
  ∧ all_return b64decode_ref full one_entry "images" (0%nat, mkWorld [] []) = false
  ∧ main b64decode_ref full one_entry "images" "images" (mkWorld [] [])
    = mkWorld
        ["Failed to convert images/a.bin: [Errno 28] No space left on device";
         "Done. Wrote 0 file(s) to images"]
        [("images/one.png", "")].
Proof. by repeat split. Qed.

Definition sample_content : pyval :=
  PList [PDict [("name", PStr "one.png"); ("data", PStr "aGVsbG8=")];
         PInt 7;
         PDict [("name", PStr "two"); ("data", PStr "a")]].

Lemma convert_file_accounts_witness :
  exists items new lines,
    sample_content = PList items
    ∧ [("out/one.png", "hello")] = [] ++ new
    ∧ map fst new = ["out/one.png"]
    ∧ ["Failed to decode base64 for two.png: Invalid base64-encoded string"]
      = [] ++ lines
    ∧ (1 + length lines)%nat = length (List.filter is_dict items).
Proof.
  apply (convert_file_accounts b64decode_ref writable "a.bin" sample_content "out"
           (mkWorld [] [])
           (mkWorld ["Failed to decode base64 for two.png: Invalid base64-encoded string"]
              [("out/one.png", "hello")])
           ["out/one.png"]).
  reflexivity.
Defined.


(** *** [decode_entry] *)

(** The name under which [decode_entry] files an entry. *)
Definition filename_of (name : string) : string :=
  if negb (endswith ".png" (lower (path_name name))) then path_name name +:+ ".png"
  else path_name name.

(** X14: in a data URI the payload is what follows the first comma: for
    an entry whose name is a string and whose data is [before,payload] with
    no comma in [before], [decode_entry] decodes [payload], whatever
    [before] is; when the decoding fails, it raises a [ValueError] that names
    the file and carries the message of the failure. *)
Theorem decode_entry_data_uri (b64decode : string -> result string)
    (entry : list (string * pyval)) (name before payload : string) :
  dict_get entry "name" = PStr name -> name ≠ "" ->
  dict_get entry "data" = PStr (before +:+ "," +:+ payload) ->
  all_chars (is_not ",") before = true ->
  decode_entry b64decode entry
  = match b64decode payload with
    | Ok decoded => Ok (filename_of name, decoded)
    | Raise exc =>
        Raise (PyExc ValueError
                 ("Failed to decode base64 for " +:+ filename_of name +:+ ": "
                  +:+ exc_str exc))
    end.
Proof.
  intros Hname Hne Hdata Hbefore. unfold decode_entry. rewrite Hname, Hdata.
  cbn [truthy].
  assert ((name =? "")%string = false) as -> by (by apply String.eqb_neq).
  assert ((before +:+ "," +:+ payload =? "")%string = false) as ->.
  { apply String.eqb_neq. by destruct before. }
  cbn [negb]. change ("," +:+ payload) with (String "," payload).
  rewrite partition_char by done. reflexivity.
Qed.

Lemma decode_entry_data_uri_witness :
  decode_entry b64decode_ref
    [("name", PStr "thumb"); ("data", PStr "image/png;base64,aGVsbG8=")]
  = Ok ("thumb.png", "hello").
Proof.
  apply (decode_entry_data_uri b64decode_ref
           [("name", PStr "thumb"); ("data", PStr "image/png;base64,aGVsbG8=")]
           "thumb" "image/png;base64" "aGVsbG8="); try reflexivity.
  discriminate.
Defined.

(** X15: the keys that are missing.  An entry whose name is missing, null
    or empty is filed as [image.png]; an entry whose data is missing, null
    or empty is decoded from the empty string. *)
Theorem decode_entry_defaults (b64decode : string -> result string)
    (entry : list (string * pyval)) :
  (truthy (dict_get entry "name") = false ->
   forall name decoded,
     decode_entry b64decode entry = Ok (name, decoded) -> name = "image.png")
  ∧ (truthy (dict_get entry "data") = false ->
     forall name decoded,
       decode_entry b64decode entry = Ok (name, decoded) -> b64decode "" = Ok decoded).
Proof.
  unfold decode_entry. split.
  - intros ->.
    change (path_name "image.png") with "image.png".
    change (negb (endswith ".png" (lower "image.png"))) with false. cbv iota.
    intros name decoded.
    destruct (if truthy (dict_get entry "data") then dict_get entry "data"
              else PStr "") as [| | | |data|items|entries]; try done.
    + destruct (b64decode _); [|done]. by intros [= <- _].
    + by destruct (has_comma_item items).
    + by destruct (has_comma_key entries).
  - intros ->. intros name decoded.
    destruct (if truthy (dict_get entry "name") then dict_get entry "name"
              else PStr "image.png") as [| | | |given| |]; try done.
    change (Py.partition "," "") with (@None (string * string)). cbv iota.
    destruct (b64decode ""); [|done]. by intros [= _ <-].
Qed.

End ConvertBinsMore.

(** ** get_features.py: how truncations and filter choices compose *)

Module FeaturesMore.
Import Features.

Lemma slice_to_nonneg {A} (l : list A) (n : Z) :
  0 <= n -> slice_to l n = take (Z.to_nat n) l.
Proof. intros Hn. unfold slice_to. by rewrite (proj2 (Z.leb_le 0 n)). Qed.

Lemma truncate_geometry_compose (geom : pyval) (n m : Z) :
  0 <= n -> 0 <= m ->
  truncate_geometry (truncate_geometry geom n) m = truncate_geometry geom (Z.min n m).
Proof.
  intros Hn Hm. induction geom as [v Hv|items IH] using pyval_nesting_ind.
  - by rewrite (truncate_geometry_leaf v n Hv), !(truncate_geometry_leaf v _ Hv).
  - rewrite !truncate_geometry_list, !slice_to_nonneg by lia.
    rewrite firstn_map, map_map, take_take. f_equal.
    replace (Z.to_nat (Z.min n m)) with (Nat.min (Z.to_nat m) (Z.to_nat n)) by lia.
    apply map_ext_Forall. by apply Forall_take.
Qed.

Lemma truncate_geometry_within (geom : pyval) (n : Z) :
  lists_at_most n geom -> truncate_geometry geom n = geom.
Proof.
  induction geom as [v Hv|items IH] using pyval_nesting_ind; intros Hgeom.
  - by apply truncate_geometry_leaf.
  - inversion Hgeom as [v Hleaf|items' Hlen Hitems]; [done|subst].
    rewrite truncate_geometry_list, slice_to_nonneg by lia.
    rewrite take_ge by lia. f_equal.
    clear Hgeom Hlen. induction Hitems as [|item items Hitem Hitems IHitems]; [done|].
    inversion IH as [|? ? Hfirst Hrest]; subst. cbn [map].
    f_equal; [by apply Hfirst|by apply IHitems].
Qed.

(** X16: truncations compose: with bounds that are not negative, to
    truncate to [n] and then to [m] is to truncate to the smaller of the two,
    so that to truncate twice to [n] is to truncate once; and a geometry whose
    lists all have at most [n] elements is returned as it is. *)
Theorem truncate_geometry_twice (geom : pyval) (n m : Z) :
  0 <= n -> 0 <= m ->
  truncate_geometry (truncate_geometry geom n) m = truncate_geometry geom (Z.min n m)
  ∧ truncate_geometry (truncate_geometry geom n) n = truncate_geometry geom n
  ∧ (lists_at_most n geom -> truncate_geometry geom n = geom).
Proof.
  intros Hn Hm. split; [by apply truncate_geometry_compose|]. split.
  - rewrite truncate_geometry_compose by done. by rewrite Z.min_id.
  - apply truncate_geometry_within.
Qed.

Lemma truncate_geometry_twice_witness :
  truncate_geometry (truncate_geometry sample_geometry 2) 1
  = PList [PList [PInt 0]].
Proof.
  rewrite (proj1 (truncate_geometry_twice sample_geometry 2 1 ltac:(lia) ltac:(lia))).
  reflexivity.
Defined.

Section Override.
Context {U : UrlLib} {L : UrlLibLaws U}.

(** The parameters that are encoded after two adjustments are those that
    the second adjustment alone encodes. *)
Lemma adjusted_items_twice (items : list (string * string)) (first second : string) :
  adjusted_items (adjusted_items items first) second = adjusted_items items second.
Proof.
  unfold adjusted_items at 1 3.
  by rewrite (proj2 (adjusted_items_filter items first)).
Qed.

(** X17: a later choice of the matched filter replaces an earlier one.  When
    the URL is adjusted with a first choice, and the result with a second
    choice, and both adjustments return, the adjustment of the URL with the
    second choice alone returns too, and the two URLs have the same query:
    the one that [urlencode] makes of the parameters of the URL that are not
    [filters[0]], followed by the filter of the second choice when there is
    one.  Without a choice the URL is the one that was given. *)
Theorem adjust_matched_filter_override (url first second once twice : string) :
  adjust_matched_filter url (Some first) = Ok once ->
  adjust_matched_filter once (Some second) = Ok twice ->
  (exists parts alone q,
     urlsplit url = Ok parts
     ∧ adjust_matched_filter url (Some second) = Ok alone
     ∧ urlencode (filter (fun kv => fst kv ≠ "filters[0]") (parse_qsl (query parts))
                  ++ (if decide (second ≠ "any")
                      then [("filters[0]", "matched IN ('" +:+ second +:+ "')")]
                      else []))
       = Ok q
     ∧ (forall parts', urlsplit twice = Ok parts' -> query parts' = q)
     ∧ (forall parts', urlsplit alone = Ok parts' -> query parts' = q))
  ∧ adjust_matched_filter url None = Ok url.
Proof.
  intros Hfirst Hsecond. split; [|done].
  apply adjust_matched_filter_inv in Hfirst as (parts & q1 & Hparts & Hq1 & ->).
  apply adjust_matched_filter_inv in Hsecond as (parts1 & q & Hparts1 & Hq & ->).
  pose proof (urlsplit_urlunsplit_query _ _ _ _ _ Hparts Hq1 Hparts1) as Hquery.
  rewrite Hquery, (parse_qsl_urlencode _ _ Hq1), adjusted_items_twice in Hq.
  exists parts, (urlunsplit (with_query parts q)), q.
  split; [done|]. split; [by apply adjust_matched_filter_Ok|]. split; [exact Hq|].
  split; intros parts' Hparts'.
  - exact (urlsplit_urlunsplit_query _ _ _ _ _ Hparts1 Hq Hparts').
  - exact (urlsplit_urlunsplit_query _ _ _ _ _ Hparts Hq Hparts').
Qed.

End Override.

(** The default URL adjusted to [true] and then to [false]. *)
Definition default_query_false : string :=
  "datasets%5B0%5D=public-global-sentinel2-presence%3Av3.0"
  +:+ "&format=MVT&max-points=5000"
  +:+ "&properties%5B0%5D=bearing%2Cshipname%2Cvessel_id"
  +:+ "&date-range=2025-08-01T00%3A00%3A00.000Z%2C2025-11-24T00%3A00%3A00.000Z"
  +:+ "&filters%5B0%5D=matched+IN+%28%27false%27%29".

Definition default_url_false : string :=
  "https://gateway.api.globalfishingwatch.org/v3/4wings/tile/position/12/3294/1837"
  +:+ "?" +:+ default_query_false.

Lemma adjust_matched_filter_override_witness :
  exists q,
    query (UrllibRef.split default_url_false) = q
    ∧ filter is_filter (@parse_qsl UrllibRef.reference q)
      = [("filters[0]", "matched IN ('false')")].
Proof.
  destruct (@adjust_matched_filter_override UrllibRef.reference UrllibRef.reference_laws
              DEFAULT_URL "true" "false" default_url_true default_url_false)
    as ((parts & alone & q & _ & _ & _ & Htwice & _) & _);
    [vm_compute; reflexivity..|].
  exists q. split.
  - apply Htwice. vm_compute. reflexivity.
  - rewrite <- (Htwice (UrllibRef.split default_url_false)) by (vm_compute; reflexivity).
    vm_compute. reflexivity.
Defined.

End FeaturesMore.

(** ** get_features.py: the request, the exit status and the console of [main] *)

Module FeaturesRunMore.
Import FeaturesRun FeaturesFacts.

#[local] Arguments String.append !_ _ : simpl nomatch.

(** The headers that [fetch_tile] builds. *)
Definition headers_sent (token origin : option string) : list (string * val) :=
  [("Accept", VStr "application/x-protobuf")]
  ++ (if is_nonempty token
      then [("Authorization", VStr ("Bearer " +:+ default "" token))] else [])
  ++ (if is_nonempty origin then [("Origin", VStr (default "" origin))] else []).

Definition debug_line (response : response) : string :=
  "HTTP " +:+ pretty (status_code response) +:+ " " +:+ reason response
  +:+ ", Headers: " +:+ headers_text response.

Definition http_error_message (response : response) (url : string) : string :=
  pretty (status_code response)
  +:+ (if status_code response <? 500 then " Client Error: " else " Server Error: ")
  +:+ reason response +:+ " for url: " +:+ url.

Definition is_http_error (status : Z) : bool := (400 <=? status) && (status <? 600).

(** [print_selected_fields], the consumer that [main] keeps commented out. *)
Definition print_feature_fields (py_str : list obj -> val -> string)
    (layer_name : string) (feature : val) : M unit :=
  empty <- alloc (ODict []) ;;
  props <- py_get feature "properties" empty ;;
  bearing <- py_get props "bearing" VNone ;;
  shipname <- py_get props "shipname" VNone ;;
  vessel_id <- py_get props "vessel_id" VNone ;;
  shown_bearing <- show py_str bearing ;;
  shown_shipname <- show py_str shipname ;;
  shown_vessel_id <- show py_str vessel_id ;;
  print (layer_name +:+ " | bearing=" +:+ shown_bearing +:+ " | shipname="
         +:+ shown_shipname +:+ " | vessel_id=" +:+ shown_vessel_id).

Definition print_layer_fields (py_str : list obj -> val -> string)
    (layer : string * val) : M unit :=
  let '(layer_name, layer_data) := layer in
  empty <- alloc (OList []) ;;
  features <- py_get layer_data "features" empty ;;
  features <- py_iter features ;;
  for_each (fun _ feature => print_feature_fields py_str layer_name feature)
    features 0.

Definition print_selected_fields (py_str : list obj -> val -> string) (tile : val)
  : M unit :=
  truthy <- py_truthy tile ;;
  if negb truthy then print (nl +:+ "No data to list requested fields.")
  else
    print (nl +:+ "Requested fields (bearing, shipname, vessel_id):") ;;
    layers <- py_items tile ;;
    for_each (fun _ layer => print_layer_fields py_str layer) layers 0.

(** Nothing was written to standard error. *)
Definition quiet (s s' : state) : Prop := stderr s' = stderr s.

#[export] Instance quiet_preorder : PreOrder quiet.
Proof. split; [done|]. intros s1 s2 s3 H1 H2. unfold quiet in *. congruence. Qed.

Lemma load_quiet l : preserves quiet (load l).
Proof. intros s. unfold load. by destruct (objects s !! l). Qed.

Lemma alloc_quiet o : preserves quiet (alloc o).
Proof. by intros s. Qed.

Lemma print_quiet line : preserves quiet (print line).
Proof. by intros s. Qed.

Lemma show_quiet py_str v : preserves quiet (show py_str v).
Proof. by intros s. Qed.

Lemma dumps_quiet json_dumps v : preserves quiet (dumps json_dumps v).
Proof. intros s. unfold dumps. by destruct (json_dumps (objects s) v). Qed.

#[export] Hint Resolve quiet_preorder load_quiet alloc_quiet print_quiet show_quiet
  dumps_quiet : preserves.

Section Script.
Context {U : UrlLib}.
Variable py_str : list obj -> val -> string.
Variable json_dumps : list obj -> val -> result string.
Variable requests_get : string -> list (string * val) -> result response.
Variable decode : list Wire.byte -> result pyval.
Variable recursion_limit : nat.

Lemma lookup_new {A} (l : list A) (x : A) : (l ++ [x]) !! length l = Some x.
Proof. by rewrite lookup_app_r, Nat.sub_diag. Qed.

Lemma insert_new {A} (l : list A) (x y : A) : <[length l := y]> (l ++ [x]) = l ++ [y].
Proof. rewrite insert_app_r_alt by done. by rewrite Nat.sub_diag. Qed.

Lemma setitem_new objs entries key value out err :
  py_setitem (VRef (length objs)) key value (mkState (objs ++ [ODict entries]) out err)
  = (Ok tt, mkState (objs ++ [ODict (dict_set entries key value)]) out err).
Proof.
  unfold py_setitem, bind, load, assign. cbn [objects stdout stderr].
  rewrite lookup_new. cbn [objects stdout stderr]. by rewrite insert_new.
Qed.

Lemma items_new objs entries out err :
  py_items (VRef (length objs)) (mkState (objs ++ [ODict entries]) out err)
  = (Ok entries, mkState (objs ++ [ODict entries]) out err).
Proof. unfold py_items, bind, load. cbn [objects]. by rewrite lookup_new. Qed.

Lemma fetch_tile_eq (get : string -> list (string * val) -> result response)
    url token origin debug_http s :
  fetch_tile get url token origin debug_http s
  = let objs := objects s ++ [ODict (headers_sent token origin)] in
    match get url (headers_sent token origin) with
    | Raise e => (Raise e, mkState objs (stdout s) (stderr s))
    | Ok response =>
        let out :=
          if debug_http then stdout s ++ [debug_line response] else stdout s in
        if is_http_error (status_code response)
        then (Raise (PyExc HTTPError (http_error_message response url)),
              mkState objs out (stderr s ++ ["Response body: " +:+ text response]))
        else (Ok (content response), mkState objs out (stderr s))
    end.
Proof.
  unfold fetch_tile, headers_sent. cbn zeta. unfold bind at 1. cbn [alloc].
  destruct (is_nonempty token), (is_nonempty origin);
    repeat (unfold bind at 1; rewrite ?setitem_new, ?items_new; cbn [ret dict_set
              String.eqb Ascii.eqb Bool.eqb app]);
    destruct (get url _) as [response|e]; try reflexivity;
    unfold is_http_error, debug_line, http_error_message;
    destruct debug_http, ((400 <=? status_code response) && (status_code response <? 600));
    reflexivity.
Qed.

(** *** The request *)

(** X18: [fetch_tile] asks one thing of the network, the answer to one
    request for the URL with the headers [Accept], [Authorization] when the
    token is not empty and [Origin] when the origin is not empty; it returns
    the body of an answer whose status is not an HTTP error status; for an
    HTTP error status it prints the body on standard error and raises
    [HTTPError]; an exception of the transport goes out as it is.  The one
    object that it builds is the dict of the headers. *)
Theorem fetch_tile_request (url : string) (token origin : option string)
    (debug_http : bool) (s : state) :
  let sent := headers_sent token origin in
  let run := fetch_tile requests_get url token origin debug_http s in
  (forall other : string -> list (string * val) -> result response,
     other url sent = requests_get url sent ->
     fetch_tile other url token origin debug_http s = run)
  ∧ lookup_key sent "Accept" = Some (VStr "application/x-protobuf")
  ∧ lookup_key sent "Authorization"
    = (if is_nonempty token then Some (VStr ("Bearer " +:+ default "" token))
       else None)
  ∧ lookup_key sent "Origin"
    = (if is_nonempty origin then Some (VStr (default "" origin)) else None)
  ∧ objects (snd run) = objects s ++ [ODict sent]
  ∧ match fst run with
    | Ok raw_tile =>
        exists response,
          requests_get url sent = Ok response
          ∧ is_http_error (status_code response) = false
          ∧ raw_tile = content response
          ∧ stderr (snd run) = stderr s
    | Raise exc =>
        (requests_get url sent = Raise exc ∧ stderr (snd run) = stderr s)
        ∨ (exists response,
             requests_get url sent = Ok response
             ∧ is_http_error (status_code response) = true
             ∧ exc = PyExc HTTPError (http_error_message response url)
             ∧ stderr (snd run) = stderr s ++ ["Response body: " +:+ text response])
    end.
Proof.
  cbn zeta. split; [|split; [|split; [|split]]].
  - intros other Hother. rewrite !fetch_tile_eq. cbn zeta. by rewrite Hother.
  - reflexivity.
  - unfold headers_sent. by destruct (is_nonempty token), (is_nonempty origin).
  - unfold headers_sent. by destruct (is_nonempty token), (is_nonempty origin).
  - rewrite fetch_tile_eq. cbn zeta.
    destruct (requests_get url (headers_sent token origin)) as [response|e].
    + destruct (is_http_error (status_code response)) eqn:Hstatus; cbn [fst snd objects].
      * split; [done|]. right. by exists response.
      * split; [done|]. by exists response.
    + cbn [fst snd objects]. split; [done|]. by left.
Qed.

(** *** What [main] leaves unchanged *)

Lemma preserves_for_list_Forall {A B} (R : relation state) `{!PreOrder R}
    (f : A -> M B) (xs : list A) :
  Forall (fun x => preserves R (f x)) xs -> preserves R (for_list f xs).
Proof.
  induction 1 as [|x xs Hx Hxs IH]; cbn [for_list]; [apply (preserves_ret R)|].
  apply (preserves_bind R); [done|]. intros y.
  apply (preserves_bind R); [done|]. intros ys. apply (preserves_ret R).
Qed.

Lemma alloc_value_preserves (R : relation state) `{!PreOrder R} (v : pyval) :
  (forall o, preserves R (alloc o)) -> preserves R (alloc_value v).
Proof.
  intros Halloc.
  induction v as [|b|z|bits|str|items IH|entries IH] using pyval_all_ind;
    try apply (preserves_ret R); cbn [alloc_value].
  - apply (preserves_bind R); [|done]. by apply preserves_for_list_Forall.
  - apply (preserves_bind R); [|done]. apply preserves_for_list_Forall; [done|].
    eapply Forall_impl; [exact IH|]. intros [k x] Hx. cbn [snd] in Hx.
    apply (preserves_bind R); [done|]. intros y. apply (preserves_ret R).
Qed.

Lemma decode_tile_preserves (R : relation state) `{!PreOrder R} raw_tile :
  (forall o, preserves R (alloc o)) -> preserves R (decode_tile decode raw_tile).
Proof.
  intros Halloc. unfold decode_tile. destruct (decode raw_tile) as [tile|e].
  - by apply alloc_value_preserves.
  - by intros s.
Qed.

Lemma fetch_tile_unchanged url token origin debug_http :
  preserves unchanged (fetch_tile requests_get url token origin debug_http).
Proof.
  intros s l o Hl. rewrite fetch_tile_eq. cbn zeta.
  destruct (requests_get url _) as [response|e];
    [destruct (is_http_error (status_code response))|];
    cbn [snd objects]; by apply lookup_app_l_Some.
Qed.

Lemma print_selected_fields_unchanged tile :
  preserves unchanged (print_selected_fields py_str tile).
Proof.
  unfold print_selected_fields, print_layer_fields, print_feature_fields.
  preserves_auto.
Qed.

(** The part of [main] that follows the request. *)
Definition present (args : arguments) (raw_tile : list Wire.byte) : M unit :=
  print ("Received " +:+ pretty (length raw_tile) +:+ " bytes. Decoding..." +:+ nl) ;;
  decoded <- decode_tile decode raw_tile ;;
  summarize_layers py_str json_dumps decoded (arg_max_features args) ;;
  if arg_print_geometry args
  then print_geometries py_str recursion_limit decoded (arg_geometry_max_features args)
         (arg_geometry_max_coords args)
  else ret tt.

Lemma main_body_eq args :
  main_body py_str json_dumps requests_get decode recursion_limit args
  = (url <- lift (Features.adjust_matched_filter (arg_url args) (arg_matched args)) ;;
     print ("Requesting tile..." +:+ nl +:+ url +:+ nl) ;;
     raw_tile <-
       fetch_tile requests_get url (arg_token args) (arg_origin args)
         (arg_debug_http args) ;;
     present args raw_tile).
Proof. reflexivity. Qed.

Lemma present_unchanged args raw_tile : preserves unchanged (present args raw_tile).
Proof.
  unfold present.
  pose proof (decode_tile_preserves unchanged raw_tile alloc_unchanged).
  pose proof (summarize_layers_unchanged py_str json_dumps).
  pose proof (print_geometries_unchanged py_str recursion_limit).
  preserves_auto.
Qed.

Lemma truncate_geometry_quiet depth geom max_coords :
  preserves quiet (truncate_geometry depth geom max_coords).
Proof.
  revert geom. induction depth as [|depth IH]; intros geom; cbn [truncate_geometry];
    preserves_auto.
Qed.

Lemma present_quiet args raw_tile : preserves quiet (present args raw_tile).
Proof.
  unfold present, summarize_layers, summarize_layer, summarize_feature,
    print_geometries, print_layer_geometries, print_feature_geometry, omitted.
  pose proof (decode_tile_preserves quiet raw_tile alloc_quiet).
  pose proof truncate_geometry_quiet.
  preserves_auto.
Qed.

(** X19: whatever happens, [main] leaves the objects that were there as
    they were: the dict of the headers and the decoded tile are new objects,
    and the consumers only read.  So do [fetch_tile], [decode_tile] and
    [print_selected_fields] on their own. *)
Theorem main_read_only (args : arguments) (s : state) :
  unchanged s (snd (main py_str json_dumps requests_get decode recursion_limit args s))
  ∧ (forall url token origin debug_http,
       unchanged s (snd (fetch_tile requests_get url token origin debug_http s)))
  ∧ (forall raw_tile, unchanged s (snd (decode_tile decode raw_tile s)))
  ∧ (forall tile, unchanged s (snd (print_selected_fields py_str tile s))).
Proof.
  split; [|split; [|split]].
  - assert (preserves unchanged
              (main_body py_str json_dumps requests_get decode recursion_limit args))
      as Hbody.
    { rewrite main_body_eq.
      pose proof fetch_tile_unchanged. pose proof present_unchanged.
      preserves_auto. }
    specialize (Hbody s). unfold main.
    destruct (main_body _ _ _ _ _ args s) as [[[]|exc] s']; cbn [snd] in *; [done|].
    by destruct (decide (exc_type exc = HTTPError)).
  - intros url token origin debug_http. apply fetch_tile_unchanged.
  - intros raw_tile. apply (decode_tile_preserves unchanged raw_tile alloc_unchanged s).
  - intros tile. apply print_selected_fields_unchanged.
Qed.

(** *** The exit status and standard error *)

Definition is_report (line : string) : Prop :=
  exists msg, line = "HTTP error: " +:+ msg ∨ line = "Unexpected error: " +:+ msg.

Lemma main_body_stderr args s :
  match main_body py_str json_dumps requests_get decode recursion_limit args s with
  | (Ok _, s') => stderr s' = stderr s
  | (Raise exc, s') =>
      exists lines,
        stderr s' = stderr s ++ lines
        ∧ (lines = [] ∨ exists body, lines = ["Response body: " +:+ body])
  end.
Proof.
  rewrite main_body_eq. unfold bind at 1, lift.
  destruct (Features.adjust_matched_filter (arg_url args) (arg_matched args))
    as [url|e]; [|exists []; rewrite app_nil_r; auto].
  unfold bind at 1. cbn [print]. unfold bind at 1.
  rewrite fetch_tile_eq. cbn zeta.
  destruct (requests_get _ _) as [response|e].
  - destruct (is_http_error (status_code response)).
    + exists ["Response body: " +:+ text response]. split; [done|]. right. by eexists.
    + match goal with |- context [present args ?raw ?s1] =>
        pose proof (present_quiet args raw s1) as Hquiet;
        destruct (present args raw s1) as [[[]|exc] s2]
      end; unfold quiet in Hquiet; cbn [snd stderr] in Hquiet; [done|].
      exists []. rewrite app_nil_r. auto.
  - exists []. cbn [stderr]. rewrite app_nil_r. auto.
Qed.


(** X21: once [adjust_matched_filter] has returned the URL, an HTTP error
    status ends [main] with exit status 1: standard error shows the body of
    the response and then the error ([<status> Client Error] below 500,
    [Server Error] from 500 on, with the reason and the URL); nothing of a
    tile is printed and nothing but the headers is built. *)
Theorem main_http_error (args : arguments) (s : state) (url : string)
    (response : response) :
  Features.adjust_matched_filter (arg_url args) (arg_matched args) = Ok url ->
  let sent := headers_sent (arg_token args) (arg_origin args) in
  requests_get url sent = Ok response ->
  is_http_error (status_code response) = true ->
  main py_str json_dumps requests_get decode recursion_limit args s
  = (1, mkState (objects s ++ [ODict sent])
          (stdout s
           ++ ["Requesting tile..." +:+ nl +:+ url +:+ nl]
           ++ (if arg_debug_http args then [debug_line response] else []))
          (stderr s
           ++ ["Response body: " +:+ text response;
               "HTTP error: " +:+ http_error_message response url])).
Proof.
  cbn zeta. intros Hurl Hget Hstatus. unfold main. rewrite main_body_eq.
  unfold bind at 1, lift. rewrite Hurl.
  unfold bind at 1. cbn [print]. unfold bind at 1.
  rewrite fetch_tile_eq. cbn zeta. rewrite Hget, Hstatus.
  cbn [exc_type exc_str]. rewrite decide_True by done.
  cbn [snd eprint objects stdout stderr].
  destruct (arg_debug_http args); by rewrite <- ?app_assoc, ?app_nil_r.
Qed.

Lemma truthy_new objs entries out err :
  py_truthy (VRef (length objs)) (mkState (objs ++ [ODict entries]) out err)
  = (Ok (match entries with [] => false | _ => true end),
     mkState (objs ++ [ODict entries]) out err).
Proof. unfold py_truthy, bind, load. cbn [objects]. by rewrite lookup_new. Qed.

Lemma summarize_layers_empty objs out err max_features :
  summarize_layers py_str json_dumps (VRef (length objs)) max_features
    (mkState (objs ++ [ODict []]) out err)
  = (Ok tt, mkState (objs ++ [ODict []]) (out ++ ["No layers found in the tile."]) err).
Proof. unfold summarize_layers, bind. by rewrite truthy_new. Qed.

Lemma print_geometries_empty objs out err max_features max_coords :
  print_geometries py_str recursion_limit (VRef (length objs)) max_features max_coords
    (mkState (objs ++ [ODict []]) out err)
  = (Ok tt,
     mkState (objs ++ [ODict []]) (out ++ [nl +:+ "No geometries to display."]) err).
Proof. unfold print_geometries, bind. by rewrite truthy_new. Qed.

(** X22: once [adjust_matched_filter] has returned the URL, a tile with no
    layer ends [main] with exit status 0: after the line that announces the
    decoding, standard output has [No layers found in the tile.] and, with
    [--print-geometry], [No geometries to display.]; nothing is written to
    standard error. *)
Theorem main_empty_tile (args : arguments) (s : state) (url : string)
    (response : response) :
  Features.adjust_matched_filter (arg_url args) (arg_matched args) = Ok url ->
  let sent := headers_sent (arg_token args) (arg_origin args) in
  requests_get url sent = Ok response ->
  is_http_error (status_code response) = false ->
  decode (content response) = Ok (PDict []) ->
  main py_str json_dumps requests_get decode recursion_limit args s
  = (0, mkState (objects s ++ [ODict sent] ++ [ODict []])
          (stdout s
           ++ ["Requesting tile..." +:+ nl +:+ url +:+ nl]
           ++ (if arg_debug_http args then [debug_line response] else [])
           ++ ["Received " +:+ pretty (length (content response))
               +:+ " bytes. Decoding..." +:+ nl;
               "No layers found in the tile."]
           ++ (if arg_print_geometry args
               then [nl +:+ "No geometries to display."] else []))
          (stderr s)).
Proof.
  cbn zeta. intros Hurl Hget Hstatus Hdecode. unfold main. rewrite main_body_eq.
  unfold bind at 1, lift. rewrite Hurl.
  unfold bind at 1. cbn [print]. unfold bind at 1.
  rewrite fetch_tile_eq. cbn zeta. rewrite Hget, Hstatus.
  unfold present. unfold bind at 1. cbn [print objects stdout stderr].
  unfold bind at 1. unfold decode_tile. rewrite Hdecode.
  cbn [alloc_value for_list]. unfold bind at 1. cbn [ret alloc objects stdout stderr].
  unfold bind at 1. rewrite summarize_layers_empty.
  destruct (arg_print_geometry args).
  - rewrite print_geometries_empty.
    destruct (arg_debug_http args); by rewrite <- ?app_assoc.
  - cbn [ret].
    destruct (arg_debug_http args); by rewrite <- ?app_assoc, ?app_nil_r.
Qed.

(** *** The lines of a layer *)

Lemma bind_silent {A B} (m : M A) (f : A -> M B) s b s' :
  preserves silent m -> bind m f s = (Ok b, s') ->
  exists a s1, m s = (Ok a, s1) ∧ stdout s1 = stdout s ∧ f a s1 = (Ok b, s').
Proof.
  intros Hm (a & s1 & Ha & Hf)%bind_Ok. exists a, s1. split; [done|]. split; [|done].
  specialize (Hm s). by rewrite Ha in Hm.
Qed.

(** [summarize_feature], when it returns, has printed one line. *)
Lemma summarize_feature_line idx feature s s' :
  summarize_feature py_str json_dumps idx feature s = (Ok tt, s') ->
  exists line, stdout s' = stdout s ++ [line].
Proof.
  unfold summarize_feature. intros Hrun.
  repeat (apply bind_silent in Hrun as (? & ? & _ & ? & Hrun);
          [|solve [preserves_auto]]).
  unfold print in Hrun. injection Hrun as <-. cbn [stdout]. eexists.
  f_equal. congruence.
Qed.

Lemma py_len_state v s r s1 : py_len v s = (r, s1) -> s1 = s.
Proof.
  destruct v as [| | | | |l]; try (by intros [= _ <-]).
  unfold py_len, bind, load. destruct (objects s !! l) as [[items|entries]|];
    by intros [= _ <-].
Qed.

Lemma py_len_stable v s count s1 s' count' s1' :
  py_len v s = (Ok count, s1) -> unchanged s s' ->
  py_len v s' = (Ok count', s1') -> count' = count.
Proof.
  destruct v as [| | | | |l]; try done.
  - by intros [= <- _] _ [= <- _].
  - unfold py_len, bind, load. intros Hlen Hsame.
    destruct (objects s !! l) as [o|] eqn:Hl; [|done].
    rewrite (Hsame l o Hl). unfold ret in *.
    destruct o; intros; by simplify_eq.
Qed.

Lemma length_list_ascii (str : string) :
  length (list_ascii_of_string str) = String.length str.
Proof. induction str as [|c str IH]; simpl; [done|]. by rewrite IH. Qed.

Lemma slice_to_length {A} (l : list A) (n : Z) :
  0 <= n -> Z.of_nat (length (slice_to l n)) = Z.min (Z.of_nat (length l)) n.
Proof.
  intros Hn. unfold slice_to. rewrite (proj2 (Z.leb_le 0 n)) by done.
  rewrite length_take. lia.
Qed.

(** The features that a layer shows are as many as the smaller of the
    count and of the limit. *)
Lemma shown_length features max_features s count s1 s' shown s2 items s3 :
  0 <= max_features ->
  py_len features s = (Ok count, s1) ->
  objects s' = objects s ->
  py_slice_to features max_features s' = (Ok shown, s2) ->
  py_iter shown s2 = (Ok items, s3) ->
  Z.of_nat (length items) = Z.min count max_features.
Proof.
  intros Hmax Hlen Hobjects Hslice Hiter.
  destruct features as [| | | |str|l]; try done.
  - injection Hlen as <- _. injection Hslice as <- <-. injection Hiter as <- _.
    rewrite length_map. unfold str_slice_to.
    rewrite list_ascii_of_string_of_list_ascii, slice_to_length by done.
    by rewrite length_list_ascii.
  - unfold py_len, bind, load in Hlen. unfold py_slice_to, bind, load in Hslice.
    rewrite Hobjects in Hslice.
    destruct (objects s !! l) as [[xs|entries]|]; [|done|done].
    injection Hlen as <- _. injection Hslice as <- <-.
    unfold py_iter, bind, load in Hiter. cbn [objects] in Hiter.
    rewrite lookup_new in Hiter. injection Hiter as <- _.
    by apply slice_to_length.
Qed.

Lemma one_line_blocks {A} (xs : list A) (blocks : list (list string)) :
  Forall2 (fun _ block => exists line : string, block = [line]) xs blocks ->
  length (concat blocks) = length xs.
Proof.
  induction 1 as [|x block xs blocks [line ->] _ IH]; [done|].
  simpl. by rewrite IH.
Qed.


End Script.

(** A server that refuses the request. *)
Definition refusing : string -> list (string * val) -> result response :=
  fun _ _ => Ok (mkResponse 403 "Forbidden" "{}" "denied" []).

Lemma main_http_error_witness :
  let run :=
    @main UrllibRef.reference plain_str plain_dumps refusing (mvt_decode point_feature)
      1000 default_args initial in
  fst run = 1
  ∧ stdout (snd run) = ["Requesting tile..." +:+ nl +:+ Features.DEFAULT_URL +:+ nl]
  ∧ stderr (snd run)
    = ["Response body: denied";
       "HTTP error: 403 Client Error: Forbidden for url: " +:+ Features.DEFAULT_URL].
Proof.
  cbn zeta.
  rewrite (@main_http_error UrllibRef.reference plain_str plain_dumps refusing
             (mvt_decode point_feature) 1000 default_args initial Features.DEFAULT_URL
             (mkResponse 403 "Forbidden" "{}" "denied" []));
    [|reflexivity|reflexivity|reflexivity].
  repeat split.
Defined.

Lemma main_empty_tile_witness :
  let run :=
    @main UrllibRef.reference plain_str plain_dumps (served [])
      (fun _ => Ok (PDict [])) 1000 default_args initial in
  fst run = 0
  ∧ stdout (snd run)
    = ["Requesting tile..." +:+ nl +:+ Features.DEFAULT_URL +:+ nl;
       "Received 0 bytes. Decoding..." +:+ nl;
       "No layers found in the tile."]
  ∧ stderr (snd run) = [].
Proof.
  cbn zeta.
  rewrite (@main_empty_tile UrllibRef.reference plain_str plain_dumps (served [])
             (fun _ => Ok (PDict [])) 1000 default_args initial Features.DEFAULT_URL
             (mkResponse 200 "OK" "{}" "" []));
    [|reflexivity|reflexivity|reflexivity|reflexivity].
  repeat split.
Defined.

(** A URL that [urlsplit] refuses, with [--matched true]: [main] ends
    before any request, with the message of the [ValueError]. *)
Example main_refused_url :
  @main UrllibRef.reference plain_str plain_dumps refusing (mvt_decode point_feature)
    1000 (mkArgs "http://[::1/p?a=1" 3 None None false (Some "true") false 5 10) initial
  = (1, mkState [] [] ["Unexpected error: Invalid IPv6 URL"]).
Proof. reflexivity. Qed.

(** A layer of two features, in the store. *)
Definition layer_state : state :=
  mkState [ODict [("features", VRef 1)]; OList [VRef 2; VRef 3];
           ODict [("type", VInt 1)]; ODict [("type", VInt 2)]] [] [].


(** *** [truncate_geometry] returns *)

Lemma for_list_truncate_returns (max_coords : Z) (depth fuel : nat)
    (IH : forall geom s pv, value_of fuel (objects s) geom = Some pv ->
            exists r s', truncate_geometry depth geom max_coords s = (Ok r, s'))
    (items : list val) :
  forall s,
    Forall (fun x => exists pv, value_of fuel (objects s) x = Some pv) items ->
    exists rs s',
      for_list (fun item => truncate_geometry depth item max_coords) items s
      = (Ok rs, s').
Proof.
  induction items as [|x items IHitems]; intros s Hitems.
  - by eexists _, _.
  - inversion Hitems as [|? ? [pv Hx] Hrest]; subst.
    destruct (IH x s pv Hx) as (r & s1 & Hr).
    pose proof (truncate_geometry_unchanged depth x max_coords s) as Hs1.
    rewrite Hr in Hs1. cbn [snd] in Hs1.
    destruct (IHitems s1) as (rs & s2 & Hrs).
    { eapply Forall_impl; [exact Hrest|]. intros y [py Hy]. exists py.
      eapply value_of_mono; [exact Hy|done|exact Hs1]. }
    exists (r :: rs), s2. cbn [for_list]. unfold bind at 1. rewrite Hr.
    unfold bind at 1. fold (for_list (fun item => truncate_geometry depth item max_coords) items).
    by rewrite Hrs.
Qed.

Lemma Forall2_exists {A B} (P : A -> B -> Prop) (l : list A) (k : list B) :
  Forall2 P l k -> Forall (fun x => exists y, P x y) l.
Proof. induction 1; constructor; eauto. Qed.

Lemma is_list_at l o s :
  objects s !! l = Some o ->
  py_is_list (VRef l) s = (Ok (match o with OList _ => true | ODict _ => false end), s).
Proof. intros Hl. unfold py_is_list, bind, load. rewrite Hl. by destruct o. Qed.

Lemma slice_at l items n s :
  objects s !! l = Some (OList items) ->
  py_slice_to (VRef l) n s
  = (Ok (VRef (length (objects s))),
     mkState (objects s ++ [OList (slice_to items n)]) (stdout s) (stderr s)).
Proof. intros Hl. unfold py_slice_to, bind, load. by rewrite Hl. Qed.

Lemma iter_new objs items out err :
  py_iter (VRef (length objs)) (mkState (objs ++ [OList items]) out err)
  = (Ok items, mkState (objs ++ [OList items]) out err).
Proof.
  unfold py_iter, bind, load. cbn [objects].
  by rewrite lookup_app_r, Nat.sub_diag.
Qed.

Lemma truncate_geometry_returns (max_coords : Z) (fuel : nat) :
  forall depth geom s pv,
    value_of fuel (objects s) geom = Some pv -> (fuel < depth)%nat ->
    exists r s', truncate_geometry depth geom max_coords s = (Ok r, s').
Proof.
  induction fuel as [|fuel IH]; intros [|depth] geom s pv Hpv Hdepth; try lia;
    cbn [truncate_geometry].
  - destruct geom; try done; by eexists _, _.
  - destruct geom as [| | | | |l]; try (by eexists _, _).
    cbn [value_of] in Hpv.
    destruct (objects s !! l) as [[items|entries]|] eqn:Hl; [| |done].
    + destruct (mapM (value_of fuel (objects s)) items) as [pvs|] eqn:Hitems; [|done].
      apply mapM_Some, Forall2_exists in Hitems.
      set (s1 := mkState (objects s ++ [OList (slice_to items max_coords)])
                   (stdout s) (stderr s)).
      destruct (for_list_truncate_returns max_coords depth fuel) with
        (items := slice_to items max_coords) (s := s1) as (rs & s2 & Hrs).
      { intros g s0 pv0 Hg. apply (IH depth g s0 pv0 Hg). lia. }
      { unfold slice_to.
        destruct (0 <=? max_coords); apply Forall_take;
          (eapply Forall_impl; [exact Hitems|]); intros x [px Hx]; exists px;
          (eapply value_of_mono; [exact Hx|done|]);
          intros l' o' Hl'; by apply lookup_app_l_Some. }
      unfold bind at 1. rewrite (is_list_at l _ s Hl). cbn [negb].
      unfold bind at 1. rewrite (slice_at l items max_coords s Hl).
      unfold bind at 1. rewrite iter_new.
      unfold bind at 1. fold s1. rewrite Hrs. by eexists _, _.
    + unfold bind at 1. rewrite (is_list_at l _ s Hl). cbn [negb]. by eexists _, _.
Qed.


Definition ring_state : state :=
  mkState [OList [VInt 1; VInt 2; VInt 3]; OList [VRef 0; VRef 0]] [] [].


End FeaturesRunMore.
